(** * folly/experimental/symbolizer/Symbolizer.cpp

    A shallow embedding of the stack symbolizer: the resolution engine
    [Symbolizer::symbolize], the [AddressFormatter], the buffered
    file-descriptor printer with [SafeStackTracePrinter::printStackTrace],
    the guard-paged alternate stack of
    [UnsafeSelfAllocateStackTracePrinter], the rendering of a frame by
    [SymbolizePrinter], and the stack-trace printers built on them.

    Machine integers ([size_t], [uintptr_t]) are 64-bit and modelled as [Z]
    with the wrap-around written out.  An access outside an array is
    undefined behaviour in the source; the embedding returns [None] there. *)

From Stdlib Require Import String Ascii ZArith List Bool Lia.
Import ListNotations.
Local Open Scope string_scope.
Local Open Scope list_scope.
Local Open Scope Z_scope.
Unset Lia Cache.

(* ================================================================== *)
(** * Machine arithmetic *)
(* ================================================================== *)

(** Reduction of an integer to the range of a 64-bit unsigned word. *)
Definition wrap (z : Z) : Z := z mod 2 ^ 64.

Definition size_add (a b : Z) : Z := wrap (a + b).
Definition size_sub (a b : Z) : Z := wrap (a - b).

(* ================================================================== *)
(** * Array views over lists *)
(* ================================================================== *)

(** The elements at positions [lo .. hi). *)
Definition sublist {A} (lo hi : nat) (l : list A) : list A :=
  firstn (hi - lo) (skipn lo l).

(** Overwrite [length new] consecutive elements of [l] starting at [pos]. *)
Definition write_at {A} (pos : nat) (new l : list A) : list A :=
  firstn pos l ++ new ++ skipn (pos + length new) l.

Definition size {A} (l : list A) : Z := Z.of_nat (length l).

(** [0 <= lo <= hi <= size l]: the half-open range is inside the array. *)
Definition in_range {A} (lo hi : Z) (l : list A) : bool :=
  (0 <=? lo) && (lo <=? hi) && (hi <=? size l).

(* ================================================================== *)
(** * Data model (SymbolizedFrame, LocationInfo, LocationInfoMode) *)
(* ================================================================== *)

Inductive LocationInfoMode :=
| DISABLED
| FAST
| FULL
| FULL_WITH_INLINE.

Definition LocationInfoMode_eqb (a b : LocationInfoMode) : bool :=
  match a, b with
  | DISABLED, DISABLED | FAST, FAST | FULL, FULL
  | FULL_WITH_INLINE, FULL_WITH_INLINE => true
  | _, _ => false
  end.

Record LocationInfo := {
  hasFileAndLine : bool;
  hasMainFile : bool;
  mainFile : string;
  location_file : string;
  line : Z
}.

Definition LocationInfo_default : LocationInfo :=
  {| hasFileAndLine := false; hasMainFile := false;
     mainFile := ""; location_file := ""; line := 0 |}.

(** A handle on an opened object file (the pointee of
    [std::shared_ptr<ElfFile>]); the files themselves are queried through
    the collaborators of [Env]. *)
Inductive ElfFile := ElfHandle (id : nat).

(** A symbol-table entry as returned by [getDefinitionByAddress]. *)
Inductive ElfSym := SymEntry (index : nat).

Record SymbolizedFrame := {
  found : bool;
  addr : Z;
  name : option string;          (* const char*, nullptr = None *)
  location : LocationInfo;
  file : option ElfFile          (* shared_ptr, empty = None *)
}.

(** The default-constructed frame; [SymbolizedFrame::clear] assigns it. *)
Definition SymbolizedFrame_clear : SymbolizedFrame :=
  {| found := false; addr := 0; name := None;
     location := LocationInfo_default; file := None |}.

Definition set_addr (f : SymbolizedFrame) (a : Z) : SymbolizedFrame :=
  {| found := found f; addr := a; name := name f;
     location := location f; file := file f |}.

(** What a move leaves behind: the shared pointer is emptied, the plain
    members are copied. *)
Definition moved_from (f : SymbolizedFrame) : SymbolizedFrame :=
  {| found := found f; addr := addr f; name := name f;
     location := location f; file := None |}.

(** The [countFrames] lambda of [symbolize]: the distance from the start of
    the range to the first frame that is not found. *)
Fixpoint countFrames (framesRange : list SymbolizedFrame) : nat :=
  match framesRange with
  | [] => O
  | frame :: rest => if found frame then S (countFrames rest) else O
  end.

(* ================================================================== *)
(** * The symbol cache *)
(* ================================================================== *)

(** Modelled from the spec: the class EvictingCacheMap behind
    [symbolCache_] is not part of the translated sources.  The spec gives
    a bounded associative cache from an address to a fixed-size frame
    group, with most-recently-used promotion on lookup and
    least-recently-used eviction bounded by the capacity handed to the
    constructor.  [lru] lists the entries, most recently used first. *)
Record SymbolCache := {
  maxSize : nat;
  lru : list (Z * list SymbolizedFrame)
}.

Fixpoint lru_lookup (k : Z) (l : list (Z * list SymbolizedFrame))
  : option (list SymbolizedFrame) :=
  match l with
  | [] => None
  | (k', v) :: rest => if k' =? k then Some v else lru_lookup k rest
  end.

Fixpoint lru_remove (k : Z) (l : list (Z * list SymbolizedFrame))
  : list (Z * list SymbolizedFrame) :=
  match l with
  | [] => []
  | (k', v) :: rest =>
      if k' =? k then lru_remove k rest else (k', v) :: lru_remove k rest
  end.

(** [find]: a hit returns the value and brings the entry to the front. *)
Definition cache_find (k : Z) (c : SymbolCache)
  : option (list SymbolizedFrame * SymbolCache) :=
  match lru_lookup k (lru c) with
  | Some v =>
      Some (v, {| maxSize := maxSize c; lru := (k, v) :: lru_remove k (lru c) |})
  | None => None
  end.

(** [set]: an existing entry is overwritten and promoted; a new one is
    put in front and the least recently used entries beyond the capacity
    are dropped. *)
Definition cache_set (k : Z) (v : list SymbolizedFrame) (c : SymbolCache)
  : SymbolCache :=
  match lru_lookup k (lru c) with
  | Some _ => {| maxSize := maxSize c; lru := (k, v) :: lru_remove k (lru c) |}
  | None => {| maxSize := maxSize c; lru := firstn (maxSize c) ((k, v) :: lru c) |}
  end.

(* ================================================================== *)
(** * The process environment and the collaborators *)
(* ================================================================== *)

(** One record of the dynamic linker's chain of loaded objects. *)
Record link_map := {
  l_addr : Z;
  l_name : string
}.

(** A call to the debug-info query service, as a test double would
    count it. *)
Inductive Query :=
| QSection (f : ElfFile) (address : Z)
| QDefinition (f : ElfFile) (address : Z)
| QSymbolName (f : ElfFile) (sym : ElfSym)
| QFindAddress (f : ElfFile) (address : Z) (mode : LocationInfoMode) (slots : nat).

(** What [symbolize] consumes from outside: [_r_debug], the link of the
    running executable, the object-file cache [cache_], the ELF and DWARF
    queries, and the constant [Dwarf::kMaxInlineLocationInfoPerFrame],
    whose header is not part of the translated sources.

    [findAddress f a mode slots] is [Dwarf(f).findAddress] called with a
    range of [slots] scratch frames: it returns the location it stores in
    the frame and the inline frames it stores at the start of that range. *)
Record Env := {
  r_version : Z;
  r_map : list link_map;
  readlink_self_exe : option string;     (* None: readlink returned -1 *)
  getFile : string -> option ElfFile;
  getSectionContainingAddress : ElfFile -> Z -> bool;
  getDefinitionByAddress : ElfFile -> Z -> option ElfSym;
  getSymbolName : ElfFile -> ElfSym -> option string;
  findAddress :
    ElfFile -> Z -> LocationInfoMode -> nat -> LocationInfo * list SymbolizedFrame;
  kMaxInlineLocationInfoPerFrame : nat
}.

(** The members of [Symbolizer] that [symbolize] reads and writes
    ([cache_] is [getFile] of the environment). *)
Record Symbolizer := {
  mode_ : LocationInfoMode;
  symbolCache_ : option SymbolCache
}.

(** [Symbolizer::Symbolizer]: a symbol cache exists only for a positive
    size. *)
Definition Symbolizer_new (mode : LocationInfoMode) (symbolCacheSize : nat)
  : Symbolizer :=
  {| mode_ := mode;
     symbolCache_ :=
       if (0 <? Z.of_nat symbolCacheSize)
       then Some {| maxSize := symbolCacheSize; lru := [] |}
       else None |}.

(* ================================================================== *)
(** * setSymbolizedFrame *)
(* ================================================================== *)

(** The frame is cleared and marked found; without a symbol definition
    nothing else is set and the scratch range is left alone.  The result
    is the new frame, the inline frames stored at the start of the range
    of [slots] frames, and the queries made. *)
Definition setSymbolizedFrame (env : Env) (elf : ElfFile) (address : Z)
    (mode : LocationInfoMode) (slots : nat)
  : SymbolizedFrame * list SymbolizedFrame * list Query :=
  match getDefinitionByAddress env elf address with
  | None =>
      ({| found := true; addr := 0; name := None;
          location := LocationInfo_default; file := None |},
       [], [QDefinition elf address])
  | Some sym =>
      let (loc, inlined) := findAddress env elf address mode slots in
      ({| found := true; addr := address; name := getSymbolName env elf sym;
          location := loc; file := Some elf |},
       firstn slots inlined,
       [QDefinition elf address; QSymbolName elf sym;
        QFindAddress elf address mode slots])
  end.

(* ================================================================== *)
(** * Symbolizer::symbolize *)
(* ================================================================== *)

(** The variables of the two nested loops. *)
Record State := {
  frames : list SymbolizedFrame;
  addrCount : Z;
  remaining : Z;
  symbolCache : option SymbolCache;
  queries : list Query
}.

(** The first loop: count the frames among the first [n] that are not
    found, and clear them. *)
Fixpoint clear_unfound (n : nat) (fs : list SymbolizedFrame)
  : option (Z * list SymbolizedFrame) :=
  match n with
  | O => Some (0, fs)
  | S n' =>
      match fs with
      | [] => None
      | frame :: rest =>
          match clear_unfound n' rest with
          | None => None
          | Some (r, rest') =>
              if found frame then Some (r, frame :: rest')
              else Some (r + 1, SymbolizedFrame_clear :: rest')
          end
      end
  end.

(** [frames[i].addr = addrs[i]] for every [i] below [addrs.size()]. *)
Fixpoint assign_addrs (addrs : list Z) (fs : list SymbolizedFrame)
  : option (list SymbolizedFrame) :=
  match addrs with
  | [] => Some fs
  | a :: addrs' =>
      match fs with
      | [] => None
      | frame :: rest =>
          match assign_addrs addrs' rest with
          | None => None
          | Some rest' => Some (set_addr frame a :: rest')
          end
      end
  end.

(** [std::move_backward(begin + first, begin + last, begin + d_last)]:
    the elements of [first .. last) end at [d_last]; a source element that
    no moved element lands on is left moved-from.  With [d_last = last]
    every element is assigned to itself and stays as it is. *)
Definition move_backward (first last d_last : Z) (fs : list SymbolizedFrame)
  : option (list SymbolizedFrame) :=
  let d_first := d_last - (last - first) in
  if in_range first last fs && in_range d_first d_last fs then
    let seg := sublist (Z.to_nat first) (Z.to_nat last) fs in
    Some (write_at (Z.to_nat d_first) seg
            (write_at (Z.to_nat first) (map moved_from seg) fs))
  else None.

(** [std::copy(src.begin(), src.begin() + n, begin + pos)]. *)
Definition copy_frames (src : list SymbolizedFrame) (n pos : Z)
    (fs : list SymbolizedFrame) : option (list SymbolizedFrame) :=
  if in_range 0 n src && in_range pos (pos + n) fs then
    Some (write_at (Z.to_nat pos) (firstn (Z.to_nat n) src) fs)
  else None.

(** [std::rotate(begin + first, begin + middle, begin + last)]: the block
    [middle .. last) comes to [first], followed by [first .. middle). *)
Definition rotate (first middle last : Z) (fs : list SymbolizedFrame)
  : option (list SymbolizedFrame) :=
  if in_range first middle fs && in_range middle last fs then
    Some (firstn (Z.to_nat first) fs
            ++ sublist (Z.to_nat middle) (Z.to_nat last) fs
            ++ sublist (Z.to_nat first) (Z.to_nat middle) fs
            ++ skipn (Z.to_nat last) fs)
  else None.

(** The cache-hit branch (source lines 168-186).  The result is the
    index [i] before the [++i] of the loop, and the state. *)
Definition replay_cached (frameCount i : Z) (entry : list SymbolizedFrame)
    (st : State) : option (Z * State) :=
  let numCachedFrames := Z.of_nat (countFrames entry) in
  let numInlineFrames := size_sub numCachedFrames 1 in
  if numInlineFrames <=? size_sub frameCount (addrCount st) then
    match move_backward (i + 1) (addrCount st)
            (addrCount st + numInlineFrames) (frames st) with
    | None => None
    | Some fs1 =>
        match copy_frames entry (numInlineFrames + 1) i fs1 with
        | None => None
        | Some fs2 =>
            Some (size_add i numInlineFrames,
                  {| frames := fs2;
                     addrCount := size_add (addrCount st) numInlineFrames;
                     remaining := remaining st;
                     symbolCache := symbolCache st;
                     queries := queries st |})
        end
    end
  else Some (i, st).

(** The frames stored in the cache for one resolution: an array of
    [1 + kMaxInlineLocationInfoPerFrame] default frames whose first
    [count] are copied from [frames[i ..]]. *)
Definition cacheFrames_of (env : Env) (i count : Z) (fs : list SymbolizedFrame)
  : option (list SymbolizedFrame) :=
  if in_range i (i + count) fs then
    Some (firstn (Z.to_nat count) (skipn (Z.to_nat i) fs)
            ++ repeat SymbolizedFrame_clear
                 (S (kMaxInlineLocationInfoPerFrame env) - Z.to_nat count))
  else None.

(** Resolution without the cache (source lines 190-230) of the frame at
    [i], which holds the address [a]. *)
Definition resolve (env : Env) (mode : LocationInfoMode) (frameCount : Z)
    (lmap : link_map) (elf : ElfFile) (i a : Z) (st : State)
  : option (Z * State) :=
  let adjusted := wrap (a - l_addr lmap) in
  let q := queries st ++ [QSection elf adjusted] in
  if getSectionContainingAddress env elf adjusted then
    let r :=
      if LocationInfoMode_eqb mode FULL_WITH_INLINE
         && (addrCount st <? frameCount)
      then
        let maxInline :=
          Z.min (Z.of_nat (kMaxInlineLocationInfoPerFrame env))
                (size_sub frameCount (addrCount st)) in
        if in_range (addrCount st) (addrCount st + maxInline) (frames st) then
          let '(frame, inlined, qs) :=
            setSymbolizedFrame env elf adjusted mode (Z.to_nat maxInline) in
          let fs1 := write_at (Z.to_nat i) [frame] (frames st) in
          let fs2 := write_at (Z.to_nat (addrCount st)) inlined fs1 in
          let numInlined :=
            Z.of_nat (countFrames
                        (sublist (Z.to_nat (addrCount st))
                                 (Z.to_nat (addrCount st + maxInline)) fs2)) in
          match rotate i (addrCount st) (addrCount st + numInlined) fs2 with
          | None => None
          | Some fs3 =>
              Some (fs3, numInlined, size_add (addrCount st) numInlined, qs)
          end
        else None
      else
        let '(frame, _, qs) := setSymbolizedFrame env elf adjusted mode O in
        Some (write_at (Z.to_nat i) [frame] (frames st), 0, addrCount st, qs)
    in
    match r with
    | None => None
    | Some (fs, numInlined, addrCount', qs) =>
        let remaining' := size_sub (remaining st) 1 in
        match symbolCache st with
        | None =>
            Some (size_add i numInlined,
                  {| frames := fs; addrCount := addrCount';
                     remaining := remaining'; symbolCache := None;
                     queries := q ++ qs |})
        | Some c =>
            let count :=
              Z.min (size_add numInlined 1)
                    (Z.of_nat (S (kMaxInlineLocationInfoPerFrame env))) in
            match cacheFrames_of env i count fs with
            | None => None
            | Some cacheFrames =>
                Some (size_add i numInlined,
                      {| frames := fs; addrCount := addrCount';
                         remaining := remaining';
                         symbolCache := Some (cache_set a cacheFrames c);
                         queries := q ++ qs |})
            end
        end
    end
  else
    Some (i, {| frames := frames st; addrCount := addrCount st;
                remaining := remaining st; symbolCache := symbolCache st;
                queries := q |}).

(** One iteration of the inner loop (source lines 155-230) at index [i]. *)
Definition visit (env : Env) (mode : LocationInfoMode) (frameCount : Z)
    (lmap : link_map) (elf : ElfFile) (i : Z) (st : State)
  : option (Z * State) :=
  match nth_error (frames st) (Z.to_nat i) with
  | None => None
  | Some frame =>
      if found frame then Some (i, st)
      else
        let a := addr frame in
        match symbolCache st with
        | Some c =>
            match cache_find a c with
            | Some (entry, c') =>
                replay_cached frameCount i entry
                  {| frames := frames st; addrCount := addrCount st;
                     remaining := remaining st; symbolCache := Some c';
                     queries := queries st |}
            | None => resolve env mode frameCount lmap elf i a st
            end
        | None => resolve env mode frameCount lmap elf i a st
        end
  end.

(** The inner loop [for (i; i < addrCount && remaining != 0; ++i)].
    Every iteration adds the same amount to [i] and to [addrCount] and
    then increments [i], so [addrCount - i] iterations are enough;
    [inner_loop] is given that many and answers [None] should they run
    out while the loop condition still holds. *)
Fixpoint inner_loop (fuel : nat) (env : Env) (mode : LocationInfoMode)
    (frameCount : Z) (lmap : link_map) (elf : ElfFile) (i : Z) (st : State)
  : option State :=
  if (i <? addrCount st) && negb (remaining st =? 0) then
    match fuel with
    | O => None
    | S fuel' =>
        match visit env mode frameCount lmap elf i st with
        | None => None
        | Some (i', st') =>
            inner_loop fuel' env mode frameCount lmap elf (size_add i' 1) st'
        end
    end
  else Some st.

(** [lmap->l_name[0] != '\0' ? lmap->l_name : selfPath]: the empty name
    stands for the running executable. *)
Definition objPath (selfPath : string) (lmap : link_map) : string :=
  match l_name lmap with
  | EmptyString => selfPath
  | _ => l_name lmap
  end.

(** The outer loop over the chain of loaded objects. *)
Fixpoint outer_loop (env : Env) (mode : LocationInfoMode) (frameCount : Z)
    (selfPath : string) (lmaps : list link_map) (st : State) : option State :=
  match lmaps with
  | [] => Some st
  | lmap :: rest =>
      if remaining st =? 0 then Some st
      else
        match getFile env (objPath selfPath lmap) with
        | None => outer_loop env mode frameCount selfPath rest st
        | Some elf =>
            match inner_loop (Z.to_nat (addrCount st)) env mode frameCount
                    lmap elf 0 st with
            | None => None
            | Some st' => outer_loop env mode frameCount selfPath rest st'
            end
        end
  end.

(** [Symbolizer::symbolize(addrs, frames)], with the final value of the
    loop variables. *)
Definition symbolize_state (env : Env) (s : Symbolizer) (addrs : list Z)
    (fs : list SymbolizedFrame) : option State :=
  let addrCount0 := size addrs in
  let frameCount := size fs in
  match clear_unfound (length addrs) fs with
  | None => None
  | Some (remaining0, fs1) =>
      let st0 := {| frames := fs1; addrCount := addrCount0;
                    remaining := remaining0;
                    symbolCache := symbolCache_ s; queries := [] |} in
      if remaining0 =? 0 then Some st0
      else if negb (r_version env =? 1) then Some st0
      else
        match readlink_self_exe env with
        | None => Some st0
        | Some selfPath =>
            match assign_addrs addrs fs1 with
            | None => None
            | Some fs2 =>
                outer_loop env (mode_ s) frameCount selfPath (r_map env)
                  {| frames := fs2; addrCount := addrCount0;
                     remaining := remaining0;
                     symbolCache := symbolCache_ s; queries := [] |}
            end
        end
  end.

(** What the caller observes: the frame buffer, the symbolizer with its
    cache, and the queries made to the debug-info service. *)
Definition symbolize (env : Env) (s : Symbolizer) (addrs : list Z)
    (fs : list SymbolizedFrame)
  : option (list SymbolizedFrame * Symbolizer * list Query) :=
  match symbolize_state env s addrs fs with
  | None => None
  | Some st =>
      Some (frames st,
            {| mode_ := mode_ s; symbolCache_ := symbolCache st |},
            queries st)
  end.

(* ================================================================== *)
(** * AddressFormatter *)
(* ================================================================== *)

Definition bytes (s : string) : list ascii := list_ascii_of_string s.

Definition NUL : ascii := Ascii.zero.
Definition LF : ascii := "010"%char.

Definition kHexChars : list ascii := bytes "0123456789abcdef".

(** The member [buf_], an array of [sizeof(bufTemplate)] characters. *)
Record AddressFormatter := { buf_ : list ascii }.

(** [AddressFormatter::AddressFormatter]: [buf_] is a copy of the string
    literal [bufTemplate], terminator included.  The literal is declared
    in Symbolizer.h, which is not part of the translated sources, so the
    embedding takes it as an argument. *)
Definition AddressFormatter_new (bufTemplate : list ascii) : AddressFormatter :=
  {| buf_ := bufTemplate ++ [NUL] |}.

(** [*p = c] for a pointer [p] into the array. *)
Definition store (buf : list ascii) (p : Z) (c : ascii) : option (list ascii) :=
  if in_range p (p + 1) buf then Some (write_at (Z.to_nat p) [c] buf) else None.

(** The loop [while (address != 0) { *p-- = kHexChars[address & 0xf];
    address >>= 4; }].  A [uintptr_t] of at most eight bytes is zero after
    sixteen shifts; [None] should the iterations given not be enough. *)
Fixpoint format_loop (fuel : nat) (address p : Z) (buf : list ascii)
  : option (list ascii) :=
  if address =? 0 then Some buf
  else
    match fuel with
    | O => None
    | S fuel' =>
        match store buf p (nth (Z.to_nat (Z.land address 15)) kHexChars NUL) with
        | None => None
        | Some buf' => format_loop fuel' (Z.shiftr address 4) (p - 1) buf'
        end
    end.

(** [AddressFormatter::format]: the returned view is [buf_ .. end). *)
Definition format (sizeof_uintptr_t : Z) (self : AddressFormatter) (address : Z)
  : option (list ascii * AddressFormatter) :=
  let end_ := size (buf_ self) - 1 - (16 - 2 * sizeof_uintptr_t) in
  match store (buf_ self) end_ NUL with
  | None => None
  | Some buf1 =>
      match format_loop 16 address (end_ - 1) buf1 with
      | None => None
      | Some buf2 =>
          if in_range 0 end_ buf2
          then Some (firstn (Z.to_nat end_) buf2, {| buf_ := buf2 |})
          else None
      end
  end.

(** Reading a string of lowercase hexadecimal digits back as a number. *)
Fixpoint index_of (c : ascii) (l : list ascii) : option Z :=
  match l with
  | [] => None
  | x :: rest =>
      if Ascii.eqb x c then Some 0
      else match index_of c rest with
           | Some n => Some (n + 1)
           | None => None
           end
  end.

Fixpoint parse_hex_from (acc : Z) (s : list ascii) : option Z :=
  match s with
  | [] => Some acc
  | c :: rest =>
      match index_of c kHexChars with
      | None => None
      | Some d => parse_hex_from (16 * acc + d) rest
      end
  end.

Definition parse_hex (s : list ascii) : option Z := parse_hex_from 0 s.

(** The number of hexadecimal digits of [x] without leading zeros, which
    is the number of iterations of the loop of [format]. *)
Fixpoint hex_digits (fuel : nat) (x : Z) : nat :=
  match fuel with
  | O => O
  | S fuel' => if x =? 0 then O else S (hex_digits fuel' (Z.shiftr x 4))
  end.

(* ================================================================== *)
(** * FDSymbolizePrinter *)
(* ================================================================== *)

(** What the file descriptor receives: [writeFull] and [fsyncNoInt]. *)
Inductive FdEvent :=
| WriteFull (data : list ascii)
| Fsync.

(** The [IOBuf] of the printer: [tailroom] is what is left of the
    capacity. *)
Record IOBuf := {
  capacity : Z;
  data : list ascii
}.

Record FDSymbolizePrinter := {
  buffer_ : option IOBuf;      (* nullptr = None *)
  fd_ : list FdEvent           (* the calls made on the descriptor, in order *)
}.

Definition tailroom (b : IOBuf) : Z := capacity b - size (data b).

(** [FDSymbolizePrinter::flush]. *)
Definition FDSymbolizePrinter_flush (p : FDSymbolizePrinter) : FDSymbolizePrinter :=
  match buffer_ p with
  | Some b =>
      match data b with
      | [] => p
      | _ =>
          {| buffer_ := Some {| capacity := capacity b; data := [] |};
             fd_ := fd_ p ++ [WriteFull (data b)] |}
      end
  | None => p
  end.

(** [FDSymbolizePrinter::doPrint]. *)
Definition doPrint (sp : list ascii) (p : FDSymbolizePrinter) : FDSymbolizePrinter :=
  match buffer_ p with
  | Some b =>
      if tailroom b <? size sp then
        let p' := FDSymbolizePrinter_flush p in
        {| buffer_ := buffer_ p'; fd_ := fd_ p' ++ [WriteFull sp] |}
      else
        {| buffer_ := Some {| capacity := capacity b; data := data b ++ sp |};
           fd_ := fd_ p |}
  | None => {| buffer_ := None; fd_ := fd_ p ++ [WriteFull sp] |}
  end.

(** [SafeStackTracePrinter::flush]: flush the printer, then sync. *)
Definition SafeStackTracePrinter_flush (p : FDSymbolizePrinter) : FDSymbolizePrinter :=
  let p' := FDSymbolizePrinter_flush p in
  {| buffer_ := buffer_ p'; fd_ := fd_ p' ++ [Fsync] |}.

(** All the bytes the descriptor has received. *)
Fixpoint written (evs : list FdEvent) : list ascii :=
  match evs with
  | [] => []
  | WriteFull d :: rest => d ++ written rest
  | Fsync :: rest => written rest
  end.

(** The bytes printed so far and still held back in the buffer. *)
Definition pending (p : FDSymbolizePrinter) : list ascii :=
  match buffer_ p with
  | Some b => data b
  | None => []
  end.

(* ================================================================== *)
(** * SafeStackTracePrinter::printStackTrace *)
(* ================================================================== *)

(** The loop over the captured addresses of the address-only branch:
    one [formatter] serves every iteration. *)
Fixpoint print_addresses (sizeof_uintptr_t : Z) (formatter : AddressFormatter)
    (addresses : list Z) (p : FDSymbolizePrinter) : option FDSymbolizePrinter :=
  match addresses with
  | [] => Some p
  | a :: rest =>
      match format sizeof_uintptr_t formatter a with
      | None => None
      | Some (text, formatter') =>
          print_addresses sizeof_uintptr_t formatter' rest
            (doPrint [LF] (doPrint text p))
      end
  end.

(** [SafeStackTracePrinter::printStackTrace(symbolize)].

    [capture] is what [getStackTraceSafe] did: [None] when it returned
    false, otherwise the addresses it stored.  The virtual
    [printSymbolizedStackTrace] reaches the descriptor only through
    [printer_]; [symbolized] lists the texts it prints.  The flush of
    the scope guard runs on every path. *)
Definition printStackTrace (sizeof_uintptr_t : Z) (bufTemplate : list ascii)
    (capture : option (list Z)) (symbolized : list (list ascii))
    (symbolize : bool) (printer_ : FDSymbolizePrinter)
  : option FDSymbolizePrinter :=
  let body :=
    match capture with
    | None => Some (doPrint (bytes "(error retrieving stack trace)" ++ [LF]) printer_)
    | Some addresses =>
        if symbolize then
          Some (fold_left (fun p text => doPrint text p) symbolized printer_)
        else
          print_addresses sizeof_uintptr_t (AddressFormatter_new bufTemplate)
            addresses
            (doPrint (bytes "(safe mode, symbolizer not available)" ++ [LF])
               printer_)
    end in
  match body with
  | None => None
  | Some p => Some (SafeStackTracePrinter_flush p)
  end.

(* ================================================================== *)
(** * The alternate stack *)
(* ================================================================== *)

Definition kMmapStackSize : Z := 1 * 1024 * 1024.

(** [(void* )-1], what [mmap] returns when it fails. *)
Definition MAP_FAILED : Z := 2 ^ 64 - 1.

(** The system calls as the printer sees them: the value [mmap]
    returns, whether [mprotect(addr, len, PROT_NONE)] returns 0, and
    whether [getcontext] and [swapcontext] return 0. *)
Record OS := {
  mmap_result : Z;
  mprotect_ok : Z -> Z -> bool;
  getcontext_ok : bool;
  swapcontext_ok : bool
}.

Record stack_t := {
  ss_sp : Z;
  ss_size : Z;
  ss_flags : Z
}.

Inductive SysCall :=
| Mmap (len : Z)
| Mprotect (start len : Z)
| Munmap (start len : Z).

(** The deleter of [MmapPtr] runs for a pointer that is not null. *)
Definition release (p : Z) : list SysCall :=
  if p =? 0 then [] else [Munmap p kMmapStackSize].

(** [allocateStack(oucp, pageSize)].  The result is the pointer owned by
    the returned [MmapPtr] (0 for [getNull()]), [oucp->uc_stack], the
    regions made inaccessible, and the system calls made; [None] for the
    division by a zero [pageSize]. *)
Definition allocateStack (os : OS) (uc_stack : stack_t) (pageSize : Z)
  : option (Z * stack_t * list (Z * Z) * list SysCall) :=
  let p := mmap_result os in
  let calls := [Mmap kMmapStackSize] in
  if p =? 0 then Some (0, uc_stack, [], calls)
  else if kMmapStackSize <=? wrap (pageSize * 2) then
    Some (0, uc_stack, [], calls ++ release p)
  else if pageSize =? 0 then None
  else
    let upperBound := wrap (((kMmapStackSize - 1) / pageSize) * pageSize) in
    let calls1 := calls ++ [Mprotect p pageSize] in
    if negb (mprotect_ok os p pageSize) then
      Some (0, uc_stack, [], calls1 ++ release p)
    else
      let top := wrap (p + upperBound) in
      let toplen := size_sub kMmapStackSize upperBound in
      let calls2 := calls1 ++ [Mprotect top toplen] in
      if negb (mprotect_ok os top toplen) then
        Some (0, uc_stack, [(p, pageSize)], calls2 ++ release p)
      else
        Some (p,
              {| ss_sp := wrap (p + pageSize);
                 ss_size := size_sub upperBound pageSize;
                 ss_flags := 0 |},
              [(p, pageSize); (top, toplen)],
              calls2).

(** What one call of the printer on the alternate stack did. *)
Record Attempt := {
  output : list (list ascii);          (* the texts printed *)
  ran_on : option stack_t;             (* the stack the printing ran on *)
  guards : list (Z * Z);               (* the regions made inaccessible *)
  syscalls : list SysCall
}.

Definition no_attempt (guards : list (Z * Z)) (calls : list SysCall) : Attempt :=
  {| output := []; ran_on := None; guards := guards; syscalls := calls |}.

(** [UnsafeSelfAllocateStackTracePrinter::printSymbolizedStackTrace].
    [symbolized] lists the texts that
    [SafeStackTracePrinter::printSymbolizedStackTrace] prints when the
    context switch runs it. *)
Definition printSymbolizedStackTrace (os : OS) (pageSizeUnchecked_ : Z)
    (symbolized : list (list ascii)) : option Attempt :=
  if pageSizeUnchecked_ <=? 0 then Some (no_attempt [] [])
  else if negb (getcontext_ok os) then Some (no_attempt [] [])
  else
    match allocateStack os {| ss_sp := 0; ss_size := 0; ss_flags := 0 |}
            (wrap pageSizeUnchecked_) with
    | None => None
    | Some (p, uc_stack, guards, calls) =>
        if p =? 0 then Some (no_attempt guards calls)
        else if negb (swapcontext_ok os) then
          Some (no_attempt guards (calls ++ release p))
        else
          Some {| output := symbolized; ran_on := Some uc_stack;
                  guards := guards; syscalls := calls ++ release p |}
    end.

(* ================================================================== *)
(** * A small process for concrete runs *)
(* ================================================================== *)

(** The executable, mapped without relocation, holds the addresses
    [0x400000 .. 0x500000); a shared library is loaded at
    [0x7f0000000000] and holds the object-relative addresses
    [0x1000 .. 0x2000).  The address [0x401000] of the executable lies in
    a function that two calls were inlined into. *)
Definition demo_exe : ElfFile := ElfHandle 0.
Definition demo_lib : ElfFile := ElfHandle 1.

Definition demo_location (f : string) (l : Z) : LocationInfo :=
  {| hasFileAndLine := true; hasMainFile := false; mainFile := "";
     location_file := f; line := l |}.

Definition demo_inline (n : string) (l : Z) : SymbolizedFrame :=
  {| found := true; addr := 0x401000; name := Some n;
     location := demo_location "inl.h" l; file := Some demo_exe |}.

Definition demo_env : Env :=
  {| r_version := 1;
     r_map := [ {| l_addr := 0; l_name := "" |};
                {| l_addr := 0x7f0000000000; l_name := "/lib/libdemo.so" |} ];
     readlink_self_exe := Some "/usr/bin/demo";
     getFile := fun path =>
       if String.eqb path "/usr/bin/demo" then Some demo_exe
       else if String.eqb path "/lib/libdemo.so" then Some demo_lib
       else None;
     getSectionContainingAddress := fun f a =>
       match f with
       | ElfHandle O => (0x400000 <=? a) && (a <? 0x500000)
       | ElfHandle _ => (0x1000 <=? a) && (a <? 0x2000)
       end;
     getDefinitionByAddress := fun f a => Some (SymEntry (Z.to_nat (a / 0x1000)));
     getSymbolName := fun f s =>
       match f with
       | ElfHandle O => Some "main"
       | ElfHandle _ => Some "lib_entry"
       end;
     findAddress := fun f a mode slots =>
       (demo_location "main.c" 42,
        if LocationInfoMode_eqb mode FULL_WITH_INLINE && (a =? 0x401000)
        then firstn slots [demo_inline "inner" 7; demo_inline "outer" 9]
        else []);
     kMaxInlineLocationInfoPerFrame := 10 |}.

(** A frame buffer of [n] default-constructed frames. *)
Definition fresh (n : nat) : list SymbolizedFrame := repeat SymbolizedFrame_clear n.

(* ================================================================== *)
(** * Notions used in the statements *)
(* ================================================================== *)

(** The loop invariant of [symbolize]: the buffer keeps its size and the
    logical address count stays within it. *)
Definition Inv (N : Z) (st : State) : Prop :=
  size (frames st) = N /\ 0 <= addrCount st <= N.

(** [numInlineFrames] of the cache-hit branch, for a cached entry. *)
Definition numInlineFrames_of (entry : list SymbolizedFrame) : Z :=
  size_sub (Z.of_nat (countFrames entry)) 1.

(** A state in which only the cache differs. *)
Definition with_cache (st : State) (c : SymbolCache) : State :=
  {| frames := frames st; addrCount := addrCount st;
     remaining := remaining st; symbolCache := Some c;
     queries := queries st |}.

(** The loop variables when the loops start on the single address [a]. *)
Definition single_state (f0 : SymbolizedFrame) (rest : list SymbolizedFrame)
    (c : option SymbolCache) (q : list Query) : State :=
  {| frames := f0 :: rest; addrCount := 1; remaining := 1;
     symbolCache := c; queries := q |}.

(** The address [a] has been resolved into the first [addrCount] frames,
    and the cache holds that group under [a]. *)
Definition Resolved (a N : Z) (st : State) : Prop :=
  exists c e,
    symbolCache st = Some c /\ lru_lookup a (lru c) = Some e /\
    (0 < maxSize c)%nat /\
    1 <= addrCount st <= N /\ size (frames st) = N /\
    numInlineFrames_of e = addrCount st - 1 /\
    addrCount st <= size e /\
    firstn (Z.to_nat (addrCount st)) e
      = firstn (Z.to_nat (addrCount st)) (frames st) /\
    Forall (fun f => found f = true)
      (firstn (Z.to_nat (addrCount st)) (frames st)).

Definition replayed (e : list SymbolizedFrame) (f0 : SymbolizedFrame)
    (rest : list SymbolizedFrame) (c : SymbolCache) (q : list Query) : State :=
  let g := numInlineFrames_of e + 1 in
  {| frames := firstn (Z.to_nat g) e ++ skipn (Z.to_nat g) (f0 :: rest);
     addrCount := g; remaining := 1; symbolCache := Some c; queries := q |}.

(** The character [kHexChars[address & 0xf]]. *)
Definition hex_char (address : Z) : ascii :=
  nth (Z.to_nat (Z.land address 15)) kHexChars NUL.

(** The [n] low hexadecimal digits of [x], most significant first. *)
Fixpoint hex_render (n : nat) (x : Z) : list ascii :=
  match n with
  | O => []
  | S n' => hex_render n' (Z.shiftr x 4) ++ [hex_char x]
  end.

(** The template the spec describes: a prefix followed by sixteen
    zero digits. *)
Definition zero_template (prefix : list ascii) : list ascii :=
  prefix ++ repeat "0"%char 16.

(** The views returned by successive calls of [format] on one
    formatter. *)
Fixpoint format_all (sizeof_uintptr_t : Z) (formatter : AddressFormatter)
    (addresses : list Z) : option (list (list ascii)) :=
  match addresses with
  | [] => Some []
  | a :: rest =>
      match format sizeof_uintptr_t formatter a with
      | None => None
      | Some (text, formatter') =>
          match format_all sizeof_uintptr_t formatter' rest with
          | None => None
          | Some texts => Some (text :: texts)
          end
      end
  end.

(** A printer whose 64 KiB buffer is empty and whose descriptor has
    received nothing yet. *)
Definition demo_printer : FDSymbolizePrinter :=
  {| buffer_ := Some {| capacity := 65536; data := [] |}; fd_ := [] |}.

Definition demo_template : list ascii := bytes "0x0000000000000000".

(** Everything printed so far, whether already written or still held in
    the buffer. *)
Definition printed (p : FDSymbolizePrinter) : list ascii :=
  written (fd_ p) ++ pending p.

(** The descriptor was synced last. *)
Definition synced (p : FDSymbolizePrinter) : Prop :=
  exists evs, fd_ p = evs ++ [Fsync].

(** [upperBound] of [allocateStack]: the start of the last page that
    begins inside the mapping. *)
Definition upperBound_of (pageSize : Z) : Z :=
  (kMmapStackSize - 1) / pageSize * pageSize.

(** The two addresses of the second-call run: one inside the shared
    library of [demo_env], one that no loaded object contains. *)
Definition demo_addrs : list Z := [0x7f0000001100; 0x10].

(** [demo_env] with a dynamic linker of an unsupported version. *)
Definition demo_env_v2 : Env :=
  {| r_version := 2;
     r_map := r_map demo_env;
     readlink_self_exe := readlink_self_exe demo_env;
     getFile := getFile demo_env;
     getSectionContainingAddress := getSectionContainingAddress demo_env;
     getDefinitionByAddress := getDefinitionByAddress demo_env;
     getSymbolName := getSymbolName demo_env;
     findAddress := findAddress demo_env;
     kMaxInlineLocationInfoPerFrame := kMaxInlineLocationInfoPerFrame demo_env |}.

(** The frame of the call site at [0x401000] in the executable. *)
Definition demo_real : SymbolizedFrame :=
  {| found := true; addr := 0x401000; name := Some "main";
     location := demo_location "main.c" 42; file := Some demo_exe |}.

(** The entry that the resolution of [0x401000] under
    [FULL_WITH_INLINE] with one scratch slot puts in the cache: one
    inline frame and the frame of the call site, in an array of
    [1 + kMaxInlineLocationInfoPerFrame] frames. *)
Definition demo_group : list SymbolizedFrame :=
  [demo_inline "inner" 7; demo_real] ++ repeat SymbolizedFrame_clear 9.

(** The symbolizer that a call of a new symbolizer (mode
    [FULL_WITH_INLINE], cache of capacity four) on [0x401000] with a
    buffer of two frames leaves behind. *)
Definition demo_warm_cache : SymbolCache :=
  {| maxSize := 4; lru := [(0x401000, demo_group)] |}.

Definition demo_warm : Symbolizer :=
  {| mode_ := FULL_WITH_INLINE; symbolCache_ := Some demo_warm_cache |}.

Definition demo_main_lmap : link_map := {| l_addr := 0; l_name := "" |}.


(** A system in which the mapping and both protections succeed. *)
Definition demo_os : OS :=
  {| mmap_result := 0x7f1000000000;
     mprotect_ok := fun start _ => start mod 4096 =? 0;
     getcontext_ok := true;
     swapcontext_ok := true |}.

(* ================================================================== *)
(** * SymbolizePrinter: rendering a frame *)
(* ================================================================== *)

(** What the printers take from Symbolizer.h and from other libraries,
    none of them part of the translated sources: the enumerators of
    [SymbolizePrinter::Options], bit masks that the code tests with [&];
    the enumerators of [SymbolizePrinter::Color] that the file names and
    the table [kColorMap] of escape sequences they index; [demangle],
    which leaves a C string in a buffer of the given size; the rendering
    [Path::toBuffer] of a path into a buffer of the given size;
    [uint64ToBufferUnsafe]; and [PATH_MAX]. *)
Record PrinterEnv := {
  NO_FILE_AND_LINE : Z;
  TERSE : Z;
  COLOR : Z;
  COLOR_IF_TTY : Z;
  NO_FRAME_ADDRESS : Z;
  TERSE_FILE_AND_LINE : Z;
  Color_DEFAULT : Z;
  Color_BLUE : Z;
  Color_PURPLE : Z;
  kColorMap : list (list ascii);
  demangle : string -> Z -> string;
  toBuffer : string -> Z -> string;
  uint64ToBufferUnsafe : Z -> string;
  PATH_MAX : Z
}.

(** [options_ & flag], as a condition. *)
Definition has_option (options_ flag : Z) : bool :=
  negb (Z.land options_ flag =? 0).

Definition kAddressColor (k : PrinterEnv) : Z := Color_BLUE k.
Definition kFunctionColor (k : PrinterEnv) : Z := Color_PURPLE k.
Definition kFileColor (k : PrinterEnv) : Z := Color_DEFAULT k.

(** A printer hands every text to its [doPrint]; the functions below
    return the texts of one call, in the order of the calls. *)

(** [SymbolizePrinter::color]. *)
Definition color (k : PrinterEnv) (options_ : Z) (isTty_ : bool) (c : Z)
  : list (list ascii) :=
  if (Z.land options_ (COLOR k) =? 0)
     && ((Z.land options_ (COLOR_IF_TTY k) =? 0) || negb isTty_)
  then []
  else if size (kColorMap k) <=? wrap c then []
  else [nth (Z.to_nat (wrap c)) (kColorMap k) []].

(** [frame.name && frame.name[0] != '\0']: the name, when there is one
    and it is not empty. *)
Definition nonempty_name (frame : SymbolizedFrame) : option string :=
  match name frame with
  | None => None
  | Some EmptyString => None
  | Some n => Some n
  end.

(** [demangledBuf[0] == '\0' ? frame.name : demangledBuf]. *)
Definition demangled_or_raw (k : PrinterEnv) (n : string) : list ascii :=
  match demangle k n 2048 with
  | EmptyString => bytes n
  | d => bytes d
  end.

(** [SymbolizePrinter::printTerse]. *)
Definition printTerse (k : PrinterEnv) (sizeof_uintptr_t : Z)
    (frame : SymbolizedFrame) : option (list (list ascii)) :=
  match (if found frame then nonempty_name frame else None) with
  | Some n => Some [demangled_or_raw k n]
  | None =>
      let buf := bytes "0x0000000000000000" ++ [NUL] in
      let end_ := size buf - 1 - (16 - 2 * sizeof_uintptr_t) in
      match store buf end_ NUL with
      | None => None
      | Some buf1 =>
          match format_loop 16 (addr frame) (end_ - 1) buf1 with
          | None => None
          | Some buf2 =>
              if in_range 0 end_ buf2
              then Some [firstn (Z.to_nat end_) buf2]
              else None
          end
      end
  end.

(** The literal [padBuf] of [print], without its terminator. *)
Definition padBuf : list ascii := bytes "                       ".

(** [SymbolizePrinter::print(const SymbolizedFrame&)].  The scope guard
    declared after the terse branch prints the default colour on every
    later exit. *)
Definition print (k : PrinterEnv) (sizeof_uintptr_t : Z) (bufTemplate : list ascii)
    (options_ : Z) (isTty_ : bool) (frame : SymbolizedFrame)
  : option (list (list ascii)) :=
  let col := color k options_ isTty_ in
  if has_option options_ (TERSE k) then printTerse k sizeof_uintptr_t frame
  else
    let scope_exit := col (Color_DEFAULT k) in
    let address_part :=
      if negb (has_option options_ (NO_FRAME_ADDRESS k))
         && negb (has_option options_ (TERSE_FILE_AND_LINE k))
      then
        match format sizeof_uintptr_t (AddressFormatter_new bufTemplate)
                (addr frame) with
        | None => None
        | Some (text, _) => Some (col (kAddressColor k) ++ [text])
        end
      else Some [] in
    match address_part with
    | None => None
    | Some out1 =>
        let pad :=
          firstn (Z.to_nat (size padBuf - (16 - 2 * sizeof_uintptr_t))) padBuf in
        let out2 := out1 ++ col (kFunctionColor k) in
        if negb (found frame) then
          Some (out2 ++ [bytes " (not found)"] ++ scope_exit)
        else
          let name_part :=
            if negb (has_option options_ (TERSE_FILE_AND_LINE k)) then
              match nonempty_name frame with
              | None => [bytes " (unknown)"]
              | Some n => [bytes " "; demangled_or_raw k n]
              end
            else [] in
          let file_part :=
            if negb (has_option options_ (NO_FILE_AND_LINE k)) then
              let loc := location frame in
              let fileBuf :=
                if hasFileAndLine loc
                then toBuffer k (location_file loc) (PATH_MAX k)
                else "" in
              col (kFileColor k)
                ++ (if hasFileAndLine loc then
                      (if negb (has_option options_ (TERSE_FILE_AND_LINE k))
                       then [[LF]; pad] else [])
                        ++ [bytes fileBuf; bytes ":";
                            bytes (uint64ToBufferUnsafe k (line loc))]
                    else if has_option options_ (TERSE_FILE_AND_LINE k)
                         then [bytes "(unknown)"] else [])
                ++ (if hasMainFile loc
                       && negb (has_option options_ (TERSE_FILE_AND_LINE k))
                    then
                      let mainFileBuf := toBuffer k (mainFile loc) (PATH_MAX k) in
                      if negb (hasFileAndLine loc)
                         || negb (String.eqb fileBuf mainFileBuf)
                      then [[LF]; pad; bytes "-> "; bytes mainFileBuf]
                      else []
                    else [])
            else [] in
          Some (out2 ++ name_part ++ file_part ++ scope_exit)
    end.

(** [SymbolizePrinter::println(const SymbolizedFrame&)]. *)
Definition println (k : PrinterEnv) (sizeof_uintptr_t : Z) (bufTemplate : list ascii)
    (options_ : Z) (isTty_ : bool) (frame : SymbolizedFrame)
  : option (list (list ascii)) :=
  match print k sizeof_uintptr_t bufTemplate options_ isTty_ frame with
  | None => None
  | Some texts => Some (texts ++ [[LF]])
  end.

(** [SymbolizePrinter::println(const SymbolizedFrame* frames, size_t
    frameCount)]: the frames [frames[0 .. frameCount)], one line each. *)
Fixpoint println_frames (k : PrinterEnv) (sizeof_uintptr_t : Z)
    (bufTemplate : list ascii) (options_ : Z) (isTty_ : bool)
    (frames : list SymbolizedFrame) (frameCount : nat) {struct frameCount}
  : option (list (list ascii)) :=
  match frameCount with
  | O => Some []
  | S frameCount' =>
      match frames with
      | [] => None
      | frame :: rest =>
          match println k sizeof_uintptr_t bufTemplate options_ isTty_ frame with
          | None => None
          | Some texts =>
              match println_frames k sizeof_uintptr_t bufTemplate options_ isTty_
                      rest frameCount' with
              | None => None
              | Some texts' => Some (texts ++ texts')
              end
          end
      end
  end.

(** [isColorfulTty(options, fd)]: [isatty] and the value of the
    environment variable [TERM] ([None] when it is not set) come from
    the process. *)
Definition isColorfulTty (k : PrinterEnv) (isatty : Z -> bool)
    (TERM : option string) (options fd : Z) : bool :=
  if negb (Z.land options (TERSE k) =? 0)
     || (Z.land options (COLOR_IF_TTY k) =? 0)
     || (fd <? 0)
     || negb (isatty fd)
  then false
  else
    match TERM with
    | None => false
    | Some term =>
        negb (match term with EmptyString => true | _ => false end
              || String.eqb term "dumb")
    end.

(* ================================================================== *)
(** * The printers behind [doPrint] *)
(* ================================================================== *)

(** The two virtual members of [SymbolizePrinter] that the stack-trace
    printers call. *)
Class Printer (P : Type) := {
  printer_doPrint : list ascii -> P -> P;
  printer_flush : P -> P
}.

#[export] Instance FDSymbolizePrinter_Printer : Printer FDSymbolizePrinter :=
  {| printer_doPrint := doPrint;
     printer_flush := FDSymbolizePrinter_flush |}.

(** [StringSymbolizePrinter]: the member [buf_] collects the text. *)
Record StringSymbolizePrinter := { str_buf_ : list ascii }.

(** [StringSymbolizePrinter::doPrint]. *)
Definition StringSymbolizePrinter_doPrint (sp : list ascii)
    (p : StringSymbolizePrinter) : StringSymbolizePrinter :=
  {| str_buf_ := str_buf_ p ++ sp |}.

(** The class does not override [flush]; the one it inherits has an
    empty body. *)
#[export] Instance StringSymbolizePrinter_Printer : Printer StringSymbolizePrinter :=
  {| printer_doPrint := StringSymbolizePrinter_doPrint;
     printer_flush := fun p => p |}.

(** A sequence of [doPrint] calls. *)
Definition emit {P} `{Printer P} (texts : list (list ascii)) (p : P) : P :=
  fold_left (fun p text => printer_doPrint text p) texts p.

(** [FDSymbolizePrinter::~FDSymbolizePrinter]. *)
Definition FDSymbolizePrinter_destroy (p : FDSymbolizePrinter) : FDSymbolizePrinter :=
  FDSymbolizePrinter_flush p.

(* ================================================================== *)
(** * Printing a symbolized trace *)
(* ================================================================== *)

(** Modelled from the spec: [FrameArray<N>] and the overloads
    [Symbolizer::symbolize(FrameArray<N>&)] and
    [SymbolizePrinter::println(const FrameArray<N>&, size_t skip)] are
    declared in headers that are not part of the translated sources.
    The spec gives a fixed-capacity sequence of frames plus a count,
    filled with addresses by the capture; the resolution of the first
    [frameCount] addresses into the frames of the array; and the bulk
    rendering that skips a number of leading frames. *)
Record FrameArray := {
  fa_frameCount : nat;
  fa_addresses : list Z;
  fa_frames : list SymbolizedFrame
}.

(** The addresses [addresses[0 .. frameCount)] of the capture. *)
Definition captured (fa : FrameArray) : option (list Z) :=
  if (fa_frameCount fa <=? length (fa_addresses fa))%nat
  then Some (firstn (fa_frameCount fa) (fa_addresses fa))
  else None.

Definition symbolize_FrameArray (env : Env) (s : Symbolizer) (fa : FrameArray)
  : option (FrameArray * Symbolizer * list Query) :=
  match captured fa with
  | None => None
  | Some addrs =>
      match symbolize env s addrs (fa_frames fa) with
      | None => None
      | Some (fs, s', q) =>
          Some ({| fa_frameCount := fa_frameCount fa;
                   fa_addresses := fa_addresses fa;
                   fa_frames := fs |}, s', q)
      end
  end.

Definition println_FrameArray (k : PrinterEnv) (sizeof_uintptr_t : Z)
    (bufTemplate : list ascii) (options_ : Z) (isTty_ : bool)
    (fa : FrameArray) (skip : nat) : option (list (list ascii)) :=
  if (skip <? fa_frameCount fa)%nat then
    println_frames k sizeof_uintptr_t bufTemplate options_ isTty_
      (skipn skip (fa_frames fa)) (fa_frameCount fa - skip)
  else Some [].

(** [SafeStackTracePrinter::printSymbolizedStackTrace]: a symbolizer in
    mode [FULL] without a symbol cache resolves the member [addresses_],
    and [printer_] prints the frames after the first two.  The result
    is the texts printed and the array. *)
Definition SafeStackTracePrinter_printSymbolizedStackTrace (k : PrinterEnv)
    (env : Env) (sizeof_uintptr_t : Z) (bufTemplate : list ascii)
    (options_ : Z) (isTty_ : bool) (addresses_ : FrameArray)
  : option (list (list ascii) * FrameArray) :=
  match symbolize_FrameArray env (Symbolizer_new FULL 0) addresses_ with
  | None => None
  | Some (fa, _, _) =>
      match println_FrameArray k sizeof_uintptr_t bufTemplate options_ isTty_
              fa 2 with
      | None => None
      | Some texts => Some (texts, fa)
      end
  end.

(** The address-only loop of [FastStackTracePrinter::printStackTrace],
    on any printer. *)
Fixpoint print_addresses_on {P} `{Printer P} (sizeof_uintptr_t : Z)
    (formatter : AddressFormatter) (addresses : list Z) (p : P) : option P :=
  match addresses with
  | [] => Some p
  | a :: rest =>
      match format sizeof_uintptr_t formatter a with
      | None => None
      | Some (text, formatter') =>
          print_addresses_on sizeof_uintptr_t formatter' rest
            (printer_doPrint [LF] (printer_doPrint text p))
      end
  end.

(** [FastStackTracePrinter::printStackTrace(symbolize)].  [capture] is
    the local array after [getStackTraceSafe], [None] when that returned
    false; [options_] and [isTty_] are the members of [*printer_].  The
    flush of the scope guard runs on every path. *)
Definition FastStackTracePrinter_printStackTrace {P} `{Printer P}
    (k : PrinterEnv) (env : Env) (sizeof_uintptr_t : Z) (bufTemplate : list ascii)
    (options_ : Z) (isTty_ : bool) (capture : option FrameArray)
    (symbolize : bool) (symbolizer_ : Symbolizer) (printer_ : P)
  : option (P * Symbolizer) :=
  let body :=
    match capture with
    | None =>
        Some (printer_doPrint (bytes "(error retrieving stack trace)" ++ [LF])
                printer_,
              symbolizer_)
    | Some addresses =>
        if symbolize then
          match symbolize_FrameArray env symbolizer_ addresses with
          | None => None
          | Some (fa, symbolizer', _) =>
              match println_FrameArray k sizeof_uintptr_t bufTemplate
                      options_ isTty_ fa 2 with
              | None => None
              | Some texts => Some (emit texts printer_, symbolizer')
              end
          end
        else
          match captured addresses with
          | None => None
          | Some addrs =>
              match print_addresses_on sizeof_uintptr_t
                      (AddressFormatter_new bufTemplate) addrs
                      (printer_doPrint
                         (bytes "(safe mode, symbolizer not available)" ++ [LF])
                         printer_) with
              | None => None
              | Some p => Some (p, symbolizer_)
              end
          end
    end in
  match body with
  | None => None
  | Some (p, s) => Some (printer_flush p, s)
  end.

(** [FastStackTracePrinter::flush]. *)
Definition FastStackTracePrinter_flush {P} `{Printer P} (printer_ : P) : P :=
  printer_flush printer_.

(* ================================================================== *)
(** * Further notions used in the statements *)
(* ================================================================== *)

(** The first object of the chain whose file can be opened and that has
    a section containing the address, taken relative to the object's
    load address. *)
Fixpoint first_object (env : Env) (selfPath : string) (lmaps : list link_map)
    (a : Z) : option (link_map * ElfFile) :=
  match lmaps with
  | [] => None
  | lmap :: rest =>
      match getFile env (objPath selfPath lmap) with
      | Some elf =>
          if getSectionContainingAddress env elf (wrap (a - l_addr lmap))
          then Some (lmap, elf)
          else first_object env selfPath rest a
      | None => first_object env selfPath rest a
      end
  end.

(** What a call that goes through the objects leaves in the frame of
    the address [a], when no inline frames are asked for: a frame that
    was found keeps its contents under the raw address; otherwise the
    frame is filled in from the first object that contains the address,
    or is the empty frame with the raw address. *)
Definition resolved_frame (env : Env) (mode : LocationInfoMode)
    (selfPath : string) (a : Z) (f : SymbolizedFrame) : SymbolizedFrame :=
  if found f then set_addr f a
  else
    match first_object env selfPath (r_map env) a with
    | Some (lmap, elf) =>
        fst (fst (setSymbolizedFrame env elf (wrap (a - l_addr lmap)) mode O))
    | None => set_addr SymbolizedFrame_clear a
    end.

(** One visit of the inner loop to a frame, for the object [lmap] opened
    as [elf], when no inline frames are asked for and there is no symbol
    cache. *)
Definition visit_flat (env : Env) (mode : LocationInfoMode) (lmap : link_map)
    (elf : ElfFile) (f : SymbolizedFrame) : SymbolizedFrame :=
  if found f then f
  else if getSectionContainingAddress env elf (wrap (addr f - l_addr lmap))
       then fst (fst (setSymbolizedFrame env elf (wrap (addr f - l_addr lmap))
                        mode O))
       else f.

(** The same for one record of the chain, whose file may fail to open. *)
Definition visit_object (env : Env) (mode : LocationInfoMode) (selfPath : string)
    (f : SymbolizedFrame) (lmap : link_map) : SymbolizedFrame :=
  match getFile env (objPath selfPath lmap) with
  | Some elf => visit_flat env mode lmap elf f
  | None => f
  end.

(** The frame that [setSymbolizedFrame] makes of the address [a] in the
    object [lmap], for the symbol and the location found there. *)
Definition real_frame (env : Env) (elf : ElfFile) (lmap : link_map)
    (sym : ElfSym) (loc : LocationInfo) (a : Z) : SymbolizedFrame :=
  {| found := true; addr := wrap (a - l_addr lmap);
     name := getSymbolName env elf sym; location := loc; file := Some elf |}.

(** What the object [lmap], opened as [elf], knows of the address [a]:
    a section contains it, [sym] is its symbol, and the debug
    information, asked with room for the whole chain, gives the location
    [loc] and the chain [chain] of calls inlined there, innermost first,
    of no more than [kMaxInlineLocationInfoPerFrame] frames. *)
Definition resolves_to (env : Env) (elf : ElfFile) (lmap : link_map)
    (sym : Z -> ElfSym) (loc : Z -> LocationInfo)
    (chain : Z -> list SymbolizedFrame) (a : Z) : Prop :=
  getSectionContainingAddress env elf (wrap (a - l_addr lmap)) = true /\
  getDefinitionByAddress env elf (wrap (a - l_addr lmap)) = Some (sym a) /\
  (forall slots,
      (length (chain a) <= slots)%nat ->
      findAddress env elf (wrap (a - l_addr lmap)) FULL_WITH_INLINE slots
      = (loc a, chain a)) /\
  Forall (fun f => found f = true) (chain a) /\
  (length (chain a) <= kMaxInlineLocationInfoPerFrame env)%nat.

(** The frames that stand for one address after the expansion: the
    inlined calls, then the call site itself. *)
Definition frame_group (env : Env) (elf : ElfFile) (lmap : link_map)
    (sym : Z -> ElfSym) (loc : Z -> LocationInfo)
    (chain : Z -> list SymbolizedFrame) (a : Z) : list SymbolizedFrame :=
  chain a ++ [real_frame env elf lmap (sym a) (loc a) a].

(** What going through the whole chain makes of a frame. *)
Definition settled (env : Env) (mode : LocationInfoMode) (selfPath : string)
    (f : SymbolizedFrame) : SymbolizedFrame :=
  fold_left (visit_object env mode selfPath) (r_map env) f.

(** A frame [f'] of the buffer, after the objects [seen] have been gone
    through, against the frame [f] the loops started from: it is
    settled, or it is still [f], not found, and none of the objects seen
    contains its address. *)
Definition in_progress (env : Env) (mode : LocationInfoMode) (selfPath : string)
    (seen : list link_map) (f f' : SymbolizedFrame) : Prop :=
  f' = settled env mode selfPath f \/
  (f' = f /\ found f = false /\ first_object env selfPath seen (addr f) = None).

(** An entry of the symbol cache that holds, for its address, the one
    frame that resolving the address without inline frames gives. *)
Definition good_entry (env : Env) (mode : LocationInfoMode) (selfPath : string)
    (entry : Z * list SymbolizedFrame) : Prop :=
  exists lmap elf,
    first_object env selfPath (r_map env) (fst entry) = Some (lmap, elf) /\
    countFrames (snd entry) = 1%nat /\
    hd_error (snd entry)
    = Some (fst (fst (setSymbolizedFrame env elf
                        (wrap (fst entry - l_addr lmap)) mode O))).

Definition cache_ok (env : Env) (mode : LocationInfoMode) (selfPath : string)
    (c : SymbolCache) : Prop :=
  Forall (good_entry env mode selfPath) (lru c).

(** The frames of the array that are not found. *)
Definition unfound_count (fs : list SymbolizedFrame) : nat :=
  length (filter (fun f => negb (found f)) fs).

(** No address of the list has fewer significant hexadecimal digits
    than the address before it ([d] digits before the first). *)
Fixpoint digits_never_drop (d : nat) (addresses : list Z) : bool :=
  match addresses with
  | [] => true
  | a :: rest =>
      (d <=? hex_digits 16 a)%nat && digits_never_drop (hex_digits 16 a) rest
  end.

(** The one text of a terse rendering: the name of a found frame that
    has one, demangled when the demangler gives something, and
    otherwise the address in [2 * sizeof(uintptr_t)] digits. *)
Definition terse_text (k : PrinterEnv) (sizeof_uintptr_t : Z)
    (frame : SymbolizedFrame) : list ascii :=
  match (if found frame then nonempty_name frame else None) with
  | Some n => demangled_or_raw k n
  | None => bytes "0x" ++ hex_render (Z.to_nat (2 * sizeof_uintptr_t)) (addr frame)
  end.

(** The condition under which [color] returns at once. *)
Definition colours_off (k : PrinterEnv) (options_ : Z) (isTty_ : bool) : bool :=
  (Z.land options_ (COLOR k) =? 0)
  && ((Z.land options_ (COLOR_IF_TTY k) =? 0) || negb isTty_).

(** Whether [print] shows the address of the frame. *)
Definition shows_address (k : PrinterEnv) (options_ : Z) : bool :=
  negb (has_option options_ (NO_FRAME_ADDRESS k))
  && negb (has_option options_ (TERSE_FILE_AND_LINE k)).

Definition set_location (f : SymbolizedFrame) (loc : LocationInfo)
  : SymbolizedFrame :=
  {| found := found f; addr := addr f; name := name f;
     location := loc; file := file f |}.

Definition set_name (f : SymbolizedFrame) (n : option string) : SymbolizedFrame :=
  {| found := found f; addr := addr f; name := n;
     location := location f; file := file f |}.

(** The buffer of the printer holds no more than its capacity. *)
Definition buffer_within_capacity (p : FDSymbolizePrinter) : Prop :=
  match buffer_ p with
  | Some b => size (data b) <= capacity b
  | None => True
  end.

(** [demo_env] with object files that define no symbol. *)
Definition demo_env_stripped : Env :=
  {| r_version := r_version demo_env;
     r_map := r_map demo_env;
     readlink_self_exe := readlink_self_exe demo_env;
     getFile := getFile demo_env;
     getSectionContainingAddress := getSectionContainingAddress demo_env;
     getDefinitionByAddress := fun _ _ => None;
     getSymbolName := getSymbolName demo_env;
     findAddress := findAddress demo_env;
     kMaxInlineLocationInfoPerFrame := kMaxInlineLocationInfoPerFrame demo_env |}.

(** What the executable of [demo_env] knows of its addresses. *)
Definition demo_sym (a : Z) : ElfSym := SymEntry (Z.to_nat (a / 0x1000)).

Definition demo_loc (a : Z) : LocationInfo := demo_location "main.c" 42.

Definition demo_chain (a : Z) : list SymbolizedFrame :=
  if a =? 0x401000 then [demo_inline "inner" 7; demo_inline "outer" 9] else [].

(** Two addresses of the executable, the first with inlined calls. *)
Definition demo_inline_addrs : list Z := [0x401000; 0x401010].

(** A capture of three addresses in an array of four frames. *)
Definition demo_capture : FrameArray :=
  {| fa_frameCount := 3;
     fa_addresses := [0x10; 0x7f0000001100; 0x401000; 0];
     fa_frames := fresh 4 |}.

(** The decimal digits of a number of at most [fuel] digits, in front
    of [acc]. *)
Fixpoint demo_decimal (fuel : nat) (n : Z) (acc : string) : string :=
  match fuel with
  | O => acc
  | S fuel' =>
      let acc' := String (ascii_of_nat (48 + Z.to_nat (n mod 10))) acc in
      if n / 10 =? 0 then acc' else demo_decimal fuel' (n / 10) acc'
  end.

(** Values for the enumerators, a colour table of ANSI escape
    sequences, a demangler that knows one name, and paths and numbers
    rendered as they are, for concrete runs. *)
Definition demo_printer_env : PrinterEnv :=
  {| NO_FILE_AND_LINE := 1;
     TERSE := 2;
     COLOR := 4;
     COLOR_IF_TTY := 8;
     NO_FRAME_ADDRESS := 16;
     TERSE_FILE_AND_LINE := 32;
     Color_DEFAULT := 0;
     Color_BLUE := 4;
     Color_PURPLE := 7;
     kColorMap :=
       map (fun s => "027"%char :: bytes s)
         ["[0m"; "[31m"; "[32m"; "[33m"; "[34m"; "[36m"; "[37m"; "[35m"];
     demangle := fun n _ => if String.eqb n "_Z3foov" then "foo()" else "";
     toBuffer := fun path _ => path;
     uint64ToBufferUnsafe := fun n => demo_decimal 20 n "";
     PATH_MAX := 4096 |}.

(** The frame is found, or the cache has an entry for its address. *)
Definition found_or_cached (c : SymbolCache) (f : SymbolizedFrame) : Prop :=
  found f = true \/ lru_lookup (addr f) (lru c) <> None.

(** A state of the loops in which the cache has an entry for the
    address of every frame of [frames[0 .. addrCount)] that is not
    found. *)
Definition all_cached (st : State) : Prop :=
  exists c,
    symbolCache st = Some c /\
    Forall (found_or_cached c) (firstn (Z.to_nat (addrCount st)) (frames st)).

(* ================================================================== *)
(** * Proofs *)
(* ================================================================== *)

(* ================================================================== *)
(** * Arithmetic and list facts *)
(* ================================================================== *)

Lemma wrap_small z : 0 <= z < 2 ^ 64 -> wrap z = z.
Proof. intros H. unfold wrap. apply Z.mod_small. exact H. Qed.

Lemma wrap_range z : 0 <= wrap z < 2 ^ 64.
Proof. unfold wrap. apply Z.mod_pos_bound. reflexivity. Qed.

Lemma wrap_le z : 0 <= z -> wrap z <= z.
Proof. intros H. unfold wrap. apply Z.mod_le; lia. Qed.

Lemma size_sub_small a b : 0 <= b <= a -> a < 2 ^ 64 -> size_sub a b = a - b.
Proof. intros. unfold size_sub. apply wrap_small. lia. Qed.

Lemma size_add_small a b : 0 <= a -> 0 <= b -> a + b < 2 ^ 64 -> size_add a b = a + b.
Proof. intros. unfold size_add. apply wrap_small. lia. Qed.

Lemma in_range_true {A} lo hi (l : list A) :
  in_range lo hi l = true <-> 0 <= lo /\ lo <= hi /\ hi <= size l.
Proof.
  unfold in_range. rewrite !andb_true_iff, !Z.leb_le. tauto.
Qed.

Lemma in_range_intro {A} lo hi (l : list A) :
  0 <= lo -> lo <= hi -> hi <= size l -> in_range lo hi l = true.
Proof. intros. apply in_range_true. auto. Qed.

Lemma length_write_at {A} pos (new l : list A) :
  (pos + length new <= length l)%nat ->
  length (write_at pos new l) = length l.
Proof.
  intros H. unfold write_at.
  rewrite !length_app, length_firstn, length_skipn. lia.
Qed.

Lemma length_sublist {A} lo hi (l : list A) :
  (lo <= hi)%nat -> (hi <= length l)%nat -> length (sublist lo hi l) = (hi - lo)%nat.
Proof.
  intros. unfold sublist. rewrite length_firstn, length_skipn. lia.
Qed.

Lemma countFrames_le l : (countFrames l <= length l)%nat.
Proof.
  induction l as [|f l IH]; simpl; [lia|]. destruct (found f); simpl; lia.
Qed.

Lemma size_write_at {A} pos (new l : list A) :
  0 <= pos -> pos + size new <= size l ->
  size (write_at (Z.to_nat pos) new l) = size l.
Proof.
  unfold size. intros H0 H1. rewrite length_write_at; [reflexivity | lia].
Qed.

Lemma rotate_some first middle last fs :
  0 <= first -> first <= middle -> middle <= last -> last <= size fs ->
  exists fs', rotate first middle last fs = Some fs' /\ size fs' = size fs.
Proof.
  intros H0 H1 H2 H3. unfold rotate.
  rewrite !in_range_intro by lia. simpl.
  eexists; split; [reflexivity|].
  unfold size in *. rewrite !length_app, length_firstn, length_skipn.
  rewrite !length_sublist by lia. lia.
Qed.

Lemma move_backward_some first last d_last fs :
  0 <= first -> first <= last -> last <= d_last -> d_last <= size fs ->
  exists fs', move_backward first last d_last fs = Some fs' /\ size fs' = size fs.
Proof.
  intros H0 H1 H2 H3. unfold move_backward.
  rewrite !in_range_intro by lia. simpl.
  eexists; split; [reflexivity|].
  assert (Hseg : length (sublist (Z.to_nat first) (Z.to_nat last) fs)
                 = Z.to_nat (last - first)).
  { rewrite length_sublist; unfold size in *; lia. }
  rewrite size_write_at; try lia.
  - rewrite size_write_at; try lia.
    unfold size. rewrite length_map, Hseg. unfold size in *. lia.
  - rewrite size_write_at; try lia.
    + unfold size. rewrite Hseg. unfold size in *. lia.
    + unfold size. rewrite length_map, Hseg. unfold size in *. lia.
Qed.

Lemma copy_frames_some src n pos fs :
  0 <= n -> n <= size src -> 0 <= pos -> pos + n <= size fs ->
  exists fs', copy_frames src n pos fs = Some fs' /\ size fs' = size fs.
Proof.
  intros H0 H1 H2 H3. unfold copy_frames.
  rewrite !in_range_intro by lia. simpl.
  eexists; split; [reflexivity|].
  rewrite size_write_at; try lia.
  unfold size in *. rewrite length_firstn. lia.
Qed.

Lemma setSymbolizedFrame_slots env elf address mode slots :
  (length (snd (fst (setSymbolizedFrame env elf address mode slots))) <= slots)%nat.
Proof.
  unfold setSymbolizedFrame.
  destruct (getDefinitionByAddress env elf address); simpl; [|lia].
  destruct (findAddress env elf address mode slots); simpl.
  rewrite length_firstn. lia.
Qed.

Lemma replay_cached_inv N i entry st :
  N < 2 ^ 64 -> Inv N st -> 0 <= i < addrCount st ->
  exists i' st',
    replay_cached N i entry st = Some (i', st') /\ Inv N st' /\
    i <= i' /\ addrCount st' - i' = addrCount st - i /\
    remaining st' = remaining st.
Proof.
  intros HN [Hsz Hac] Hi. unfold replay_cached.
  set (n := size_sub (Z.of_nat (countFrames entry)) 1).
  rewrite (size_sub_small N (addrCount st)) by lia.
  destruct (n <=? N - addrCount st) eqn:Hfit.
  - apply Z.leb_le in Hfit.
    assert (Hn0 : 0 <= n) by (apply wrap_range).
    assert (Hcnt : n + 1 <= size entry).
    { pose proof (countFrames_le entry) as Hle. unfold size.
      destruct (countFrames entry) as [|k] eqn:Hk.
      - exfalso. subst n. unfold size_sub, wrap in Hfit.
        change ((Z.of_nat 0 - 1) mod 2 ^ 64) with (2 ^ 64 - 1) in Hfit. lia.
      - subst n. unfold size_sub.
        pose proof (wrap_le (Z.of_nat (S k) - 1)). lia. }
    destruct (move_backward_some (i + 1) (addrCount st) (addrCount st + n) (frames st))
      as (fs1 & -> & Hsz1); try lia.
    destruct (copy_frames_some entry (n + 1) i fs1) as (fs2 & -> & Hsz2); try lia.
    eexists _, _. split; [reflexivity|]. simpl.
    rewrite !size_add_small by lia.
    unfold Inv; simpl. repeat split; lia.
  - eexists _, _. split; [reflexivity|]. unfold Inv. repeat split; lia.
Qed.

Lemma cacheFrames_of_some env i count fs :
  0 <= i -> 0 <= count -> i + count <= size fs ->
  exists cf, cacheFrames_of env i count fs = Some cf.
Proof.
  intros. unfold cacheFrames_of. rewrite in_range_intro by lia. eauto.
Qed.

Lemma resolve_inv env mode N lmap elf i a st :
  N < 2 ^ 64 -> Inv N st -> 0 <= i < addrCount st ->
  exists i' st',
    resolve env mode N lmap elf i a st = Some (i', st') /\ Inv N st' /\
    i <= i' /\ addrCount st' - i' = addrCount st - i.
Proof.
  intros HN [Hsz Hac] Hi. unfold resolve.
  destruct (getSectionContainingAddress env elf (wrap (a - l_addr lmap))).
  2:{ eexists _, _. split; [reflexivity|]. unfold Inv; simpl. repeat split; lia. }
  set (kMax := Z.of_nat (kMaxInlineLocationInfoPerFrame env)).
  assert (HkMax : 0 <= kMax) by (subst kMax; lia).
  destruct (LocationInfoMode_eqb mode FULL_WITH_INLINE && (addrCount st <? N)) eqn:Hinl.
  - apply andb_true_iff in Hinl. destruct Hinl as [_ Hlt]. apply Z.ltb_lt in Hlt.
    rewrite (size_sub_small N (addrCount st)) by lia.
    set (maxInline := Z.min kMax (N - addrCount st)).
    assert (HmaxI : 0 <= maxInline <= N - addrCount st) by (subst maxInline; lia).
    assert (HmaxK : maxInline <= kMax) by (subst maxInline; lia).
    rewrite in_range_intro by lia.
    pose proof (setSymbolizedFrame_slots env elf (wrap (a - l_addr lmap)) mode
                  (Z.to_nat maxInline)) as Hslots.
    destruct (setSymbolizedFrame env elf (wrap (a - l_addr lmap)) mode
                (Z.to_nat maxInline)) as [[frame inlined] qs].
    simpl in Hslots.
    set (fs1 := write_at (Z.to_nat i) [frame] (frames st)).
    assert (Hfs1 : size fs1 = N).
    { subst fs1. rewrite size_write_at; unfold size in *; simpl; lia. }
    set (fs2 := write_at (Z.to_nat (addrCount st)) inlined fs1).
    assert (Hfs2 : size fs2 = N).
    { subst fs2. rewrite size_write_at; unfold size in *; lia. }
    set (numInlined := Z.of_nat (countFrames _)).
    assert (HnumI : 0 <= numInlined <= maxInline).
    { subst numInlined. split; [lia|].
      match goal with |- Z.of_nat (countFrames ?l) <= _ =>
        pose proof (countFrames_le l) as Hle;
        assert (Hlen : length l = Z.to_nat maxInline)
      end.
      { rewrite length_sublist; unfold size in *; lia. }
      lia. }
    destruct (rotate_some i (addrCount st) (addrCount st + numInlined) fs2)
      as (fs3 & -> & Hfs3); try lia.
    rewrite !size_add_small by lia.
    destruct (symbolCache st) as [c|].
    + destruct (cacheFrames_of_some env i
                  (Z.min (numInlined + 1)
                     (Z.of_nat (S (kMaxInlineLocationInfoPerFrame env)))) fs3)
        as (cf & ->); try lia.
      eexists _, _. split; [reflexivity|]. unfold Inv; simpl. repeat split; lia.
    + eexists _, _. split; [reflexivity|]. unfold Inv; simpl. repeat split; lia.
  - destruct (setSymbolizedFrame env elf (wrap (a - l_addr lmap)) mode 0)
      as [[frame inlined] qs].
    set (fs1 := write_at (Z.to_nat i) [frame] (frames st)).
    assert (Hfs1 : size fs1 = N).
    { subst fs1. rewrite size_write_at; unfold size in *; simpl; lia. }
    rewrite !size_add_small by lia.
    destruct (symbolCache st) as [c|].
    + destruct (cacheFrames_of_some env i
                  (Z.min (0 + 1)
                     (Z.of_nat (S (kMaxInlineLocationInfoPerFrame env)))) fs1)
        as (cf & ->); try lia.
      eexists _, _. split; [reflexivity|]. unfold Inv; simpl. repeat split; lia.
    + eexists _, _. split; [reflexivity|]. unfold Inv; simpl. repeat split; lia.
Qed.

Lemma visit_inv env mode N lmap elf i st :
  N < 2 ^ 64 -> Inv N st -> 0 <= i < addrCount st ->
  exists i' st',
    visit env mode N lmap elf i st = Some (i', st') /\ Inv N st' /\
    i <= i' /\ addrCount st' - i' = addrCount st - i.
Proof.
  intros HN HInv Hi. unfold visit.
  destruct (nth_error (frames st) (Z.to_nat i)) as [frame|] eqn:Hnth.
  2:{ apply nth_error_None in Hnth. destruct HInv as [Hsz Hac].
      unfold size in Hsz. lia. }
  destruct (found frame).
  { eexists _, _. split; [reflexivity|]. repeat split; try lia; apply HInv. }
  destruct (symbolCache st) as [c|].
  - destruct (cache_find (addr frame) c) as [[entry c']|].
    + edestruct (replay_cached_inv N i entry) as (i' & st' & -> & H1 & H2 & H3 & _);
        [exact HN| |exact Hi|].
      * exact HInv.
      * simpl in H3. eexists _, _. split; [reflexivity|]. auto.
    + apply resolve_inv; assumption.
  - apply resolve_inv; assumption.
Qed.

Lemma inner_loop_inv env mode N lmap elf fuel : forall i st,
  N < 2 ^ 64 -> Inv N st -> 0 <= i -> addrCount st - i <= Z.of_nat fuel ->
  exists st', inner_loop fuel env mode N lmap elf i st = Some st' /\ Inv N st' /\
              addrCount st <= addrCount st'.
Proof.
  induction fuel as [|fuel IH]; intros i st HN HInv Hi Hfuel.
  - simpl. destruct (i <? addrCount st) eqn:Hlt.
    + apply Z.ltb_lt in Hlt. lia.
    + simpl. exists st. repeat split; try apply HInv; lia.
  - simpl. destruct ((i <? addrCount st) && negb (remaining st =? 0)) eqn:Hcond.
    2:{ exists st. repeat split; try apply HInv; lia. }
    apply andb_true_iff in Hcond. destruct Hcond as [Hlt _]. apply Z.ltb_lt in Hlt.
    destruct (visit_inv env mode N lmap elf i st HN HInv) as (i' & st' & -> & HInv' & Hle & Hm);
      [lia|].
    assert (Hi' : i' < addrCount st') by lia.
    destruct HInv' as [Hsz' Hac'].
    rewrite size_add_small by lia.
    destruct (IH (i' + 1) st') as (st'' & Hrun & HInv'' & Hmono); try lia.
    { split; assumption. }
    exists st''. repeat split; try apply HInv''; try assumption. lia.
Qed.

Lemma outer_loop_inv env mode N selfPath lmaps : forall st,
  N < 2 ^ 64 -> Inv N st ->
  exists st', outer_loop env mode N selfPath lmaps st = Some st' /\ Inv N st' /\
              addrCount st <= addrCount st'.
Proof.
  induction lmaps as [|lmap rest IH]; intros st HN HInv; simpl.
  - exists st. repeat split; try apply HInv; lia.
  - destruct (remaining st =? 0); [exists st; repeat split; try apply HInv; lia|].
    match goal with |- context [getFile env ?p] => destruct (getFile env p) as [elf|] end.
    + destruct (inner_loop_inv env mode N lmap elf (Z.to_nat (addrCount st)) 0 st)
        as (st' & -> & HInv' & Hmono);
        [assumption | assumption | lia | destruct HInv as [_ ?]; lia | ].
      destruct (IH st' HN HInv') as (st'' & Hrun & HInv'' & Hmono').
      exists st''. repeat split; try apply HInv''; try assumption. lia.
    + apply IH; assumption.
Qed.

Lemma clear_unfound_spec n : forall fs,
  (n <= length fs)%nat ->
  exists r fs',
    clear_unfound n fs = Some (r, fs') /\ length fs' = length fs /\
    map found fs' = map found fs /\ 0 <= r <= Z.of_nat n /\
    (r = 0 -> fs' = fs).
Proof.
  induction n as [|n IH]; intros fs Hn.
  - exists 0, fs. simpl. repeat split; lia.
  - destruct fs as [|frame rest]; [simpl in Hn; lia|].
    simpl in Hn. destruct (IH rest) as (r & rest' & Hc & Hlen & Hmap & Hr & Hid); [lia|].
    simpl. rewrite Hc. destruct (found frame) eqn:Hf.
    + exists r, (frame :: rest'). simpl. rewrite Hlen, Hmap.
      split; [reflexivity|]. split; [reflexivity|]. split; [congruence|].
      split; [lia|]. intros H0. rewrite Hid by exact H0. reflexivity.
    + exists (r + 1), (SymbolizedFrame_clear :: rest'). simpl. rewrite Hlen, Hmap.
      split; [reflexivity|]. split; [reflexivity|]. split; [congruence|].
      split; [lia|]. intros H0. lia.
Qed.

Lemma assign_addrs_spec addrs : forall fs,
  (length addrs <= length fs)%nat ->
  exists fs',
    assign_addrs addrs fs = Some fs' /\ length fs' = length fs /\
    map found fs' = map found fs.
Proof.
  induction addrs as [|a addrs IH]; intros fs Hn.
  - exists fs. simpl. auto.
  - destruct fs as [|frame rest]; [simpl in Hn; lia|].
    simpl in Hn. destruct (IH rest) as (rest' & Hc & Hlen & Hmap); [lia|].
    simpl. rewrite Hc. exists (set_addr frame a :: rest'). simpl.
    rewrite Hlen, Hmap. auto.
Qed.

Lemma Symbolizer_eta s : {| mode_ := mode_ s; symbolCache_ := symbolCache_ s |} = s.
Proof. destruct s; reflexivity. Qed.

(** C5.  When the dynamic linker reports a version other than 1, or the
    link to the running executable cannot be read, [symbolize] returns
    normally, asks the debug-info service nothing, leaves the symbolizer
    (and its cache) as it was, and every frame keeps its [found] flag: a
    frame that entered unresolved is still unresolved. *)
Theorem C5_unsupported_linker_is_noop env s addrs fs :
  (length addrs <= length fs)%nat ->
  r_version env <> 1 \/ readlink_self_exe env = None ->
  exists fs',
    symbolize env s addrs fs = Some (fs', s, []) /\
    map found fs' = map found fs /\
    length fs' = length fs.
Proof.
  intros Hlen Hbad. unfold symbolize, symbolize_state.
  destruct (clear_unfound_spec (length addrs) fs Hlen)
    as (r & fs1 & -> & Hl1 & Hm1 & _ & _).
  exists fs1.
  destruct (r =? 0).
  { simpl. rewrite Symbolizer_eta. auto. }
  destruct Hbad as [Hv | Hr].
  - apply Z.eqb_neq in Hv. rewrite Hv. simpl. rewrite Symbolizer_eta. auto.
  - rewrite Hr. destruct (negb (r_version env =? 1)); simpl;
      rewrite Symbolizer_eta; auto.
Qed.

(** C9.  With at least as many frames as addresses, [symbolize] runs to
    its end without an access outside the frame buffer: no index, shift,
    copy, rotation or scratch range of the embedding leaves
    [frames[0 .. frames.size())] (each would answer [None]), the buffer
    keeps its size, and the logical address count never exceeds it. *)
Theorem C9_symbolize_stays_in_bounds env s addrs fs :
  (length addrs <= length fs)%nat ->
  size fs < 2 ^ 64 ->
  exists st,
    symbolize_state env s addrs fs = Some st /\
    length (frames st) = length fs /\
    size addrs <= addrCount st <= size fs.
Proof.
  intros Hlen HN. unfold symbolize_state.
  destruct (clear_unfound_spec (length addrs) fs Hlen)
    as (r & fs1 & -> & Hl1 & _ & _ & _).
  assert (Hearly : forall c q,
    exists st,
      Some {| frames := fs1; addrCount := size addrs; remaining := r;
              symbolCache := c; queries := q |} = Some st /\
      length (frames st) = length fs /\ size addrs <= addrCount st <= size fs).
  { intros c q. eexists. split; [reflexivity|]. simpl. unfold size. lia. }
  destruct (r =? 0); [apply Hearly|].
  destruct (negb (r_version env =? 1)); [apply Hearly|].
  destruct (readlink_self_exe env) as [selfPath|]; [|apply Hearly].
  destruct (assign_addrs_spec addrs fs1) as (fs2 & -> & Hl2 & _); [lia|].
  edestruct (outer_loop_inv env (mode_ s) (size fs) selfPath (r_map env))
    as (st & -> & [Hsz Hac] & Hmono); [exact HN| |].
  - unfold Inv, size; simpl. lia.
  - exists st. split; [reflexivity|]. simpl in Hmono. unfold size in *. lia.
Qed.

(** ** Element-wise reading of the array views *)

Lemma nth_error_write_at {A} pos (new l : list A) n :
  (pos <= length l)%nat ->
  nth_error (write_at pos new l) n =
    if (n <? pos)%nat then nth_error l n
    else if (n <? pos + length new)%nat then nth_error new (n - pos)
    else nth_error l n.
Proof.
  intros Hpos. unfold write_at.
  rewrite nth_error_app, length_firstn, Nat.min_l by exact Hpos.
  rewrite nth_error_firstn.
  destruct (Nat.ltb_spec n pos) as [Hlt|Hge]; [reflexivity|].
  rewrite nth_error_app.
  destruct (Nat.ltb_spec (n - pos) (length new)) as [Hlt2|Hge2];
    destruct (Nat.ltb_spec n (pos + length new)) as [Hlt3|Hge3]; try lia;
    [reflexivity|].
  rewrite nth_error_skipn. f_equal. lia.
Qed.

Lemma nth_error_sublist {A} lo hi (l : list A) n :
  nth_error (sublist lo hi l) n =
    if (n <? hi - lo)%nat then nth_error l (lo + n) else None.
Proof.
  unfold sublist. rewrite nth_error_firstn, nth_error_skipn. reflexivity.
Qed.

Lemma nth_error_single {A} (x : A) n :
  nth_error [x] n = if (n <? 1)%nat then Some x else None.
Proof.
  destruct n as [|n]; simpl; [reflexivity|]. destruct n; reflexivity.
Qed.

Lemma nth_error_beyond {A} (l : list A) n :
  (length l <= n)%nat -> nth_error l n = None.
Proof. apply nth_error_None. Qed.

(** Equality of two arrays, element by element. *)
Ltac list_len :=
  rewrite ?length_app, ?length_firstn, ?length_skipn, ?length_map,
    ?repeat_length; cbn [length].

Ltac list_step :=
  first
    [ rewrite nth_error_app
    | rewrite nth_error_write_at by (list_len; lia)
    | rewrite nth_error_sublist
    | rewrite nth_error_firstn
    | rewrite nth_error_skipn
    | rewrite nth_error_single ].

Ltac list_cases :=
  repeat match goal with
         | |- context [Nat.ltb ?a ?b] => destruct (Nat.ltb_spec a b)
         end.

Ltac list_close :=
  first
    [ reflexivity
    | lia
    | f_equal; lia
    | apply nth_error_beyond; list_len; lia
    | symmetry; apply nth_error_beyond; list_len; lia ].

Ltac list_eq :=
  apply nth_error_ext; intro; repeat list_step; list_len; list_cases;
  try list_close.

Lemma countFrames_app_found l r :
  Forall (fun f => found f = true) l ->
  countFrames (l ++ r) = (length l + countFrames r)%nat.
Proof.
  induction 1 as [|f l Hf _ IH]; simpl; [reflexivity|].
  rewrite Hf, IH. reflexivity.
Qed.

Lemma countFrames_unfound l :
  Forall (fun f => found f = false) l -> countFrames l = O.
Proof. destruct 1 as [|f l Hf _]; simpl; [reflexivity|]. rewrite Hf. reflexivity. Qed.

Lemma Forall_firstn_of {A} (P : A -> Prop) n (l : list A) :
  Forall P l -> Forall P (firstn n l).
Proof.
  intros H. rewrite <- (firstn_skipn n l) in H.
  apply Forall_app in H. apply H.
Qed.

Lemma Forall_skipn_of {A} (P : A -> Prop) n (l : list A) :
  Forall P l -> Forall P (skipn n l).
Proof.
  intros H. rewrite <- (firstn_skipn n l) in H.
  apply Forall_app in H. apply H.
Qed.

Lemma Forall_sublist_skipn {A} (P : A -> Prop) a lo hi (l : list A) :
  (a <= lo)%nat -> Forall P (skipn a l) -> Forall P (sublist lo hi l).
Proof.
  intros Hle H. unfold sublist.
  replace lo with ((lo - a) + a)%nat by lia. rewrite <- skipn_skipn.
  apply Forall_firstn_of, Forall_skipn_of, H.
Qed.

(** ** The layout of the buffer after an inline expansion, on indices *)

Lemma scratch_after_write (fs : list SymbolizedFrame) real inlined (i ac m : nat) :
  (i < ac)%nat -> (ac + m <= length fs)%nat -> (length inlined <= m)%nat ->
  sublist ac (ac + m) (write_at ac inlined (write_at i [real] fs))
  = inlined ++ sublist (ac + length inlined) (ac + m) fs.
Proof.
  intros Hi Hm Hk.
  assert (H1 : length (write_at i [real] fs) = length fs)
    by (apply length_write_at; simpl; lia).
  apply nth_error_ext; intro n.
  rewrite nth_error_sublist, nth_error_app, nth_error_sublist.
  rewrite nth_error_write_at by lia.
  rewrite nth_error_write_at by lia.
  rewrite nth_error_single. cbn [length].
  list_cases; try list_close.
Qed.

Lemma rotate_after_write (fs : list SymbolizedFrame) real inlined (i ac : nat) :
  (i < ac)%nat -> (ac + length inlined <= length fs)%nat ->
  let fs2 := write_at ac inlined (write_at i [real] fs) in
  firstn i fs2 ++ sublist ac (ac + length inlined) fs2
    ++ sublist i ac fs2 ++ skipn (ac + length inlined) fs2
  = firstn i fs ++ inlined ++ [real] ++ sublist (i + 1) ac fs
      ++ skipn (ac + length inlined) fs.
Proof.
  intros Hi Hk fs2.
  assert (H1 : length (write_at i [real] fs) = length fs)
    by (apply length_write_at; simpl; lia).
  assert (H2 : length fs2 = length fs)
    by (subst fs2; rewrite length_write_at; lia).
  assert (Hw : forall n, nth_error fs2 n =
            if (n <? ac)%nat
            then (if (n <? i)%nat then nth_error fs n
                  else if (n <? i + 1)%nat then Some real else nth_error fs n)
            else if (n <? ac + length inlined)%nat
                 then nth_error inlined (n - ac) else nth_error fs n).
  { intro n. subst fs2. rewrite nth_error_write_at by lia.
    rewrite nth_error_write_at by lia. rewrite nth_error_single. cbn [length].
    list_cases; try list_close. }
  apply nth_error_ext; intro n.
  repeat (rewrite nth_error_app || rewrite nth_error_sublist
          || rewrite nth_error_firstn || rewrite nth_error_skipn
          || rewrite nth_error_single || rewrite Hw).
  rewrite ?length_app, ?length_firstn, ?length_sublist, ?H2 by lia. cbn [length].
  list_cases; try list_close.
Qed.

Lemma length_firstn_min {A} n (l : list A) :
  size (firstn n l) = Z.min (Z.of_nat n) (size l).
Proof. unfold size. rewrite length_firstn. lia. Qed.

(** The buffer after the resolution of an address under
    [FULL_WITH_INLINE], for the inline chain the debug-info service
    delivers. *)
Lemma resolve_inline_layout env frameCount lmap elf i a st sym loc chain :
  let adjusted := wrap (a - l_addr lmap) in
  let maxInline :=
    Z.min (Z.of_nat (kMaxInlineLocationInfoPerFrame env))
          (frameCount - addrCount st) in
  size (frames st) = frameCount -> frameCount < 2 ^ 64 ->
  0 <= i < addrCount st -> addrCount st < frameCount ->
  getSectionContainingAddress env elf adjusted = true ->
  getDefinitionByAddress env elf adjusted = Some sym ->
  findAddress env elf adjusted FULL_WITH_INLINE (Z.to_nat maxInline) = (loc, chain) ->
  Forall (fun f => found f = true) chain ->
  Forall (fun f => found f = false) (skipn (Z.to_nat (addrCount st)) (frames st)) ->
  let real :=
    {| found := true; addr := adjusted; name := getSymbolName env elf sym;
       location := loc; file := Some elf |} in
  let inlined := firstn (Z.to_nat maxInline) chain in
  let k := size inlined in
  exists st',
    resolve env FULL_WITH_INLINE frameCount lmap elf i a st = Some (i + k, st') /\
    frames st' =
      firstn (Z.to_nat i) (frames st) ++ inlined ++ [real]
        ++ sublist (Z.to_nat (i + 1)) (Z.to_nat (addrCount st)) (frames st)
        ++ skipn (Z.to_nat (addrCount st + k)) (frames st) /\
    addrCount st' = addrCount st + k /\
    k = Z.min (size chain) maxInline /\
    (size chain <= maxInline -> inlined = chain) /\
    size (frames st') = frameCount /\
    addrCount st' <= frameCount /\
    remaining st' = size_sub (remaining st) 1 /\
    (symbolCache st = None -> symbolCache st' = None).
Proof.
  intros adjusted maxInline Hsz HN Hi Hslack Hsec Hdef Hfind Hchain Hscratch
    real inlined k.
  assert (HmaxI : 0 <= maxInline <= frameCount - addrCount st)
    by (subst maxInline; lia).
  assert (Hk : k = Z.min (size chain) maxInline).
  { subst k inlined. rewrite length_firstn_min. lia. }
  assert (Hinl : Forall (fun f => found f = true) inlined)
    by (apply Forall_firstn_of, Hchain).
  assert (Hk0 : 0 <= k <= maxInline) by (rewrite Hk; unfold size; lia).
  assert (Hfit : size chain <= maxInline -> inlined = chain).
  { intros Hle. subst inlined. apply firstn_all2. unfold size in Hle. lia. }
  unfold resolve. fold adjusted. rewrite Hsec.
  replace (LocationInfoMode_eqb FULL_WITH_INLINE FULL_WITH_INLINE
           && (addrCount st <? frameCount)) with true
    by (symmetry; apply andb_true_iff; split; [reflexivity | apply Z.ltb_lt; lia]).
  rewrite (size_sub_small frameCount (addrCount st)) by lia. fold maxInline.
  rewrite in_range_intro by lia.
  unfold setSymbolizedFrame. rewrite Hdef, Hfind. fold real. fold inlined.
  (* the indices as natural numbers *)
  set (fs := frames st) in *.
  set (ni := Z.to_nat i). set (nac := Z.to_nat (addrCount st)).
  assert (Hlen : length fs = Z.to_nat frameCount) by (unfold size in Hsz; lia).
  assert (Hnk : Z.to_nat k = length inlined) by (unfold k, size; lia).
  replace (Z.to_nat (addrCount st + maxInline)) with (nac + Z.to_nat maxInline)%nat
    by (subst nac; lia).
  replace (Z.to_nat (addrCount st + k)) with (nac + length inlined)%nat
    by (subst nac; lia).
  replace (Z.to_nat (i + 1)) with (ni + 1)%nat by (subst ni; lia).
  assert (Hni : (ni < nac)%nat) by (subst ni nac; lia).
  assert (Hroom : (nac + Z.to_nat maxInline <= length fs)%nat) by (subst nac; lia).
  assert (Hkm : (length inlined <= Z.to_nat maxInline)%nat) by lia.
  rewrite scratch_after_write by assumption.
  rewrite countFrames_app_found by exact Hinl.
  rewrite countFrames_unfound
    by (eapply Forall_sublist_skipn; [|exact Hscratch]; lia).
  rewrite Nat.add_0_r. fold (size inlined). fold k.
  set (fs2 := write_at nac inlined (write_at ni [real] fs)).
  assert (Hsz2 : size fs2 = frameCount).
  { unfold size. subst fs2.
    rewrite !length_write_at; rewrite ?length_write_at; cbn [length]; lia. }
  unfold rotate. rewrite !in_range_intro by (rewrite ?Hsz2; lia).
  cbn [andb]. subst fs2.
  replace (Z.to_nat (addrCount st + k)) with (nac + length inlined)%nat
    by (subst nac; lia).
  fold ni nac.
  rewrite (rotate_after_write fs real inlined ni nac Hni) by lia.
  set (fs3 := firstn ni fs ++ inlined ++ [real] ++ sublist (ni + 1) nac fs
                ++ skipn (nac + length inlined) fs).
  assert (Hsz3 : size fs3 = frameCount).
  { unfold size. subst fs3.
    rewrite !length_app, length_firstn, length_skipn, length_sublist by lia.
    cbn [length]. lia. }
  rewrite !size_add_small by lia.
  destruct (symbolCache st) as [c|].
  - destruct (cacheFrames_of_some env i
                (Z.min (k + 1) (Z.of_nat (S (kMaxInlineLocationInfoPerFrame env)))) fs3)
      as (cf & ->); try lia.
    eexists. split; [reflexivity|]. cbn [frames addrCount remaining symbolCache].
    repeat split; try assumption; try lia. discriminate.
  - eexists. split; [reflexivity|]. cbn [frames addrCount remaining symbolCache].
    repeat split; try assumption; try lia.
Qed.


(** ** The symbol cache *)

Lemma lru_lookup_head k v l : lru_lookup k ((k, v) :: l) = Some v.
Proof. simpl. rewrite Z.eqb_refl. reflexivity. Qed.

Lemma cache_find_hit k v c :
  lru_lookup k (lru c) = Some v ->
  exists c', cache_find k c = Some (v, c') /\
             lru_lookup k (lru c') = Some v /\ maxSize c' = maxSize c.
Proof.
  intros H. unfold cache_find. rewrite H. eexists. split; [reflexivity|].
  simpl. rewrite Z.eqb_refl. auto.
Qed.

Lemma cache_find_miss k c : lru_lookup k (lru c) = None -> cache_find k c = None.
Proof. intros H. unfold cache_find. rewrite H. reflexivity. Qed.

Lemma cache_find_some k c v c' :
  cache_find k c = Some (v, c') ->
  lru_lookup k (lru c) = Some v /\ lru_lookup k (lru c') = Some v /\
  maxSize c' = maxSize c.
Proof.
  unfold cache_find. destruct (lru_lookup k (lru c)) as [v0|] eqn:H; [|discriminate].
  intros E. injection E as <- <-. simpl. rewrite Z.eqb_refl. auto.
Qed.

Lemma cache_set_lookup k v c :
  (0 < maxSize c)%nat ->
  lru_lookup k (lru (cache_set k v c)) = Some v /\
  maxSize (cache_set k v c) = maxSize c.
Proof.
  intros Hpos. unfold cache_set.
  destruct (lru_lookup k (lru c)); simpl.
  - rewrite Z.eqb_refl. auto.
  - destruct (maxSize c) as [|m]; [lia|]. simpl. rewrite Z.eqb_refl. auto.
Qed.

(** ** Frames that are already found are passed over *)

Lemma visit_found env mode N lmap elf i st frame :
  nth_error (frames st) (Z.to_nat i) = Some frame -> found frame = true ->
  visit env mode N lmap elf i st = Some (i, st).
Proof. intros Hn Hf. unfold visit. rewrite Hn, Hf. reflexivity. Qed.

Lemma found_prefix_nth l n i :
  Forall (fun f => found f = true) (firstn n l) ->
  (i < n)%nat -> (n <= length l)%nat ->
  exists frame, nth_error l i = Some frame /\ found frame = true.
Proof.
  intros HF Hi Hn.
  destruct (nth_error l i) as [frame|] eqn:Hnth.
  - exists frame. split; [reflexivity|].
    rewrite Forall_forall in HF. apply HF.
    apply nth_error_In with (n := i). rewrite nth_error_firstn.
    destruct (Nat.ltb_spec i n); [exact Hnth | lia].
  - apply nth_error_None in Hnth. lia.
Qed.

Lemma inner_loop_all_found env mode N lmap elf fuel : forall i st,
  0 <= i -> addrCount st - i <= Z.of_nat fuel ->
  addrCount st <= size (frames st) -> size (frames st) < 2 ^ 64 ->
  Forall (fun f => found f = true) (firstn (Z.to_nat (addrCount st)) (frames st)) ->
  inner_loop fuel env mode N lmap elf i st = Some st.
Proof.
  induction fuel as [|fuel IH]; intros i st Hi Hfuel Hac HN HF; simpl.
  - destruct (i <? addrCount st) eqn:Hlt; [apply Z.ltb_lt in Hlt; lia | reflexivity].
  - destruct ((i <? addrCount st) && negb (remaining st =? 0)) eqn:Hcond; [|reflexivity].
    apply andb_true_iff in Hcond. destruct Hcond as [Hlt _]. apply Z.ltb_lt in Hlt.
    destruct (found_prefix_nth (frames st) (Z.to_nat (addrCount st)) (Z.to_nat i) HF)
      as (frame & Hnth & Hfound); [lia | unfold size in Hac; lia |].
    rewrite (visit_found _ _ _ _ _ _ _ _ Hnth Hfound).
    rewrite size_add_small by lia. apply IH; first [assumption | lia].
Qed.

Lemma outer_loop_all_found env mode N selfPath lmaps st :
  0 <= addrCount st -> addrCount st <= size (frames st) -> size (frames st) < 2 ^ 64 ->
  Forall (fun f => found f = true) (firstn (Z.to_nat (addrCount st)) (frames st)) ->
  outer_loop env mode N selfPath lmaps st = Some st.
Proof.
  intros H0 Hac HN HF. induction lmaps as [|lmap rest IH]; simpl; [reflexivity|].
  destruct (remaining st =? 0); [reflexivity|].
  destruct (getFile env (objPath selfPath lmap)) as [elf|]; [|exact IH].
  rewrite inner_loop_all_found; first [assumption | lia].
Qed.

(** ** A cache hit that does not fit *)

Lemma visit_oversized env mode N lmap elf i st frame c entry :
  nth_error (frames st) (Z.to_nat i) = Some frame -> found frame = false ->
  symbolCache st = Some c ->
  lru_lookup (addr frame) (lru c) = Some entry ->
  size_sub N (addrCount st) < numInlineFrames_of entry ->
  exists c',
    visit env mode N lmap elf i st = Some (i, with_cache st c') /\
    lru_lookup (addr frame) (lru c') = Some entry /\ maxSize c' = maxSize c.
Proof.
  intros Hnth Hf Hc Hlook Hbig. unfold visit. rewrite Hnth, Hf, Hc.
  destruct (cache_find_hit _ _ _ Hlook) as (c' & -> & Hl' & Hm').
  exists c'. split; [|auto].
  unfold replay_cached. simpl. fold (numInlineFrames_of entry).
  destruct (numInlineFrames_of entry <=? size_sub N (addrCount st)) eqn:Hle.
  - apply Z.leb_le in Hle. lia.
  - reflexivity.
Qed.

(** ** A call on one address *)

Lemma inner_loop_single env mode N lmap elf st :
  addrCount st = 1 -> remaining st <> 0 ->
  inner_loop (Z.to_nat (addrCount st)) env mode N lmap elf 0 st =
    match visit env mode N lmap elf 0 st with
    | None => None
    | Some (i', st') =>
        inner_loop 0 env mode N lmap elf (size_add i' 1) st'
    end.
Proof.
  intros Hac Hrem. rewrite Hac. change (Z.to_nat 1) with 1%nat.
  cbn [inner_loop]. rewrite Hac.
  apply Z.eqb_neq in Hrem. rewrite Hrem. reflexivity.
Qed.

Lemma inner_loop_done env mode N lmap elf i st :
  addrCount st <= i -> inner_loop 0 env mode N lmap elf i st = Some st.
Proof.
  intros H. cbn [inner_loop].
  destruct (i <? addrCount st) eqn:Hlt; [apply Z.ltb_lt in Hlt; lia | reflexivity].
Qed.

Lemma outer_loop_oversized env mode selfPath a entry f0 rest lmaps : forall c,
  found f0 = false -> addr f0 = a ->
  size (f0 :: rest) < 2 ^ 64 ->
  lru_lookup a (lru c) = Some entry ->
  size (f0 :: rest) - 1 < numInlineFrames_of entry ->
  exists c',
    outer_loop env mode (size (f0 :: rest)) selfPath lmaps
      (single_state f0 rest (Some c) []) =
    Some (single_state f0 rest (Some c') []).
Proof.
  induction lmaps as [|lmap lmaps IH]; intros c Hf Ha HN Hlook Hbig.
  - exists c. reflexivity.
  - cbn [outer_loop]. change (remaining (single_state f0 rest (Some c) []) =? 0) with false.
    cbv iota.
    destruct (getFile env (objPath selfPath lmap)) as [elf|].
    + rewrite inner_loop_single by (simpl; lia).
      destruct (visit_oversized env mode (size (f0 :: rest)) lmap elf 0
                  (single_state f0 rest (Some c) []) f0 c entry)
        as (c' & Hv & Hl' & _); try reflexivity; try assumption.
      { rewrite Ha. exact Hlook. }
      { simpl. rewrite size_sub_small; [lia | unfold size; simpl; lia | lia]. }
      rewrite Hv. change (size_add 0 1) with 1.
      rewrite inner_loop_done by (simpl; lia).
      apply (IH c'); try assumption. rewrite <- Ha. exact Hl'.
    + apply IH; assumption.
Qed.

(** C1 (as the code has it).  A cache hit whose inline-frame count
    exceeds the slack [frameCount - addrCount] is passed over: the
    iteration leaves the frame buffer, the address count, the outstanding
    counter and the query log as they were, and uncached resolution is
    not attempted.  For a call on a single address the frame therefore
    ends not found and the debug-info service is never asked, whatever
    the loaded objects contain. *)
Theorem C1_oversized_cache_hit_is_skipped :
  (forall env mode frameCount lmap elf i st frame c entry,
      nth_error (frames st) (Z.to_nat i) = Some frame ->
      found frame = false ->
      symbolCache st = Some c ->
      lru_lookup (addr frame) (lru c) = Some entry ->
      size_sub frameCount (addrCount st) < numInlineFrames_of entry ->
      exists c',
        visit env mode frameCount lmap elf i st = Some (i, with_cache st c') /\
        lru_lookup (addr frame) (lru c') = Some entry) /\
  (forall env s c a entry frame rest,
      found frame = false ->
      size (frame :: rest) < 2 ^ 64 ->
      symbolCache_ s = Some c ->
      lru_lookup a (lru c) = Some entry ->
      size (frame :: rest) - 1 < numInlineFrames_of entry ->
      exists st frame',
        symbolize_state env s [a] (frame :: rest) = Some st /\
        frames st = frame' :: rest /\
        found frame' = false /\
        queries st = []).
Proof.
  split.
  - intros env mode frameCount lmap elf i st frame c entry Hn Hf Hc Hl Hbig.
    destruct (visit_oversized env mode frameCount lmap elf i st frame c entry)
      as (c' & Hv & Hl' & _); try assumption.
    exists c'. auto.
  - intros env s c a entry frame rest Hf HN Hc Hl Hbig.
    unfold symbolize_state. cbn [length clear_unfound]. rewrite Hf.
    change (0 + 1 =? 0) with false. cbv iota.
    destruct (negb (r_version env =? 1)).
    { eexists _, _. split; [reflexivity|]. simpl. auto. }
    destruct (readlink_self_exe env) as [selfPath|].
    2:{ eexists _, _. split; [reflexivity|]. simpl. auto. }
    cbn [assign_addrs]. rewrite Hc.
    destruct (outer_loop_oversized env (mode_ s) selfPath a entry
                (set_addr SymbolizedFrame_clear a) rest (r_map env) c)
      as (c' & Hrun); try reflexivity; try assumption.
    change (size (frame :: rest)) with (size (set_addr SymbolizedFrame_clear a :: rest)).
    change (0 + 1) with 1. change (size [a]) with 1.
    unfold single_state in Hrun. rewrite Hrun.
    eexists _, _. split; [reflexivity|]. simpl. auto.
Qed.

(** ** Resolution and replay of a single address *)

Lemma countFrames_prefix_found l :
  Forall (fun f => found f = true) (firstn (countFrames l) l).
Proof.
  induction l as [|f l IH]; simpl; [constructor|].
  destruct (found f) eqn:Hf; simpl; constructor; assumption.
Qed.

Lemma found_prefix_le l n :
  (n <= countFrames l)%nat -> Forall (fun f => found f = true) (firstn n l).
Proof.
  intros Hn. pose proof (countFrames_prefix_found l) as H.
  replace n with (Nat.min n (countFrames l)) by lia.
  rewrite <- firstn_firstn. apply Forall_firstn_of, H.
Qed.

Lemma countFrames_repeat_clear n : countFrames (repeat SymbolizedFrame_clear n) = O.
Proof. destruct n; reflexivity. Qed.

Lemma setSymbolizedFrame_found env elf address mode slots :
  found (fst (fst (setSymbolizedFrame env elf address mode slots))) = true.
Proof.
  unfold setSymbolizedFrame.
  destruct (getDefinitionByAddress env elf address); [|reflexivity].
  destruct (findAddress env elf address mode slots); reflexivity.
Qed.

Lemma firstn_app_exact {A} (l r : list A) n :
  n = length l -> firstn n (l ++ r) = l.
Proof.
  intros ->. rewrite firstn_app, Nat.sub_diag, firstn_all. simpl.
  apply app_nil_r.
Qed.

Lemma skipn_app_exact {A} (l r : list A) n :
  n = length l -> skipn n (l ++ r) = r.
Proof.
  intros ->. rewrite skipn_app, Nat.sub_diag, skipn_all. reflexivity.
Qed.

(** The group stored and the state reached when the frame of a single
    address is resolved from [frame] and the scratch content [T]. *)
Lemma resolved_group env a N c q frame T nI :
  found frame = true ->
  (0 < maxSize c)%nat ->
  size (frame :: T) = N -> N < 2 ^ 64 ->
  (nI <= length T)%nat ->
  (nI <= kMaxInlineLocationInfoPerFrame env)%nat ->
  Forall (fun f => found f = true) (firstn nI T) ->
  let fs3 := firstn nI T ++ [frame] ++ skipn nI T in
  exists cf,
    cacheFrames_of env 0
      (Z.min (size_add (Z.of_nat nI) 1)
             (Z.of_nat (S (kMaxInlineLocationInfoPerFrame env)))) fs3 = Some cf /\
    Resolved a N
      {| frames := fs3; addrCount := 1 + Z.of_nat nI;
         remaining := 0; symbolCache := Some (cache_set a cf c);
         queries := q |}.
Proof.
  intros Hfr Hmax Hsz HN HnT HnK HF fs3.
  assert (Hlen3 : length fs3 = S (length T)).
  { subst fs3. rewrite !length_app, length_firstn, length_skipn. simpl. lia. }
  assert (HszT : Z.of_nat (S (length T)) = N) by (unfold size in Hsz; simpl in Hsz; lia).
  rewrite size_add_small by lia.
  rewrite Z.min_l by lia.
  unfold cacheFrames_of. rewrite in_range_intro by (unfold size; lia).
  eexists. split; [reflexivity|].
  set (g := Z.to_nat (Z.of_nat nI + 1)).
  assert (Hg : g = S nI) by lia.
  assert (HG : firstn g (skipn (Z.to_nat 0) fs3) = firstn nI T ++ [frame]).
  { change (Z.to_nat 0) with O. cbn [skipn]. subst fs3.
    rewrite app_assoc. apply firstn_app_exact.
    rewrite length_app, length_firstn. simpl. lia. }
  rewrite HG.
  assert (HGf : Forall (fun f => found f = true) (firstn nI T ++ [frame])).
  { apply Forall_app. split; [exact HF|]. constructor; [exact Hfr | constructor]. }
  assert (HGlen : length (firstn nI T ++ [frame]) = S nI).
  { rewrite length_app, length_firstn. simpl. lia. }
  destruct (cache_set_lookup a
              ((firstn nI T ++ [frame]) ++
               repeat SymbolizedFrame_clear (S (kMaxInlineLocationInfoPerFrame env) - g)) c Hmax)
    as [Hlook Hms].
  unfold Resolved. eexists _, _. cbn [symbolCache addrCount frames].
  split; [reflexivity|]. split; [exact Hlook|]. split; [lia|].
  split; [lia|]. split; [unfold size; lia|].
  replace (Z.to_nat (1 + Z.of_nat nI)) with (S nI) by lia.
  assert (Hpre : firstn (S nI) fs3 = firstn nI T ++ [frame]).
  { subst fs3. rewrite app_assoc. apply firstn_app_exact. lia. }
  split.
  { unfold numInlineFrames_of.
    rewrite countFrames_app_found by exact HGf.
    rewrite countFrames_repeat_clear, HGlen.
    rewrite size_sub_small by lia. lia. }
  split.
  { unfold size. rewrite length_app, HGlen. lia. }
  split.
  { rewrite Hpre. apply firstn_app_exact. lia. }
  rewrite Hpre. exact HGf.
Qed.

Lemma resolve_single env mode lmap elf a f0 rest c q :
  (0 < maxSize c)%nat ->
  size (f0 :: rest) < 2 ^ 64 ->
  let N := size (f0 :: rest) in
  let st := single_state f0 rest (Some c) q in
  (getSectionContainingAddress env elf (wrap (a - l_addr lmap)) = false /\
   resolve env mode N lmap elf 0 a st =
     Some (0, single_state f0 rest (Some c)
                (q ++ [QSection elf (wrap (a - l_addr lmap))]))) \/
  (exists i' st',
     resolve env mode N lmap elf 0 a st = Some (i', st') /\
     i' + 1 = addrCount st' /\ Resolved a N st').
Proof.
  intros Hmax HN N st. unfold resolve.
  destruct (getSectionContainingAddress env elf (wrap (a - l_addr lmap))).
  2:{ left. split; reflexivity. }
  right. subst st. cbn [single_state addrCount frames remaining symbolCache queries].
  assert (HlenN : Z.of_nat (S (length rest)) = N) by (subst N; unfold size; cbn [length]; lia).
  assert (HN' : N < 2 ^ 64) by exact HN.
  change (size_sub 1 1) with 0.
  destruct (LocationInfoMode_eqb mode FULL_WITH_INLINE && (1 <? N)) eqn:Hinl.
  - apply andb_true_iff in Hinl. destruct Hinl as [_ Hlt]. apply Z.ltb_lt in Hlt.
    rewrite (size_sub_small N 1) by lia.
    set (maxInline := Z.min (Z.of_nat (kMaxInlineLocationInfoPerFrame env)) (N - 1)).
    assert (HmaxI : 0 <= maxInline <= N - 1) by (subst maxInline; lia).
    assert (HmaxK : maxInline <= Z.of_nat (kMaxInlineLocationInfoPerFrame env))
      by (subst maxInline; lia).
    rewrite in_range_intro by (unfold size; cbn [length]; lia).
    pose proof (setSymbolizedFrame_slots env elf (wrap (a - l_addr lmap)) mode
                  (Z.to_nat maxInline)) as Hslots.
    pose proof (setSymbolizedFrame_found env elf (wrap (a - l_addr lmap)) mode
                  (Z.to_nat maxInline)) as Hfound.
    destruct (setSymbolizedFrame env elf (wrap (a - l_addr lmap)) mode
                (Z.to_nat maxInline)) as [[frame inlined] qs].
    cbn [fst snd] in Hslots, Hfound.
    set (M := Z.to_nat maxInline) in *.
    assert (HMz : Z.of_nat M = maxInline) by (subst M; lia).
    set (T := inlined ++ skipn (length inlined) rest).
    assert (HlenT : length T = length rest).
    { subst T. rewrite length_app, length_skipn. lia. }
    change (Z.to_nat 0) with O. change (Z.to_nat 1) with 1%nat.
    replace (Z.to_nat (1 + maxInline)) with (S M) by lia.
    assert (Hfs2 : write_at 1 inlined (write_at 0 [frame] (f0 :: rest)) = frame :: T)
      by reflexivity.
    rewrite Hfs2.
    assert (Hrange : sublist 1 (S M) (frame :: T) = firstn M T).
    { unfold sublist. cbn [skipn]. f_equal. lia. }
    rewrite Hrange.
    set (nI := countFrames (firstn M T)).
    assert (HnI : (nI <= M)%nat).
    { subst nI. pose proof (countFrames_le (firstn M T)) as H.
      rewrite length_firstn in H. lia. }
    assert (Hrot : rotate 0 1 (1 + Z.of_nat nI) (frame :: T)
                   = Some (firstn nI T ++ [frame] ++ skipn nI T)).
    { unfold rotate. rewrite !in_range_intro by (unfold size; cbn [length]; lia).
      cbn [andb]. f_equal.
      change (Z.to_nat 0) with O. change (Z.to_nat 1) with 1%nat.
      replace (Z.to_nat (1 + Z.of_nat nI)) with (S nI) by lia.
      unfold sublist. cbn [firstn skipn app Nat.sub].
      rewrite Nat.sub_0_r. reflexivity. }
    rewrite Hrot.
    assert (HF : Forall (fun f => found f = true) (firstn nI T)).
    { replace (firstn nI T) with (firstn nI (firstn M T))
        by (rewrite firstn_firstn; f_equal; lia).
      apply countFrames_prefix_found. }
    clearbody nI M maxInline N.
    rewrite !size_add_small by lia.
    assert (HszT : size (frame :: T) = N) by (unfold size; cbn [length]; lia).
    clearbody T.
    destruct (resolved_group env a N c
                ((q ++ [QSection elf (wrap (a - l_addr lmap))]) ++ qs) frame T nI)
      as (cf & Hcf & HR); try assumption; try lia.
    rewrite size_add_small in Hcf by lia. rewrite Hcf.
    eexists _, _. split; [reflexivity|]. split; [cbn [addrCount]; lia | exact HR].
  - pose proof (setSymbolizedFrame_found env elf (wrap (a - l_addr lmap)) mode 0)
      as Hfound.
    destruct (setSymbolizedFrame env elf (wrap (a - l_addr lmap)) mode 0)
      as [[frame inlined] qs].
    cbn [fst snd] in Hfound.
    change (write_at (Z.to_nat 0) [frame] (f0 :: rest)) with (frame :: rest).
    change (size_add 0 0) with 0. change (size_add 0 1) with (size_add (Z.of_nat 0) 1).
    assert (HszT : size (frame :: rest) = N) by (unfold size; cbn [length]; lia).
    clearbody N.
    destruct (resolved_group env a N c
                ((q ++ [QSection elf (wrap (a - l_addr lmap))]) ++ qs) frame rest O)
      as (cf & Hcf & HR); try assumption; try lia.
    { constructor. }
    cbn [firstn skipn app] in Hcf, HR. rewrite Hcf.
    eexists _, _. split; [reflexivity|]. split; [cbn [addrCount]; lia | exact HR].
Qed.

Lemma write_at_nil {A} pos (l : list A) : write_at pos [] l = l.
Proof. unfold write_at. cbn [app length]. rewrite Nat.add_0_r. apply firstn_skipn. Qed.

Lemma numInlineFrames_fit e bound :
  numInlineFrames_of e <= bound -> bound < 2 ^ 64 - 1 ->
  0 <= numInlineFrames_of e /\
  (Z.to_nat (numInlineFrames_of e + 1) <= countFrames e)%nat.
Proof.
  unfold numInlineFrames_of, size_sub. intros Hfit Hb.
  destruct (countFrames e) as [|k].
  - exfalso. change (wrap (Z.of_nat 0 - 1)) with (2 ^ 64 - 1) in Hfit. lia.
  - pose proof (wrap_range (Z.of_nat (S k) - 1)).
    pose proof (wrap_le (Z.of_nat (S k) - 1)). lia.
Qed.

(** The replayed state: the cached group in front, the rest of the
    buffer behind it. *)

Lemma replay_single e f0 rest c q :
  size (f0 :: rest) < 2 ^ 64 ->
  numInlineFrames_of e <= size (f0 :: rest) - 1 ->
  replay_cached (size (f0 :: rest)) 0 e (single_state f0 rest (Some c) q)
  = Some (numInlineFrames_of e, replayed e f0 rest c q).
Proof.
  intros HN Hfit.
  destruct (numInlineFrames_fit e _ Hfit) as [Hm0 Hcnt]; [lia|].
  pose proof (countFrames_le e) as Hle.
  unfold replay_cached, replayed.
  cbn [single_state addrCount frames remaining symbolCache queries].
  fold (numInlineFrames_of e).
  remember (numInlineFrames_of e) as m eqn:Hm. clear Hm.
  assert (HlenN : Z.of_nat (S (length rest)) = size (f0 :: rest))
    by (unfold size; cbn [length]; lia).
  set (N := size (f0 :: rest)) in *. clearbody N.
  rewrite (size_sub_small N 1) by lia.
  replace (m <=? N - 1) with true by (symmetry; apply Z.leb_le; lia).
  unfold move_backward.
  replace (1 + m - (1 - (0 + 1))) with (1 + m) by lia.
  rewrite !in_range_intro by (unfold size; cbn [length]; lia). cbn [andb].
  replace (sublist (Z.to_nat (0 + 1)) (Z.to_nat 1) (f0 :: rest)) with (@nil SymbolizedFrame)
    by reflexivity.
  cbn [map]. rewrite !write_at_nil.
  unfold copy_frames.
  rewrite !in_range_intro by (unfold size; cbn [length]; lia). cbn [andb].
  rewrite !size_add_small by lia.
  change (Z.to_nat 0) with O.
  unfold write_at. cbn [firstn app Nat.add].
  rewrite length_firstn, Nat.min_l by lia.
  replace (0 + m) with m by lia. replace (1 + m) with (m + 1) by lia.
  reflexivity.
Qed.

Lemma replayed_Resolved a e f0 rest c q :
  size (f0 :: rest) < 2 ^ 64 ->
  numInlineFrames_of e <= size (f0 :: rest) - 1 ->
  lru_lookup a (lru c) = Some e -> (0 < maxSize c)%nat ->
  Resolved a (size (f0 :: rest)) (replayed e f0 rest c q).
Proof.
  intros HN Hfit Hlook Hmax.
  destruct (numInlineFrames_fit e _ Hfit) as [Hm0 Hcnt]; [lia|].
  pose proof (countFrames_le e) as Hle.
  unfold Resolved, replayed. exists c, e.
  cbn [symbolCache addrCount frames].
  set (g := Z.to_nat (numInlineFrames_of e + 1)) in *.
  assert (Hglen : length (firstn g e) = g) by (rewrite length_firstn; lia).
  assert (Hpre : firstn g (firstn g e ++ skipn g (f0 :: rest)) = firstn g e)
    by (apply firstn_app_exact; lia).
  repeat split; try assumption; try lia.
  - unfold size in *. rewrite length_app, Hglen, length_skipn.
    cbn [length] in *. lia.
  - unfold size. lia.
  - symmetry. exact Hpre.
  - rewrite Hpre. apply found_prefix_le. lia.
Qed.

Lemma visit_single_cases env mode lmap elf a f0 rest c q :
  found f0 = false -> addr f0 = a ->
  size (f0 :: rest) < 2 ^ 64 -> (0 < maxSize c)%nat ->
  exists i' st',
    visit env mode (size (f0 :: rest)) lmap elf 0 (single_state f0 rest (Some c) q)
      = Some (i', st') /\
    i' + 1 = addrCount st' /\
    ((exists c' q', st' = single_state f0 rest (Some c') q' /\ (0 < maxSize c')%nat) \/
     Resolved a (size (f0 :: rest)) st').
Proof.
  intros Hf Ha HN Hmax. unfold visit.
  cbn [single_state frames symbolCache addrCount remaining queries].
  change (nth_error (f0 :: rest) (Z.to_nat 0)) with (Some f0).
  cbv beta iota. rewrite Hf, Ha.
  destruct (cache_find a c) as [[e c']|] eqn:Hfind.
  - apply cache_find_some in Hfind. destruct Hfind as (_ & Hl' & Hm').
    destruct (Z_le_gt_dec (numInlineFrames_of e) (size (f0 :: rest) - 1)) as [Hfit|Hbig].
    + change {| frames := f0 :: rest; addrCount := 1; remaining := 1;
                symbolCache := Some c'; queries := q |}
        with (single_state f0 rest (Some c') q).
      rewrite replay_single by assumption.
      eexists _, _. split; [reflexivity|]. split; [reflexivity|].
      right. apply replayed_Resolved; try assumption. lia.
    + unfold replay_cached. cbn [addrCount]. fold (numInlineFrames_of e).
      assert (H1 : 1 <= size (f0 :: rest)) by (unfold size; cbn [length]; lia).
      rewrite (size_sub_small (size (f0 :: rest)) 1) by lia.
      replace (numInlineFrames_of e <=? size (f0 :: rest) - 1) with false
        by (symmetry; apply Z.leb_gt; lia).
      eexists _, _. split; [reflexivity|]. split; [reflexivity|].
      left. exists c', q. split; [reflexivity | lia].
  - destruct (resolve_single env mode lmap elf a f0 rest c q Hmax HN)
      as [[_ Hres] | (i' & st' & Hres & Hi' & HR)].
    + rewrite Hres.
      eexists _, _. split; [reflexivity|]. split; [reflexivity|].
      left. eexists _, _. split; [reflexivity | exact Hmax].
    + rewrite Hres.
      eexists _, _. split; [reflexivity|]. split; [exact Hi'|].
      right. exact HR.
Qed.

Lemma Resolved_stable env mode selfPath lmaps a N st :
  N < 2 ^ 64 -> Resolved a N st ->
  outer_loop env mode N selfPath lmaps st = Some st.
Proof.
  intros HN (c & e & _ & _ & _ & Hac & Hsz & _ & _ & _ & HF).
  apply outer_loop_all_found; try assumption; lia.
Qed.

Lemma outer_single env mode selfPath a f0 rest lmaps : forall c q,
  found f0 = false -> addr f0 = a ->
  size (f0 :: rest) < 2 ^ 64 -> (0 < maxSize c)%nat ->
  exists st',
    outer_loop env mode (size (f0 :: rest)) selfPath lmaps
      (single_state f0 rest (Some c) q) = Some st' /\
    ((exists c' q', st' = single_state f0 rest (Some c') q') \/
     (Resolved a (size (f0 :: rest)) st' /\
      exists lmap, In lmap lmaps /\ getFile env (objPath selfPath lmap) <> None)).
Proof.
  induction lmaps as [|lmap lmaps IH]; intros c q Hf Ha HN Hmax.
  - eexists. split; [reflexivity|]. left. eauto.
  - cbn [outer_loop].
    change (remaining (single_state f0 rest (Some c) q) =? 0) with false. cbv iota.
    destruct (getFile env (objPath selfPath lmap)) as [elf|] eqn:Hopen.
    + rewrite inner_loop_single by (cbn; lia).
      destruct (visit_single_cases env mode lmap elf a f0 rest c q Hf Ha HN Hmax)
        as (i' & st' & -> & Hi' & [(c' & q' & -> & Hmax') | HR]).
      * rewrite inner_loop_done.
        2:{ cbn [single_state addrCount] in *. rewrite size_add_small; lia. }
        destruct (IH c' q' Hf Ha HN Hmax') as (st'' & Hrun & Hcases).
        exists st''. split; [exact Hrun|].
        destruct Hcases as [Hs | (HR & lm & Hin & Hop)]; [left; exact Hs|].
        right. split; [exact HR|]. exists lm. split; [right; exact Hin | exact Hop].
      * assert (Hb : 1 <= addrCount st' <= size (f0 :: rest))
          by (destruct HR as (? & ? & _ & _ & _ & H & _); exact H).
        rewrite inner_loop_done by (rewrite size_add_small; lia).
        rewrite (Resolved_stable env mode selfPath lmaps a _ st' HN HR).
        exists st'. split; [reflexivity|]. right. split; [exact HR|].
        exists lmap. split; [left; reflexivity|]. rewrite Hopen. discriminate.
    + destruct (IH c q Hf Ha HN Hmax) as (st'' & Hrun & Hcases).
      exists st''. split; [exact Hrun|].
      destruct Hcases as [Hs | (HR & lm & Hin & Hop)]; [left; exact Hs|].
      right. split; [exact HR|]. exists lm. split; [right; exact Hin | exact Hop].
Qed.

Lemma outer_replay env mode selfPath a e f0 rest lmaps : forall c,
  found f0 = false -> addr f0 = a ->
  size (f0 :: rest) < 2 ^ 64 ->
  lru_lookup a (lru c) = Some e -> (0 < maxSize c)%nat ->
  numInlineFrames_of e <= size (f0 :: rest) - 1 ->
  (exists lmap, In lmap lmaps /\ getFile env (objPath selfPath lmap) <> None) ->
  exists c',
    outer_loop env mode (size (f0 :: rest)) selfPath lmaps
      (single_state f0 rest (Some c) []) = Some (replayed e f0 rest c' []).
Proof.
  induction lmaps as [|lmap lmaps IH]; intros c Hf Ha HN Hlook Hmax Hfit Hopen.
  - destruct Hopen as (lm & [] & _).
  - cbn [outer_loop].
    change (remaining (single_state f0 rest (Some c) []) =? 0) with false. cbv iota.
    destruct (getFile env (objPath selfPath lmap)) as [elf|] eqn:Hget.
    + rewrite inner_loop_single by (cbn; lia).
      unfold visit. cbn [single_state frames symbolCache addrCount remaining queries].
      change (nth_error (f0 :: rest) (Z.to_nat 0)) with (Some f0).
      cbv beta iota. rewrite Hf, Ha.
      destruct (cache_find_hit a e c Hlook) as (c' & -> & Hl' & Hm').
      change {| frames := f0 :: rest; addrCount := 1; remaining := 1;
                symbolCache := Some c'; queries := [] |}
        with (single_state f0 rest (Some c') []).
      rewrite replay_single by assumption.
      assert (HR : Resolved a (size (f0 :: rest)) (replayed e f0 rest c' []))
        by (apply replayed_Resolved; try assumption; lia).
      destruct (numInlineFrames_fit e _ Hfit) as [Hm0 _]; [lia|].
      rewrite inner_loop_done
        by (unfold replayed; cbn [addrCount]; rewrite size_add_small; lia).
      rewrite (Resolved_stable env mode selfPath lmaps a _ _ HN HR).
      exists c'. reflexivity.
    + apply IH; try assumption.
      destruct Hopen as (lm & [<- | Hin] & Hop); [congruence|].
      exists lm. split; assumption.
Qed.

Lemma skipn_fresh g n : skipn g (fresh n) = fresh (n - g).
Proof.
  unfold fresh. revert n. induction g as [|g IH]; intros n.
  - rewrite Nat.sub_0_r. reflexivity.
  - destruct n as [|n]; [reflexivity|]. cbn [repeat skipn]. apply IH.
Qed.

(** ** The layout of the buffer after a replay, on indices *)

Lemma replay_after_moves (fs G : list SymbolizedFrame) (i ac m : nat) :
  (i < ac)%nat -> (ac + m <= length fs)%nat -> length G = S m ->
  write_at i G
    (write_at (i + 1 + m) (sublist (i + 1) ac fs)
       (write_at (i + 1) (map moved_from (sublist (i + 1) ac fs)) fs))
  = firstn i fs ++ G ++ sublist (i + 1) ac fs ++ skipn (ac + m) fs.
Proof.
  intros Hi Hm HG.
  assert (Hseg : length (sublist (i + 1) ac fs) = (ac - (i + 1))%nat)
    by (apply length_sublist; lia).
  assert (H1 : length (write_at (i + 1) (map moved_from (sublist (i + 1) ac fs)) fs)
               = length fs)
    by (apply length_write_at; rewrite length_map, Hseg; lia).
  assert (H2 : length (write_at (i + 1 + m) (sublist (i + 1) ac fs)
                         (write_at (i + 1) (map moved_from (sublist (i + 1) ac fs)) fs))
               = length fs)
    by (rewrite length_write_at; rewrite ?Hseg; lia).
  apply nth_error_ext; intro n.
  rewrite nth_error_write_at by lia.
  rewrite nth_error_write_at by lia.
  rewrite nth_error_write_at by lia.
  rewrite !nth_error_app, nth_error_firstn, nth_error_skipn.
  rewrite length_map, !Hseg, HG, length_firstn.
  rewrite nth_error_map, !nth_error_sublist.
  list_cases; try list_close.
Qed.

(** The group of an address after the rotation: the frames that were
    counted in the scratch range, then the frame of the call site. *)
Lemma group_after_rotate (fs2 : list SymbolizedFrame) frame (i ac nI : nat) :
  (i < ac)%nat -> (ac + nI <= length fs2)%nat ->
  nth_error fs2 i = Some frame ->
  sublist i (i + nI + 1)
    (firstn i fs2 ++ sublist ac (ac + nI) fs2 ++ sublist i ac fs2
       ++ skipn (ac + nI) fs2)
  = sublist ac (ac + nI) fs2 ++ [frame].
Proof.
  intros Hi Hn Hframe.
  apply nth_error_ext; intro n.
  rewrite nth_error_sublist.
  rewrite !nth_error_app, nth_error_firstn, !nth_error_sublist, nth_error_single.
  rewrite length_firstn, !length_sublist by lia.
  list_cases; try list_close.
  match goal with
  | |- nth_error fs2 ?k = Some frame => replace k with i by lia; exact Hframe
  end.
Qed.

(** The cache-hit branch when the cached group fits: the group takes the
    place of the frame, the frames behind it move up. *)
Lemma replay_cached_layout N i e st :
  size (frames st) = N -> N < 2 ^ 64 ->
  0 <= i < addrCount st -> addrCount st <= N ->
  numInlineFrames_of e <= N - addrCount st ->
  let m := numInlineFrames_of e in
  replay_cached N i e st =
    Some (i + m,
          {| frames :=
               firstn (Z.to_nat i) (frames st)
                 ++ firstn (Z.to_nat (m + 1)) e
                 ++ sublist (Z.to_nat (i + 1)) (Z.to_nat (addrCount st)) (frames st)
                 ++ skipn (Z.to_nat (addrCount st + m)) (frames st);
             addrCount := addrCount st + m;
             remaining := remaining st;
             symbolCache := symbolCache st;
             queries := queries st |}) /\
  Forall (fun f => found f = true) (firstn (Z.to_nat (m + 1)) e) /\
  0 <= m /\ m + 1 <= size e.
Proof.
  intros Hsz HN Hi Hac Hfit m.
  destruct (numInlineFrames_fit e _ Hfit) as [Hm0 Hcnt]; [lia|].
  pose proof (countFrames_le e) as Hle.
  fold m in Hm0, Hcnt.
  assert (HF : Forall (fun f => found f = true) (firstn (Z.to_nat (m + 1)) e))
    by (apply found_prefix_le; exact Hcnt).
  split; [|split; [exact HF | unfold size; lia]].
  unfold replay_cached. fold (numInlineFrames_of e). fold m.
  rewrite (size_sub_small N (addrCount st)) by lia.
  replace (m <=? N - addrCount st) with true by (symmetry; apply Z.leb_le; lia).
  unfold move_backward.
  rewrite !in_range_intro by lia. cbn [andb].
  unfold copy_frames.
  set (fs := frames st) in *.
  set (ni := Z.to_nat i). set (nac := Z.to_nat (addrCount st)). set (nm := Z.to_nat m).
  assert (Hlen : length fs = Z.to_nat N) by (unfold size in Hsz; lia).
  replace (Z.to_nat (i + 1)) with (ni + 1)%nat by (subst ni; lia).
  replace (Z.to_nat (addrCount st + m - (addrCount st - (i + 1))))
    with (ni + 1 + nm)%nat by (subst ni nm; lia).
  fold nac.
  assert (Hseg : length (sublist (ni + 1) nac fs) = (nac - (ni + 1))%nat)
    by (apply length_sublist; subst ni nac; lia).
  assert (Hsz2 : size (write_at (ni + 1 + nm) (sublist (ni + 1) nac fs)
                         (write_at (ni + 1) (map moved_from (sublist (ni + 1) nac fs)) fs))
                 = N).
  { unfold size. rewrite length_write_at; rewrite ?length_write_at;
      rewrite ?length_map, ?Hseg; subst ni nac nm; lia. }
  rewrite !in_range_intro by (rewrite ?Hsz2; unfold size; lia). cbn [andb].
  rewrite !size_add_small by lia.
  f_equal. f_equal. f_equal.
  replace (Z.to_nat (addrCount st + m)) with (nac + nm)%nat by (subst nac nm; lia).
  fold ni.
  apply replay_after_moves; [subst ni nac; lia | subst nac nm; lia |].
  rewrite length_firstn. subst nm. lia.
Qed.

(** The frames stored in the cache by a resolution are the group it left
    in the buffer, all of them found. *)
Lemma resolve_stores_group env mode N lmap elf i a st c :
  size (frames st) = N -> N < 2 ^ 64 ->
  0 <= i < addrCount st -> addrCount st <= N ->
  symbolCache st = Some c -> (0 < maxSize c)%nat ->
  getSectionContainingAddress env elf (wrap (a - l_addr lmap)) = true ->
  exists i' st' c' e,
    resolve env mode N lmap elf i a st = Some (i', st') /\
    i <= i' /\ addrCount st' = addrCount st + (i' - i) /\ addrCount st' <= N /\
    size (frames st') = N /\
    symbolCache st' = Some c' /\ lru_lookup a (lru c') = Some e /\
    numInlineFrames_of e = i' - i /\
    firstn (Z.to_nat (i' - i + 1)) e
      = sublist (Z.to_nat i) (Z.to_nat (i' + 1)) (frames st') /\
    Forall (fun f => found f = true)
      (sublist (Z.to_nat i) (Z.to_nat (i' + 1)) (frames st')).
Proof.
  intros Hsz HN Hi Hac Hc Hmax Hsec. unfold resolve. rewrite Hsec, Hc.
  set (adjusted := wrap (a - l_addr lmap)).
  set (kMax := kMaxInlineLocationInfoPerFrame env).
  set (fs := frames st) in *.
  assert (Hlen : length fs = Z.to_nat N) by (unfold size in Hsz; lia).
  (* what both branches share, for the group [G] at [i] in [fs3] *)
  assert (Hstore : forall fs3 nI,
    size fs3 = N -> (nI <= kMax)%nat -> i + Z.of_nat nI + 1 <= N ->
    Forall (fun f => found f = true)
      (sublist (Z.to_nat i) (Z.to_nat i + nI + 1) fs3) ->
    exists cf c' e,
      cacheFrames_of env i
        (Z.min (size_add (Z.of_nat nI) 1) (Z.of_nat (S kMax))) fs3 = Some cf /\
      cache_set a cf c = c' /\ lru_lookup a (lru c') = Some e /\
      numInlineFrames_of e = Z.of_nat nI /\
      firstn (Z.to_nat (Z.of_nat nI + 1)) e
        = sublist (Z.to_nat i) (Z.to_nat i + nI + 1) fs3).
  { intros fs3 nI Hsz3 HnK Hroom HG.
    rewrite size_add_small by lia. rewrite Z.min_l by lia.
    unfold cacheFrames_of. rewrite in_range_intro by lia.
    replace (firstn (Z.to_nat (Z.of_nat nI + 1)) (skipn (Z.to_nat i) fs3))
      with (sublist (Z.to_nat i) (Z.to_nat i + nI + 1) fs3)
      by (unfold sublist; f_equal; lia).
    set (G := sublist (Z.to_nat i) (Z.to_nat i + nI + 1) fs3) in *.
    assert (HGlen : length G = S nI).
    { subst G. rewrite length_sublist; unfold size in Hsz3; lia. }
    destruct (cache_set_lookup a
                (G ++ repeat SymbolizedFrame_clear
                        (S kMax - Z.to_nat (Z.of_nat nI + 1))) c Hmax) as [Hlook _].
    eexists _, _, _. split; [reflexivity|]. split; [reflexivity|].
    split; [exact Hlook|]. split.
    - unfold numInlineFrames_of. rewrite countFrames_app_found by exact HG.
      rewrite countFrames_repeat_clear, HGlen. rewrite size_sub_small by lia. lia.
    - apply firstn_app_exact. lia. }
  destruct (LocationInfoMode_eqb mode FULL_WITH_INLINE && (addrCount st <? N)) eqn:Hinl.
  - apply andb_true_iff in Hinl. destruct Hinl as [_ Hlt]. apply Z.ltb_lt in Hlt.
    rewrite (size_sub_small N (addrCount st)) by lia.
    set (maxInline := Z.min (Z.of_nat kMax) (N - addrCount st)).
    assert (HmaxI : 0 <= maxInline <= N - addrCount st) by (subst maxInline; lia).
    assert (HmaxK : maxInline <= Z.of_nat kMax) by (subst maxInline; lia).
    rewrite in_range_intro by lia.
    pose proof (setSymbolizedFrame_slots env elf adjusted mode (Z.to_nat maxInline))
      as Hslots.
    pose proof (setSymbolizedFrame_found env elf adjusted mode (Z.to_nat maxInline))
      as Hfound.
    destruct (setSymbolizedFrame env elf adjusted mode (Z.to_nat maxInline))
      as [[frame inlined] qs].
    cbn [fst snd] in Hslots, Hfound.
    set (ni := Z.to_nat i). set (nac := Z.to_nat (addrCount st)).
    set (M := Z.to_nat maxInline) in *.
    replace (Z.to_nat (addrCount st + maxInline)) with (nac + M)%nat
      by (subst nac M; lia).
    set (fs2 := write_at nac inlined (write_at ni [frame] fs)).
    assert (Hl1 : length (write_at ni [frame] fs) = length fs)
      by (apply length_write_at; cbn [length]; subst ni; lia).
    assert (Hl2 : length fs2 = length fs)
      by (subst fs2; rewrite length_write_at; subst nac M; lia).
    set (nI := countFrames (sublist nac (nac + M) fs2)).
    assert (HnI : (nI <= M)%nat).
    { subst nI. pose proof (countFrames_le (sublist nac (nac + M) fs2)) as H.
      rewrite length_sublist in H; subst nac M; lia. }
    assert (Hfr : nth_error fs2 ni = Some frame).
    { subst fs2. rewrite nth_error_write_at by (subst nac; lia).
      rewrite nth_error_write_at by (subst ni; lia). rewrite nth_error_single.
      cbn [length]. subst ni nac. list_cases; try list_close. }
    assert (HMz : Z.of_nat M = maxInline) by (subst M; lia).
    assert (Hniz : Z.of_nat ni = i) by (subst ni; lia).
    assert (Hnacz : Z.of_nat nac = addrCount st) by (subst nac; lia).
    unfold rotate. rewrite !in_range_intro by (unfold size; lia). cbn [andb].
    replace (Z.to_nat (addrCount st + Z.of_nat nI)) with (nac + nI)%nat by lia.
    fold ni nac.
    set (fs3 := firstn ni fs2 ++ sublist nac (nac + nI) fs2 ++ sublist ni nac fs2
                  ++ skipn (nac + nI) fs2).
    assert (Hsz3 : size fs3 = N).
    { unfold size. subst fs3.
      rewrite !length_app, length_firstn, length_skipn, !length_sublist by lia. lia. }
    assert (HG : sublist ni (ni + nI + 1) fs3 = sublist nac (nac + nI) fs2 ++ [frame]).
    { subst fs3. apply group_after_rotate; [lia | lia | exact Hfr]. }
    assert (HGf : Forall (fun f => found f = true) (sublist ni (ni + nI + 1) fs3)).
    { rewrite HG. apply Forall_app. split; [|repeat constructor; exact Hfound].
      replace (sublist nac (nac + nI) fs2)
        with (firstn nI (sublist nac (nac + M) fs2)).
      - apply countFrames_prefix_found.
      - unfold sublist. rewrite firstn_firstn. f_equal. lia. }
    destruct (Hstore fs3 nI Hsz3) as (cf & c' & e & Hcf & Hset & Hlook & Hnum & Hpre);
      [lia | lia | exact HGf |].
    rewrite Hcf. rewrite !size_add_small by lia.
    eexists _, _, c', e. split; [reflexivity|].
    cbn [frames addrCount symbolCache].
    replace (i + Z.of_nat nI - i) with (Z.of_nat nI) by lia.
    replace (Z.to_nat (i + Z.of_nat nI + 1)) with (ni + nI + 1)%nat by lia.
    rewrite Hset.
    repeat split; try assumption; try lia.
  - destruct (setSymbolizedFrame env elf adjusted mode 0) as [[frame inlined] qs] eqn:Hset0.
    pose proof (setSymbolizedFrame_found env elf adjusted mode 0) as Hfound.
    rewrite Hset0 in Hfound. cbn [fst] in Hfound.
    set (ni := Z.to_nat i) in *.
    set (fs3 := write_at ni [frame] fs).
    assert (Hsz3 : size fs3 = N).
    { unfold size. subst fs3. rewrite length_write_at; cbn [length]; subst ni; lia. }
    assert (HG : sublist ni (ni + 0 + 1) fs3 = [frame]).
    { subst fs3. apply nth_error_ext; intro n.
      rewrite nth_error_sublist, nth_error_write_at by (subst ni; lia).
      rewrite !nth_error_single. cbn [length]. list_cases; try list_close. }
    destruct (Hstore fs3 O Hsz3) as (cf & c' & e & Hcf & Hset & Hlook & Hnum & Hpre);
      [lia | lia | rewrite HG; repeat constructor; exact Hfound |].
    change (Z.of_nat 0) with 0 in *. rewrite Hcf.
    change (size_add i 0) with (wrap (i + 0)). rewrite wrap_small by lia.
    eexists _, _, c', e. split; [reflexivity|].
    cbn [frames addrCount symbolCache].
    replace (i + 0 - i) with 0 by lia.
    replace (Z.to_nat (i + 0 + 1)) with (ni + 0 + 1)%nat by (subst ni; lia).
    rewrite Hset.
    repeat split; try assumption; try lia.
    rewrite HG. repeat constructor. exact Hfound.
Qed.

(** A visit whose cache hit fits replays the group without resolving. *)
Lemma visit_replays env mode N lmap elf i st frame c e :
  size (frames st) = N -> N < 2 ^ 64 ->
  0 <= i < addrCount st -> addrCount st <= N ->
  nth_error (frames st) (Z.to_nat i) = Some frame -> found frame = false ->
  symbolCache st = Some c ->
  lru_lookup (addr frame) (lru c) = Some e ->
  numInlineFrames_of e <= N - addrCount st ->
  let m := numInlineFrames_of e in
  exists c',
    visit env mode N lmap elf i st =
      Some (i + m,
            {| frames :=
                 firstn (Z.to_nat i) (frames st)
                   ++ firstn (Z.to_nat (m + 1)) e
                   ++ sublist (Z.to_nat (i + 1)) (Z.to_nat (addrCount st)) (frames st)
                   ++ skipn (Z.to_nat (addrCount st + m)) (frames st);
               addrCount := addrCount st + m;
               remaining := remaining st;
               symbolCache := Some c';
               queries := queries st |}) /\
    lru_lookup (addr frame) (lru c') = Some e /\
    Forall (fun f => found f = true) (firstn (Z.to_nat (m + 1)) e).
Proof.
  intros Hsz HN Hi Hac Hnth Hf Hc Hlook Hfit m.
  unfold visit. rewrite Hnth, Hf, Hc.
  destruct (cache_find_hit _ _ _ Hlook) as (c' & -> & Hl' & _).
  exists c'.
  destruct (replay_cached_layout N i e
              {| frames := frames st; addrCount := addrCount st;
                 remaining := remaining st; symbolCache := Some c';
                 queries := queries st |}) as (Hrun & HF & _); try assumption.
  cbn [frames addrCount remaining symbolCache queries] in Hrun.
  fold m in Hrun, HF. rewrite Hrun. auto.
Qed.

Lemma fresh_S n : fresh (S n) = SymbolizedFrame_clear :: fresh n.
Proof. reflexivity. Qed.

Lemma size_fresh n : size (fresh n) = Z.of_nat n.
Proof. unfold size, fresh. rewrite repeat_length. reflexivity. Qed.



(** Two calls on one address: the second, on a fresh buffer with room
    for the group of the first, replays that group and asks nothing. *)
Lemma single_address_replay env s c a n1 n2 st1 :
  symbolCache_ s = Some c -> (0 < maxSize c)%nat ->
  Z.of_nat n1 < 2 ^ 64 -> Z.of_nat n2 < 2 ^ 64 ->
  symbolize_state env s [a] (fresh n1) = Some st1 ->
  option_map found (hd_error (frames st1)) = Some true ->
  addrCount st1 <= Z.of_nat n2 ->
  let s' := {| mode_ := mode_ s; symbolCache_ := symbolCache st1 |} in
  let g := Z.to_nat (addrCount st1) in
  exists st2,
    symbolize_state env s' [a] (fresh n2) = Some st2 /\
    addrCount st2 = addrCount st1 /\
    firstn g (frames st2) = firstn g (frames st1) /\
    Forall (fun f => found f = true) (firstn g (frames st2)) /\
    skipn g (frames st2) = fresh (n2 - g) /\
    queries st2 = [].
Proof.
  intros Hc Hmax Hn1 Hn2 Hrun1 Hfound Hroom s' g.
  destruct n1 as [|n1]; [discriminate Hrun1|].
  unfold symbolize_state in Hrun1. rewrite fresh_S in Hrun1.
  cbn [length clear_unfound found SymbolizedFrame_clear] in Hrun1.
  change (0 + 1 =? 0) with false in Hrun1. cbv iota in Hrun1.
  destruct (negb (r_version env =? 1)) eqn:Hver.
  { injection Hrun1 as <-. discriminate Hfound. }
  destruct (readlink_self_exe env) as [selfPath|] eqn:Hself.
  2:{ injection Hrun1 as <-. discriminate Hfound. }
  cbn [assign_addrs] in Hrun1. rewrite Hc in Hrun1.
  set (f0 := set_addr SymbolizedFrame_clear a) in *.
  change (size (SymbolizedFrame_clear :: fresh n1)) with (size (f0 :: fresh n1)) in Hrun1.
  assert (HN1 : size (f0 :: fresh n1) < 2 ^ 64).
  { unfold size, fresh. cbn [length]. rewrite repeat_length. lia. }
  destruct (outer_single env (mode_ s) selfPath a f0 (fresh n1) (r_map env) c []
              eq_refl eq_refl HN1 Hmax) as (st' & Hrun & Hcases).
  change (0 + 1) with 1 in Hrun1. change (size [a]) with 1 in Hrun1.
  unfold single_state in Hrun. rewrite Hrun in Hrun1. injection Hrun1 as ->.
  destruct Hcases as [(c' & q' & ->) | (HR & Hopen)]; [discriminate Hfound|].
  destruct HR as (c1 & e & Hc1 & Hlook1 & Hmax1 & Hg & Hsz1 & Hnum & Hge & Hpre & HF).
  (* the second call *)
  assert (Hg1 : (1 <= g)%nat) by (subst g; lia).
  destruct n2 as [|n2]; [lia|].
  unfold symbolize_state. rewrite fresh_S.
  cbn [length clear_unfound found SymbolizedFrame_clear].
  change (0 + 1 =? 0) with false. cbv iota. rewrite Hver, Hself.
  cbn [assign_addrs]. fold f0.
  change (size (SymbolizedFrame_clear :: fresh n2)) with (size (f0 :: fresh n2)).
  assert (HN2 : size (f0 :: fresh n2) = Z.of_nat (S n2)).
  { unfold size, fresh. cbn [length]. rewrite repeat_length. lia. }
  subst s'. cbn [mode_ symbolCache_]. rewrite Hc1.
  change (0 + 1) with 1. change (size [a]) with 1.
  destruct (outer_replay env (mode_ s) selfPath a e f0 (fresh n2) (r_map env) c1
              eq_refl eq_refl) as (c2 & Hrun2); try assumption; try lia.
  unfold single_state in Hrun2. rewrite Hrun2.
  exists (replayed e f0 (fresh n2) c2 []). split; [reflexivity|].
  unfold replayed. cbn [addrCount frames queries].
  replace (numInlineFrames_of e + 1) with (addrCount st1) by lia. fold g.
  assert (Hglen : length (firstn g e) = g).
  { rewrite length_firstn. unfold size in Hge. lia. }
  assert (Hfirst : firstn g (firstn g e ++ skipn g (f0 :: fresh n2)) = firstn g e)
    by (apply firstn_app_exact; lia).
  fold g in Hpre, HF.
  split; [reflexivity|].
  split; [rewrite Hfirst; exact Hpre|].
  split; [rewrite Hfirst, Hpre; exact HF|].
  split; [|reflexivity].
  rewrite skipn_app_exact by lia.
  destruct g as [|g']; [lia|]. cbn [skipn]. rewrite skipn_fresh.
  f_equal.
Qed.

(** ** AddressFormatter *)

Lemma length_hex_render n : forall x, length (hex_render n x) = n.
Proof.
  induction n as [|n IH]; intros x; simpl; [reflexivity|].
  rewrite length_app, IH. simpl. lia.
Qed.

Lemma shiftr4_bound x n : 0 <= x < 16 ^ Z.of_nat (S n) -> 0 <= Z.shiftr x 4 < 16 ^ Z.of_nat n.
Proof.
  intros [H0 H1]. rewrite Z.shiftr_div_pow2 by lia. change (2 ^ 4) with 16.
  rewrite Nat2Z.inj_succ, Z.pow_succ_r in H1 by lia.
  split; [apply Z.div_pos; lia|].
  apply Z.div_lt_upper_bound; lia.
Qed.

Lemma hex_digits_le fuel : forall x, (hex_digits fuel x <= fuel)%nat.
Proof.
  induction fuel as [|fuel IH]; intros x; simpl; [lia|].
  destruct (x =? 0); [lia|]. specialize (IH (Z.shiftr x 4)). lia.
Qed.

Lemma store_some buf p c :
  0 <= p < size buf -> store buf p c = Some (write_at (Z.to_nat p) [c] buf).
Proof.
  intros Hp. unfold store. rewrite in_range_intro by lia. reflexivity.
Qed.

Lemma write_at_snoc {A} (a : nat) (X : list A) (c : A) (buf : list A) :
  (a + length X < length buf)%nat ->
  write_at a X (write_at (a + length X) [c] buf) = write_at a (X ++ [c]) buf.
Proof.
  intros H.
  apply nth_error_ext; intro n.
  rewrite nth_error_write_at
    by (rewrite length_write_at; cbn [length]; lia).
  rewrite nth_error_write_at by lia.
  rewrite nth_error_write_at by lia.
  rewrite nth_error_app, nth_error_single, length_app. cbn [length].
  list_cases; try list_close.
  replace (n - a - length X)%nat with O by lia. reflexivity.
Qed.

(** The loop of [format] writes the significant digits of the address,
    ending at [p], and nothing else. *)
Lemma format_loop_spec fuel : forall x p buf,
  0 <= x < 16 ^ Z.of_nat fuel ->
  Z.of_nat (hex_digits fuel x) <= p + 1 -> p < size buf ->
  format_loop fuel x p buf =
    Some (write_at (Z.to_nat (p + 1) - hex_digits fuel x)
            (hex_render (hex_digits fuel x) x) buf).
Proof.
  induction fuel as [|fuel IH]; intros x p buf Hx Hroom Hp.
  - change (16 ^ Z.of_nat 0) with 1 in Hx. assert (x = 0) by lia. subst x.
    simpl. rewrite write_at_nil. reflexivity.
  - cbn [format_loop hex_digits]. destruct (x =? 0) eqn:Hz.
    + cbn [hex_render]. rewrite write_at_nil. reflexivity.
    + cbn [hex_digits] in Hroom. rewrite Hz in Hroom.
      fold (hex_char x). rewrite store_some by lia.
      pose proof (shiftr4_bound x fuel Hx) as Hx'.
      set (d := hex_digits fuel (Z.shiftr x 4)) in *.
      rewrite IH; try assumption; try lia.
      2:{ unfold size. rewrite length_write_at; [unfold size in Hp; lia|].
          cbn [length]. unfold size in Hp. lia. }
      fold d. cbn [hex_render]. f_equal.
      replace (Z.to_nat (p - 1 + 1) - d)%nat with (Z.to_nat (p + 1) - S d)%nat by lia.
      replace (Z.to_nat p) with ((Z.to_nat (p + 1) - S d)
                                 + length (hex_render d (Z.shiftr x 4)))%nat
        by (rewrite length_hex_render; lia).
      apply write_at_snoc. rewrite length_hex_render. unfold size in Hp. lia.
Qed.

Lemma hex_digits_bound fuel : forall n x,
  0 <= x < 16 ^ Z.of_nat n -> (hex_digits fuel x <= n)%nat.
Proof.
  induction fuel as [|fuel IH]; intros n x Hx; cbn [hex_digits]; [lia|].
  destruct (x =? 0) eqn:Hz; [lia|]. apply Z.eqb_neq in Hz.
  destruct n as [|n]; [change (16 ^ Z.of_nat 0) with 1 in Hx; lia|].
  specialize (IH n (Z.shiftr x 4) (shiftr4_bound x n Hx)). lia.
Qed.

Lemma pow16_mono a b : (a <= b)%nat -> 16 ^ Z.of_nat a <= 16 ^ Z.of_nat b.
Proof. intros H. apply Z.pow_le_mono_r; lia. Qed.

(** [format] on a formatter in any state: the digits of the address and
    the terminator are written, everything else in [buf_] is kept. *)
Lemma format_spec s self x :
  1 <= s <= 8 -> 17 <= size (buf_ self) ->
  0 <= x < 16 ^ (2 * s) ->
  let end_ := Z.to_nat (size (buf_ self) - 1 - (16 - 2 * s)) in
  let d := hex_digits 16 x in
  let buf' := write_at (end_ - d) (hex_render d x ++ [NUL]) (buf_ self) in
  format s self x = Some (firstn end_ buf', {| buf_ := buf' |}) /\
  (d <= Z.to_nat (2 * s))%nat /\ (Z.to_nat (2 * s) <= end_)%nat /\
  length buf' = length (buf_ self).
Proof.
  intros Hs HL Hx end_ d buf'.
  assert (Hd : (d <= Z.to_nat (2 * s))%nat).
  { subst d. apply hex_digits_bound. rewrite Z2Nat.id by lia. exact Hx. }
  assert (Hend : (Z.to_nat (2 * s) <= end_)%nat) by (subst end_; lia).
  assert (Hee : Z.of_nat end_ = Z.of_nat (length (buf_ self)) - 17 + 2 * s)
    by (subst end_; unfold size in *; lia).
  assert (Hx16 : 0 <= x < 16 ^ Z.of_nat 16).
  { split; [lia|]. eapply Z.lt_le_trans; [apply Hx|].
    replace (2 * s) with (Z.of_nat (Z.to_nat (2 * s))) by lia.
    apply pow16_mono. lia. }
  assert (Hlen' : length buf' = length (buf_ self)).
  { subst buf'. apply length_write_at. rewrite length_app, length_hex_render.
    cbn [length]. lia. }
  split; [|auto].
  unfold format.
  set (e := size (buf_ self) - 1 - (16 - 2 * s)).
  assert (He : e = Z.of_nat end_) by (subst e end_; lia).
  rewrite store_some by lia.
  rewrite format_loop_spec; try assumption.
  2:{ fold d. lia. }
  2:{ unfold size. rewrite length_write_at; [unfold size in *; lia|].
      cbn [length]. unfold size in *. lia. }
  fold d.
  replace (Z.to_nat (e - 1 + 1) - d)%nat with (end_ - d)%nat by lia.
  replace (Z.to_nat e) with ((end_ - d) + length (hex_render d x))%nat
    by (rewrite length_hex_render; lia).
  rewrite write_at_snoc by (rewrite length_hex_render; unfold size in *; lia).
  fold buf'. rewrite in_range_intro; [|lia|lia|unfold size; rewrite Hlen'; unfold size in *; lia].
  rewrite length_hex_render. replace (end_ - d + d)%nat with end_ by lia.
  reflexivity.
Qed.

Lemma hex_char_zero : hex_char 0 = "0"%char.
Proof. reflexivity. Qed.

Lemma hex_render_zero n : hex_render n 0 = repeat "0"%char n.
Proof.
  induction n as [|n IH]; [reflexivity|].
  cbn [hex_render]. change (Z.shiftr 0 4) with 0. rewrite IH, hex_char_zero.
  symmetry. change (repeat "0"%char (S n)) with ("0"%char :: repeat "0"%char n).
  apply repeat_cons.
Qed.

Lemma hex_render_pad fuel : forall n x,
  0 <= x < 16 ^ Z.of_nat fuel -> (hex_digits fuel x <= n)%nat ->
  hex_render n x =
    repeat "0"%char (n - hex_digits fuel x) ++ hex_render (hex_digits fuel x) x.
Proof.
  induction fuel as [|fuel IH]; intros n x Hx Hd.
  - change (16 ^ Z.of_nat 0) with 1 in Hx. assert (x = 0) by lia. subst x.
    cbn [hex_digits hex_render]. rewrite app_nil_r, Nat.sub_0_r. apply hex_render_zero.
  - cbn [hex_digits] in *. destruct (x =? 0) eqn:Hz.
    + apply Z.eqb_eq in Hz. subst x.
      cbn [hex_render]. rewrite app_nil_r, Nat.sub_0_r. apply hex_render_zero.
    + destruct n as [|n]; [lia|]. cbn [hex_render].
      rewrite (IH n (Z.shiftr x 4)) by (try apply shiftr4_bound; lia || assumption).
      rewrite <- app_assoc. reflexivity.
Qed.

Lemma parse_hex_from_app l r : forall acc,
  parse_hex_from acc (l ++ r) =
    match parse_hex_from acc l with
    | Some v => parse_hex_from v r
    | None => None
    end.
Proof.
  induction l as [|c l IH]; intros acc; cbn [app parse_hex_from]; [reflexivity|].
  destruct (index_of c kHexChars); [apply IH | reflexivity].
Qed.

Lemma index_of_hex_char x :
  index_of (hex_char x) kHexChars = Some (x mod 16).
Proof.
  unfold hex_char. change 15 with (Z.ones 4). rewrite Z.land_ones by lia.
  change (2 ^ 4) with 16.
  pose proof (Z.mod_pos_bound x 16 eq_refl) as Hb.
  set (k := x mod 16) in *. clearbody k.
  assert (Hk : k = Z.of_nat (Z.to_nat k)) by lia. rewrite Hk at 2.
  assert (Hn : (Z.to_nat k < 16)%nat) by lia.
  generalize dependent (Z.to_nat k). intros n _ Hn.
  do 16 (destruct n as [|n]; [reflexivity|]). lia.
Qed.

Lemma parse_hex_from_render n : forall x acc,
  0 <= x ->
  parse_hex_from acc (hex_render n x) =
    Some (acc * 16 ^ Z.of_nat n + x mod 16 ^ Z.of_nat n).
Proof.
  induction n as [|n IH]; intros x acc Hx.
  - cbn [hex_render parse_hex_from]. change (16 ^ Z.of_nat 0) with 1.
    rewrite Z.mod_1_r. f_equal. lia.
  - cbn [hex_render]. rewrite parse_hex_from_app.
    rewrite IH by (rewrite Z.shiftr_div_pow2 by lia; apply Z.div_pos; lia).
    cbn [parse_hex_from]. rewrite index_of_hex_char. f_equal.
    rewrite Z.shiftr_div_pow2 by lia. change (2 ^ 4) with 16.
    rewrite Nat2Z.inj_succ, Z.pow_succ_r by lia.
    rewrite (Z.rem_mul_r x 16 (16 ^ Z.of_nat n)) by lia. lia.
Qed.

Lemma view_after_write (buf X : list ascii) (e d : nat) :
  (d <= e)%nat -> (e < length buf)%nat -> length X = d ->
  firstn e (write_at (e - d) (X ++ [NUL]) buf) = firstn (e - d) buf ++ X.
Proof.
  intros Hd He HX.
  apply nth_error_ext; intro n.
  rewrite nth_error_firstn.
  rewrite nth_error_write_at by lia.
  rewrite !nth_error_app, nth_error_firstn, nth_error_single.
  rewrite length_app, length_firstn. cbn [length].
  list_cases; try list_close.
Qed.

(** The view after a call, for a formatter in any state. *)
Lemma format_view s self x :
  1 <= s <= 8 -> 17 <= size (buf_ self) ->
  0 <= x < 16 ^ (2 * s) ->
  let end_ := Z.to_nat (size (buf_ self) - 1 - (16 - 2 * s)) in
  let d := hex_digits 16 x in
  exists self',
    format s self x = Some (firstn (end_ - d) (buf_ self) ++ hex_render d x, self') /\
    buf_ self' = write_at (end_ - d) (hex_render d x ++ [NUL]) (buf_ self) /\
    length (buf_ self') = length (buf_ self).
Proof.
  intros Hs HL Hx end_ d.
  destruct (format_spec s self x Hs HL Hx) as (Hf & Hd & Hend & Hlen).
  fold end_ d in Hf, Hd, Hend, Hlen.
  assert (Hee : Z.of_nat end_ = Z.of_nat (length (buf_ self)) - 17 + 2 * s)
    by (subst end_; unfold size in *; lia).
  rewrite view_after_write in Hf; [| lia | lia | apply length_hex_render].
  eexists. split; [exact Hf|]. split; [reflexivity | exact Hlen].
Qed.

Lemma size_new_zero_template prefix :
  size (buf_ (AddressFormatter_new (zero_template prefix)))
  = Z.of_nat (length prefix) + 17.
Proof.
  unfold AddressFormatter_new, zero_template, size. cbn [buf_].
  rewrite !length_app, repeat_length. cbn [length]. lia.
Qed.

Lemma firstn_zero_template prefix w :
  (w <= 16)%nat ->
  firstn (length prefix + w) (buf_ (AddressFormatter_new (zero_template prefix)))
  = prefix ++ repeat "0"%char w.
Proof.
  intros Hw. unfold AddressFormatter_new, zero_template. cbn [buf_].
  rewrite <- app_assoc. rewrite firstn_app_2. f_equal.
  rewrite firstn_app, repeat_length.
  replace (w - 16)%nat with O by lia. cbn [firstn]. rewrite app_nil_r.
  replace 16%nat with (w + (16 - w))%nat at 1 by lia.
  rewrite repeat_app. apply firstn_app_exact. rewrite repeat_length. reflexivity.
Qed.

(** On a freshly constructed formatter the view is the prefix and the
    address in [2 * sizeof(uintptr_t)] zero-padded lowercase digits, and
    reading the digits back gives the address. *)
Lemma format_fresh s prefix x :
  1 <= s <= 8 -> 0 <= x < 16 ^ (2 * s) ->
  let w := Z.to_nat (2 * s) in
  exists self',
    format s (AddressFormatter_new (zero_template prefix)) x
      = Some (prefix ++ hex_render w x, self') /\
    hex_render w x
      = repeat "0"%char (w - hex_digits 16 x) ++ hex_render (hex_digits 16 x) x /\
    parse_hex (hex_render w x) = Some x /\
    length (buf_ self') = (length prefix + 17)%nat.
Proof.
  intros Hs Hx w.
  pose proof (size_new_zero_template prefix) as Hsz.
  destruct (format_view s (AddressFormatter_new (zero_template prefix)) x Hs)
    as (self' & Hf & _ & Hlen); [lia | exact Hx |].
  assert (Hd : (hex_digits 16 x <= w)%nat).
  { apply hex_digits_bound. subst w. rewrite Z2Nat.id by lia. exact Hx. }
  assert (Hx16 : 0 <= x < 16 ^ Z.of_nat 16).
  { split; [lia|]. eapply Z.lt_le_trans; [apply Hx|].
    replace (2 * s) with (Z.of_nat w) by (subst w; lia).
    apply pow16_mono. subst w. lia. }
  pose proof (hex_render_pad 16 w x Hx16 Hd) as Hpad.
  rewrite Hsz in Hf.
  replace (Z.to_nat (Z.of_nat (length prefix) + 17 - 1 - (16 - 2 * s))
           - hex_digits 16 x)%nat
    with (length prefix + (w - hex_digits 16 x))%nat in Hf by (subst w; lia).
  rewrite firstn_zero_template in Hf by (subst w; lia).
  rewrite <- app_assoc, <- Hpad in Hf.
  exists self'. split; [exact Hf|]. split; [exact Hpad|]. split.
  - unfold parse_hex. rewrite parse_hex_from_render by lia.
    f_equal. rewrite Z.mod_small; [lia|].
    subst w. rewrite Z2Nat.id by lia. exact Hx.
  - rewrite Hlen. unfold size in Hsz. lia.
Qed.

Lemma print_addresses_format_all s : forall addresses formatter p,
  print_addresses s formatter addresses p =
    match format_all s formatter addresses with
    | None => None
    | Some texts => Some (fold_left (fun p t => doPrint [LF] (doPrint t p)) texts p)
    end.
Proof.
  induction addresses as [|a rest IH]; intros formatter p; cbn [print_addresses format_all].
  - reflexivity.
  - destruct (format s formatter a) as [[text formatter']|]; [|reflexivity].
    rewrite IH. destruct (format_all s formatter' rest); reflexivity.
Qed.

Lemma firstn_write_mid (buf X : list ascii) (a k : nat) :
  (a + length X < length buf)%nat -> (k <= length X)%nat ->
  firstn (a + k) (write_at a (X ++ [NUL]) buf) = firstn a buf ++ firstn k X.
Proof.
  intros Ha Hk.
  apply nth_error_ext; intro n.
  rewrite nth_error_firstn.
  rewrite nth_error_write_at by lia.
  rewrite !nth_error_app, !nth_error_firstn, nth_error_single.
  rewrite length_app, length_firstn. cbn [length].
  list_cases; try list_close.
Qed.

Lemma two_calls_view s prefix x1 x2 :
  1 <= s <= 8 -> 0 <= x1 < 16 ^ (2 * s) -> 0 <= x2 < 16 ^ (2 * s) ->
  (hex_digits 16 x2 <= hex_digits 16 x1)%nat ->
  let w := Z.to_nat (2 * s) in
  let d1 := hex_digits 16 x1 in
  let d2 := hex_digits 16 x2 in
  exists view1 self1 self2,
    format s (AddressFormatter_new (zero_template prefix)) x1 = Some (view1, self1) /\
    format s self1 x2 =
      Some (prefix ++ repeat "0"%char (w - d1)
              ++ firstn (d1 - d2) (hex_render d1 x1) ++ hex_render d2 x2,
            self2).
Proof.
  intros Hs Hx1 Hx2 Hle w d1 d2.
  pose proof (size_new_zero_template prefix) as Hsz.
  assert (Hd1 : (d1 <= w)%nat).
  { apply hex_digits_bound. subst w. rewrite Z2Nat.id by lia. exact Hx1. }
  destruct (format_view s (AddressFormatter_new (zero_template prefix)) x1 Hs)
    as (self1 & Hf1 & Hb1 & Hlen1); [lia | exact Hx1 |].
  assert (Hsz1 : size (buf_ self1) = Z.of_nat (length prefix) + 17)
    by (unfold size in *; lia).
  destruct (format_view s self1 x2 Hs) as (self2 & Hf2 & _ & _);
    [lia | exact Hx2 |].
  eexists _, self1, self2. split; [exact Hf1|].
  rewrite Hf2. f_equal. f_equal.
  fold d1 in Hb1. fold d2. rewrite Hsz1, Hb1, Hsz.
  replace (Z.to_nat (Z.of_nat (length prefix) + 17 - 1 - (16 - 2 * s)))
    with (length prefix + w)%nat by (subst w; lia).
  change (d2 <= d1)%nat in Hle.
  assert (Hw : (w <= 16)%nat) by (subst w; lia).
  clearbody w d1 d2. clear Hf1 Hf2 Hb1 Hlen1 Hsz1 Hsz Hx1 Hx2.
  replace (length prefix + w - d2)%nat
    with ((length prefix + w - d1) + (d1 - d2))%nat by lia.
  rewrite firstn_write_mid.
  - replace (length prefix + w - d1)%nat with (length prefix + (w - d1))%nat by lia.
    rewrite firstn_zero_template by lia. rewrite <- !app_assoc. reflexivity.
  - rewrite length_hex_render. unfold AddressFormatter_new, zero_template.
    cbn [buf_]. rewrite !length_app, repeat_length. cbn [length]. lia.
  - rewrite length_hex_render. lia.
Qed.

(** C10.  [buf_] is set from the template by the constructor and by
    nothing else: a call of [format] writes the significant digits of its
    address and the terminator, and keeps every other character.  So the
    first call on a new formatter gives a fully zero-padded view, while a
    later call for an address with fewer digits shows the higher digits
    of the earlier address in front of its own; and the address-only loop
    of [printStackTrace] formats every frame with one formatter. *)
Theorem C10_formatter_keeps_stale_digits :
  (forall bufTemplate, buf_ (AddressFormatter_new bufTemplate) = bufTemplate ++ [NUL]) /\
  (forall s self x,
      1 <= s <= 8 -> 17 <= size (buf_ self) -> 0 <= x < 16 ^ (2 * s) ->
      let end_ := Z.to_nat (size (buf_ self) - 1 - (16 - 2 * s)) in
      let d := hex_digits 16 x in
      exists self',
        format s self x = Some (firstn (end_ - d) (buf_ self) ++ hex_render d x, self') /\
        buf_ self' = write_at (end_ - d) (hex_render d x ++ [NUL]) (buf_ self)) /\
  (forall s prefix x,
      1 <= s <= 8 -> 0 <= x < 16 ^ (2 * s) ->
      let w := Z.to_nat (2 * s) in
      let d := hex_digits 16 x in
      exists self',
        format s (AddressFormatter_new (zero_template prefix)) x
          = Some (prefix ++ repeat "0"%char (w - d) ++ hex_render d x, self')) /\
  (forall s prefix x1 x2,
      1 <= s <= 8 -> 0 <= x1 < 16 ^ (2 * s) -> 0 <= x2 < 16 ^ (2 * s) ->
      (hex_digits 16 x2 <= hex_digits 16 x1)%nat ->
      let w := Z.to_nat (2 * s) in
      let d1 := hex_digits 16 x1 in
      let d2 := hex_digits 16 x2 in
      exists view1 self1 self2,
        format s (AddressFormatter_new (zero_template prefix)) x1 = Some (view1, self1) /\
        format s self1 x2 =
          Some (prefix ++ repeat "0"%char (w - d1)
                  ++ firstn (d1 - d2) (hex_render d1 x1) ++ hex_render d2 x2,
                self2)) /\
  (forall s bufTemplate addresses p,
      print_addresses s (AddressFormatter_new bufTemplate) addresses p =
        match format_all s (AddressFormatter_new bufTemplate) addresses with
        | None => None
        | Some texts =>
            Some (fold_left (fun p t => doPrint [LF] (doPrint t p)) texts p)
        end) /\
  option_map (fun p => written (fd_ p))
    (printStackTrace 8 demo_template (Some [0xfff; 0x1]) [] false demo_printer)
  = Some (bytes "(safe mode, symbolizer not available)" ++ [LF]
            ++ bytes "0x0000000000000fff" ++ [LF]
            ++ bytes "0x0000000000000ff1" ++ [LF]).
Proof.
  split; [reflexivity|].
  split.
  { intros s self x Hs HL Hx end_ d.
    destruct (format_view s self x Hs HL Hx) as (self' & Hf & Hb & _).
    exists self'. split; assumption. }
  split.
  { intros s prefix x Hs Hx w d.
    destruct (format_fresh s prefix x Hs Hx) as (self' & Hf & Hpad & _).
    exists self'. fold w d in Hpad. rewrite <- Hpad. exact Hf. }
  split; [exact two_calls_view|].
  split; [intros; apply print_addresses_format_all|].
  vm_compute. reflexivity.
Qed.

(** C6 (the defect).  One formatter used for [0xfff] and then for [0x1],
    as the address-only loop of [printStackTrace] uses it: the second
    view is [0x0000000000000ff1], which reads back as [0xff1], not as the
    address formatted. *)
Theorem C6_reused_formatter_breaks_round_trip :
  exists view1 self1 view2 self2,
    format 8 (AddressFormatter_new demo_template) 0xfff = Some (view1, self1) /\
    format 8 self1 0x1 = Some (view2, self2) /\
    view1 = bytes "0x0000000000000fff" /\
    view2 = bytes "0x0000000000000ff1" /\
    parse_hex (skipn 2 view2) = Some 0xff1 /\
    parse_hex (skipn 2 view2) <> Some 0x1.
Proof.
  eexists _, _, _, _.
  split; [vm_compute; reflexivity|].
  split; [vm_compute; reflexivity|].
  split; [reflexivity|]. split; [reflexivity|].
  split; [vm_compute; reflexivity|].
  vm_compute. discriminate.
Qed.

(** ** The buffered printer *)

Lemma written_app a b : written (a ++ b) = written a ++ written b.
Proof.
  induction a as [|ev a IH]; [reflexivity|].
  destruct ev; cbn [app written]; rewrite IH; [rewrite app_assoc|]; reflexivity.
Qed.

Lemma flush_printed p :
  written (fd_ (FDSymbolizePrinter_flush p)) = printed p /\
  pending (FDSymbolizePrinter_flush p) = [].
Proof.
  unfold FDSymbolizePrinter_flush, printed, pending.
  destruct p as [[[cap d]|] fd]; cbn [buffer_ fd_ data capacity].
  - destruct d as [|c d]; cbn [buffer_ fd_ data].
    + rewrite app_nil_r. auto.
    + rewrite written_app. cbn [written]. rewrite app_nil_r. auto.
  - rewrite app_nil_r. auto.
Qed.

Lemma doPrint_printed sp p : printed (doPrint sp p) = printed p ++ sp.
Proof.
  unfold doPrint.
  destruct (buffer_ p) as [b|] eqn:Hb.
  - destruct (tailroom b <? size sp).
    + destruct (flush_printed p) as [Hw Hp].
      unfold printed at 1, pending. cbn [buffer_ fd_].
      fold (pending (FDSymbolizePrinter_flush p)). rewrite Hp, app_nil_r.
      rewrite written_app, Hw. cbn [written]. rewrite app_nil_r. reflexivity.
    + unfold printed, pending. cbn [buffer_ fd_ data]. rewrite Hb.
      rewrite app_assoc. reflexivity.
  - unfold printed, pending. cbn [buffer_ fd_]. rewrite Hb.
    rewrite written_app. cbn [written]. rewrite !app_nil_r. reflexivity.
Qed.

Lemma SafeStackTracePrinter_flush_spec p :
  written (fd_ (SafeStackTracePrinter_flush p)) = printed p /\
  pending (SafeStackTracePrinter_flush p) = [] /\
  synced (SafeStackTracePrinter_flush p).
Proof.
  destruct (flush_printed p) as [Hw Hp].
  unfold SafeStackTracePrinter_flush, synced. cbn [fd_ buffer_].
  split; [|split].
  - rewrite written_app, Hw. cbn [written]. apply app_nil_r.
  - exact Hp.
  - eexists. reflexivity.
Qed.

Lemma fold_doPrint_printed texts : forall p,
  printed (fold_left (fun p text => doPrint text p) texts p)
  = printed p ++ concat texts.
Proof.
  induction texts as [|t texts IH]; intros p; cbn [fold_left concat].
  - symmetry. apply app_nil_r.
  - rewrite IH, doPrint_printed, <- app_assoc. reflexivity.
Qed.

Lemma fold_lines_printed texts : forall p,
  printed (fold_left (fun p t => doPrint [LF] (doPrint t p)) texts p)
  = printed p ++ concat (map (fun t => t ++ [LF]) texts).
Proof.
  induction texts as [|t texts IH]; intros p; cbn [fold_left concat map].
  - symmetry. apply app_nil_r.
  - rewrite IH, !doPrint_printed, <- !app_assoc. reflexivity.
Qed.

(** Every call of [format] on one formatter succeeds for addresses of
    the platform's width, and each view ends with the digits of its
    address. *)
Lemma format_all_spec s : forall addresses formatter,
  1 <= s <= 8 -> 17 <= size (buf_ formatter) ->
  Forall (fun a => 0 <= a < 16 ^ (2 * s)) addresses ->
  exists texts,
    format_all s formatter addresses = Some texts /\
    Forall2 (fun a t =>
               size t = size (buf_ formatter) - 17 + 2 * s /\
               exists front, t = front ++ hex_render (hex_digits 16 a) a)
            addresses texts.
Proof.
  induction addresses as [|a rest IH]; intros formatter Hs HL Hall.
  - exists []. split; [reflexivity | constructor].
  - inversion Hall as [|? ? Ha Hrest]; subst.
    destruct (format_view s formatter a Hs HL Ha) as (self' & Hf & _ & Hlen).
    destruct (format_spec s formatter a Hs HL Ha) as (_ & Hd & Hend & _).
    destruct (IH self' Hs) as (texts & Hall' & HF2);
      [unfold size in *; lia | exact Hrest |].
    cbn [format_all]. rewrite Hf, Hall'.
    eexists. split; [reflexivity|].
    constructor.
    + split; [|eexists; reflexivity].
      unfold size. rewrite length_app, length_firstn, length_hex_render.
      unfold size in *. lia.
    + replace (size (buf_ formatter)) with (size (buf_ self'))
        by (unfold size; lia).
      exact HF2.
Qed.

(** [printStackTrace] adds to what was printed before: exactly the
    error literal when the capture failed; exactly the safe-mode notice
    followed by one line per captured address, each line a view returned
    by [format] on the one formatter of the loop (ending with the digits
    of its address), when the capture succeeded and [symbolize] is
    false; exactly what [printSymbolizedStackTrace] prints otherwise.
    In every case the buffer is empty and the descriptor synced when the
    call returns. *)
Lemma printStackTrace_output s bufTemplate symbolized p :
  (forall symbolize,
      exists r,
        printStackTrace s bufTemplate None symbolized symbolize p = Some r /\
        written (fd_ r)
          = printed p ++ bytes "(error retrieving stack trace)" ++ [LF] /\
        pending r = [] /\ synced r) /\
  (forall prefix addresses,
      bufTemplate = zero_template prefix -> 1 <= s <= 8 ->
      Forall (fun a => 0 <= a < 16 ^ (2 * s)) addresses ->
      exists r texts,
        printStackTrace s bufTemplate (Some addresses) symbolized false p = Some r /\
        format_all s (AddressFormatter_new bufTemplate) addresses = Some texts /\
        Forall2 (fun a t =>
                   size t = size prefix + 2 * s /\
                   exists front, t = front ++ hex_render (hex_digits 16 a) a)
                addresses texts /\
        written (fd_ r)
          = printed p ++ (bytes "(safe mode, symbolizer not available)" ++ [LF])
              ++ concat (map (fun t => t ++ [LF]) texts) /\
        pending r = [] /\ synced r) /\
  (forall addresses,
      exists r,
        printStackTrace s bufTemplate (Some addresses) symbolized true p = Some r /\
        written (fd_ r) = printed p ++ concat symbolized /\
        pending r = [] /\ synced r).
Proof.
  split; [|split].
  - intros symbolize. unfold printStackTrace.
    eexists. split; [reflexivity|].
    destruct (SafeStackTracePrinter_flush_spec
                (doPrint (bytes "(error retrieving stack trace)" ++ [LF]) p))
      as (Hw & Hp & Hs).
    rewrite Hw, doPrint_printed. auto.
  - intros prefix addresses -> Hs Hall. unfold printStackTrace.
    rewrite print_addresses_format_all.
    pose proof (size_new_zero_template prefix) as Hsz.
    destruct (format_all_spec s addresses (AddressFormatter_new (zero_template prefix)) Hs)
      as (texts & Hfa & HF2); [lia | exact Hall |].
    rewrite Hfa.
    eexists _, texts. split; [reflexivity|]. split; [reflexivity|].
    split.
    { rewrite Hsz in HF2. unfold size at 2.
      replace (Z.of_nat (length prefix) + 17 - 17 + 2 * s)
        with (Z.of_nat (length prefix) + 2 * s) in HF2 by lia.
      exact HF2. }
    match goal with
    | |- context [SafeStackTracePrinter_flush ?q] =>
        destruct (SafeStackTracePrinter_flush_spec q) as (Hw & Hp & Hsy)
    end.
    rewrite Hw, fold_lines_printed, doPrint_printed, <- !app_assoc. auto.
  - intros addresses. unfold printStackTrace.
    eexists. split; [reflexivity|].
    match goal with
    | |- context [SafeStackTracePrinter_flush ?q] =>
        destruct (SafeStackTracePrinter_flush_spec q) as (Hw & Hp & Hsy)
    end.
    rewrite Hw, fold_doPrint_printed. auto.
Qed.

(** ** The alternate stack *)

Lemma upperBound_facts ps :
  0 < ps -> 2 * ps < kMmapStackSize ->
  2 * ps <= upperBound_of ps /\
  upperBound_of ps <= kMmapStackSize - 1 /\
  kMmapStackSize - upperBound_of ps <= ps.
Proof.
  intros Hps Hfit. unfold upperBound_of.
  pose proof (Z.mul_div_le (kMmapStackSize - 1) ps Hps) as Hle.
  pose proof (Z.mul_succ_div_gt (kMmapStackSize - 1) ps Hps) as Hgt.
  assert (H2 : 2 <= (kMmapStackSize - 1) / ps).
  { apply Z.div_le_lower_bound; lia. }
  set (q := (kMmapStackSize - 1) / ps) in *. clearbody q.
  unfold kMmapStackSize in *. nia.
Qed.

(** The outcomes of [allocateStack] for a positive page size. *)
Lemma allocateStack_cases os uc ps :
  0 < ps < 2 ^ 63 ->
  let p := mmap_result os in
  let ub := upperBound_of ps in
  let top := wrap (p + ub) in
  exists calls,
    (allocateStack os uc ps = Some (0, uc, [], calls) /\
     (p = 0 \/ kMmapStackSize <= 2 * ps \/ mprotect_ok os p ps = false))
    \/
    (allocateStack os uc ps = Some (0, uc, [(p, ps)], calls) /\
     p <> 0 /\ 2 * ps < kMmapStackSize /\ mprotect_ok os p ps = true /\
     mprotect_ok os top (kMmapStackSize - ub) = false)
    \/
    (allocateStack os uc ps =
       Some (p, {| ss_sp := wrap (p + ps); ss_size := ub - ps; ss_flags := 0 |},
             [(p, ps); (top, kMmapStackSize - ub)], calls) /\
     p <> 0 /\ 2 * ps < kMmapStackSize /\ mprotect_ok os p ps = true /\
     mprotect_ok os top (kMmapStackSize - ub) = true).
Proof.
  intros Hps p ub top. unfold allocateStack. fold p.
  destruct (p =? 0) eqn:Hp0.
  { apply Z.eqb_eq in Hp0. eexists. left. split; [reflexivity | auto]. }
  apply Z.eqb_neq in Hp0.
  rewrite (wrap_small (ps * 2)) by lia.
  destruct (kMmapStackSize <=? ps * 2) eqn:Hfit.
  { apply Z.leb_le in Hfit. eexists. left. split; [reflexivity|]. right. left. lia. }
  apply Z.leb_gt in Hfit.
  replace (ps =? 0) with false by (symmetry; apply Z.eqb_neq; lia).
  fold (upperBound_of ps). fold ub.
  destruct (upperBound_facts ps) as (Hub2 & Hub1 & Hub3); [lia | lia |].
  fold ub in Hub1, Hub2, Hub3.
  assert (Hk : kMmapStackSize < 2 ^ 64) by (unfold kMmapStackSize; lia).
  rewrite (wrap_small ub) by lia. fold top.
  rewrite (size_sub_small kMmapStackSize ub) by lia.
  rewrite (size_sub_small ub ps) by lia.
  destruct (mprotect_ok os p ps) eqn:Hm1; cbn [negb].
  2:{ eexists. left. split; [reflexivity | auto]. }
  destruct (mprotect_ok os top (kMmapStackSize - ub)) eqn:Hm2; cbn [negb].
  - eexists. right. right. split; [reflexivity|]. repeat split; auto; lia.
  - eexists. right. left. split; [reflexivity|]. repeat split; auto; lia.
Qed.

(** C8.  The alternate stack and its guards.  When the printing runs on
    the mapped region [p .. p + kMmapStackSize), the first page and the
    region from [upperBound] to the end of the mapping have been made
    inaccessible and the stack handed to the context is exactly what lies
    between them, so it is not empty and overlaps neither.  When [mmap]
    returns null, the guards do not fit, a protection call fails (as it
    does on [MAP_FAILED], which the kernel rejects), or a context call
    fails, nothing is printed. *)
Theorem C8_guarded_alternate_stack os pageSizeUnchecked_ symbolized :
  - 2 ^ 63 <= pageSizeUnchecked_ < 2 ^ 63 ->
  let p := mmap_result os in
  let ub := upperBound_of pageSizeUnchecked_ in
  exists att,
    printSymbolizedStackTrace os pageSizeUnchecked_ symbolized = Some att /\
    (ran_on att = None -> output att = []) /\
    (pageSizeUnchecked_ <= 0 \/ getcontext_ok os = false \/ p = 0 \/
     kMmapStackSize <= 2 * pageSizeUnchecked_ \/
     mprotect_ok os p pageSizeUnchecked_ = false \/
     mprotect_ok os (wrap (p + ub)) (kMmapStackSize - ub) = false \/
     swapcontext_ok os = false ->
     ran_on att = None /\ output att = []) /\
    (p = MAP_FAILED -> mprotect_ok os MAP_FAILED pageSizeUnchecked_ = false ->
     ran_on att = None /\ output att = []) /\
    (forall stack,
        ran_on att = Some stack -> p + kMmapStackSize <= 2 ^ 64 -> 0 <= p ->
        output att = symbolized /\
        guards att = [(p, pageSizeUnchecked_); (p + ub, kMmapStackSize - ub)] /\
        ss_sp stack = p + pageSizeUnchecked_ /\
        ss_sp stack + ss_size stack = p + ub /\
        0 < ss_size stack /\
        0 < pageSizeUnchecked_ /\
        0 < kMmapStackSize - ub <= pageSizeUnchecked_ /\
        (p + ub) + (kMmapStackSize - ub) = p + kMmapStackSize).
Proof.
  intros Hlong p ub. unfold printSymbolizedStackTrace.
  destruct (pageSizeUnchecked_ <=? 0) eqn:Hpos.
  { eexists. split; [reflexivity|]. cbn [no_attempt ran_on output].
    repeat split; auto; discriminate. }
  apply Z.leb_gt in Hpos.
  destruct (getcontext_ok os) eqn:Hget; cbn [negb].
  2:{ eexists. split; [reflexivity|]. cbn [no_attempt ran_on output].
      repeat split; auto; discriminate. }
  rewrite (wrap_small pageSizeUnchecked_) by lia.
  destruct (allocateStack_cases os {| ss_sp := 0; ss_size := 0; ss_flags := 0 |}
              pageSizeUnchecked_) as (calls & Hcases); [lia|].
  fold p ub in Hcases.
  destruct Hcases as [(-> & Hwhy) | [(-> & Hp0 & Hfit & Hm1 & Hm2) | (-> & Hp0 & Hfit & Hm1 & Hm2)]].
  - change (0 =? 0) with true. cbv iota.
    eexists. split; [reflexivity|]. cbn [no_attempt ran_on output].
    repeat split; auto; discriminate.
  - change (0 =? 0) with true. cbv iota.
    eexists. split; [reflexivity|]. cbn [no_attempt ran_on output].
    repeat split; auto; discriminate.
  - replace (p =? 0) with false by (symmetry; apply Z.eqb_neq; exact Hp0).
    destruct (swapcontext_ok os) eqn:Hswap; cbn [negb].
    2:{ eexists. split; [reflexivity|]. cbn [no_attempt ran_on output].
        repeat split; auto; discriminate. }
    eexists. split; [reflexivity|]. cbn [ran_on output guards].
    destruct (upperBound_facts pageSizeUnchecked_) as (Hub2 & Hub1 & Hub3); [lia | lia |].
    fold ub in Hub1, Hub2, Hub3.
    split; [discriminate|]. split; [|split].
    + intros [H | [H | [H | [H | [H | [H | H]]]]]]; try lia; congruence.
    + intros HF Hrej. rewrite HF in Hm1. congruence.
    + intros stack Hst Hrange Hp. injection Hst as <-. cbn [ss_sp ss_size].
      assert (Hk : kMmapStackSize = 1048576) by reflexivity.
      rewrite !wrap_small by lia.
      repeat split; lia.
Qed.

(** ** Calling [symbolize] again on the same buffer *)

Lemma clear_unfound_all_found n : forall fs,
  (n <= length fs)%nat ->
  Forall (fun f => found f = true) (firstn n fs) ->
  clear_unfound n fs = Some (0, fs).
Proof.
  induction n as [|n IH]; intros fs Hn HF; [reflexivity|].
  destruct fs as [|frame rest]; [simpl in Hn; lia|].
  cbn [firstn] in HF. inversion HF as [|? ? Hf Hrest]; subst.
  cbn [clear_unfound]. rewrite IH; [rewrite Hf; reflexivity | simpl in Hn; lia | exact Hrest].
Qed.

(** When every frame that belongs to an address is already found, the
    call changes nothing and asks nothing. *)
Lemma symbolize_all_found env s addrs fs :
  (length addrs <= length fs)%nat ->
  Forall (fun f => found f = true) (firstn (length addrs) fs) ->
  symbolize env s addrs fs = Some (fs, s, []).
Proof.
  intros Hlen HF. unfold symbolize, symbolize_state.
  rewrite clear_unfound_all_found by assumption.
  change (0 =? 0) with true. cbv iota. cbn [frames symbolCache queries].
  rewrite Symbolizer_eta. reflexivity.
Qed.

(** C4 (the defect).  Two addresses, the first inside a shared library
    loaded at a non-zero base and the second in no object.  The first
    call resolves frame 0 and stores the object-relative address [0x1100]
    in it.  The second call, on the same buffer with the flags left as
    they are, finds frame 1 unresolved, goes on, and overwrites the
    address of the resolved frame 0 with the raw [0x7f0000001100]: the
    buffer after two calls differs from the buffer after one. *)
Theorem C4_second_call_changes_found_frame :
  exists fs1 s1 q1 fs2 s2 q2,
    symbolize demo_env (Symbolizer_new FULL 0) demo_addrs (fresh 2)
      = Some (fs1, s1, q1) /\
    symbolize demo_env s1 demo_addrs fs1 = Some (fs2, s2, q2) /\
    map found fs1 = [true; false] /\
    map found fs2 = [true; false] /\
    map addr fs1 = [0x1100; 0x10] /\
    map addr fs2 = [0x7f0000001100; 0x10] /\
    fs2 <> fs1.
Proof.
  eexists _, _, _, _, _, _.
  split; [vm_compute; reflexivity|].
  split; [vm_compute; reflexivity|].
  repeat (split; [reflexivity|]).
  intros H. discriminate H.
Qed.

(** ** Concrete runs *)

(** Closed comparisons of numerals. *)
Ltac zdec :=
  vm_compute; repeat split;
  first [reflexivity | discriminate | (intro; discriminate) | lia].

Lemma C5_witness :
  ((length [0x401000]%Z <= length (fresh 1))%nat /\
   (r_version demo_env_v2 <> 1 \/ readlink_self_exe demo_env_v2 = None)) /\
  exists fs',
    symbolize demo_env_v2 (Symbolizer_new FULL 0) [0x401000] (fresh 1)
      = Some (fs', Symbolizer_new FULL 0, []) /\
    map found fs' = map found (fresh 1) /\
    length fs' = length (fresh 1).
Proof.
  split.
  - split; [cbn; lia | left; zdec].
  - apply C5_unsupported_linker_is_noop; [cbn; lia | left; zdec].
Defined.

Lemma C8_witness :
  (- 2 ^ 63 <= 4096 < 2 ^ 63) /\
  exists att,
    printSymbolizedStackTrace demo_os 4096 [bytes "trace"] = Some att /\
    ran_on att = Some {| ss_sp := 0x7f1000001000; ss_size := 1040384; ss_flags := 0 |} /\
    guards att = [(0x7f1000000000, 4096); (0x7f10000ff000, 4096)] /\
    output att = [bytes "trace"].
Proof.
  split; [zdec|].
  destruct (C8_guarded_alternate_stack demo_os 4096 [bytes "trace"])
    as (att & Hrun & _); [zdec|].
  exists att. split; [exact Hrun|].
  vm_compute in Hrun. injection Hrun as <-.
  repeat split.
Defined.

Lemma C9_witness :
  ((length [0x10; 0x401000; 0x7f0000001100]%Z <= length (fresh 4))%nat /\
   size (fresh 4) < 2 ^ 64) /\
  exists st,
    symbolize_state demo_env (Symbolizer_new FULL_WITH_INLINE 4)
      [0x10; 0x401000; 0x7f0000001100] (fresh 4) = Some st /\
    length (frames st) = length (fresh 4) /\
    size [0x10; 0x401000; 0x7f0000001100] <= addrCount st <= size (fresh 4).
Proof.
  split.
  - split; [cbn; lia | zdec].
  - apply C9_symbolize_stays_in_bounds; [cbn; lia | zdec].
Defined.

Lemma C10_witness :
  (1 <= 8 <= 8 /\ 0 <= 0xfff < 16 ^ (2 * 8) /\ 0 <= 0x1 < 16 ^ (2 * 8) /\
   (hex_digits 16 0x1 <= hex_digits 16 0xfff)%nat) /\
  exists view1 self1 self2,
    format 8 (AddressFormatter_new (zero_template (bytes "0x"))) 0xfff
      = Some (view1, self1) /\
    format 8 self1 0x1 =
      Some (bytes "0x"
              ++ repeat "0"%char (Z.to_nat (2 * 8) - hex_digits 16 0xfff)
              ++ firstn (hex_digits 16 0xfff - hex_digits 16 0x1)
                   (hex_render (hex_digits 16 0xfff) 0xfff)
              ++ hex_render (hex_digits 16 0x1) 0x1,
            self2).
Proof.
  split.
  - split; [lia|]. split; [zdec|]. split; [zdec|]. cbn. lia.
  - apply (proj1 (proj2 (proj2 (proj2 C10_formatter_keeps_stale_digits)))
             8 (bytes "0x") 0xfff 0x1); zdec.
Defined.

(* ================================================================== *)
(** * Further properties of [symbolize] *)
(* ================================================================== *)

(** ** The first two loops, exactly *)

Lemma clear_unfound_exact n : forall fs,
  (n <= length fs)%nat ->
  clear_unfound n fs =
    Some (Z.of_nat (unfound_count (firstn n fs)),
          map (fun f => if found f then f else SymbolizedFrame_clear) (firstn n fs)
            ++ skipn n fs).
Proof.
  induction n as [|n IH]; intros fs Hn; [reflexivity|].
  destruct fs as [|frame rest]; [simpl in Hn; lia|].
  simpl in Hn. cbn [clear_unfound]. rewrite IH by lia.
  cbn [firstn skipn map app]. unfold unfound_count. cbn [filter].
  destruct (found frame); cbn [negb length]; [reflexivity|].
  f_equal. f_equal. lia.
Qed.

Lemma assign_addrs_exact addrs : forall fs,
  (length addrs <= length fs)%nat ->
  assign_addrs addrs fs =
    Some (map (fun af => set_addr (snd af) (fst af)) (combine addrs fs)
            ++ skipn (length addrs) fs).
Proof.
  induction addrs as [|a addrs IH]; intros fs Hn; [reflexivity|].
  destruct fs as [|frame rest]; [simpl in Hn; lia|].
  simpl in Hn. cbn [assign_addrs]. rewrite IH by lia. reflexivity.
Qed.

(** ** Counting the frames that are not found *)

Lemma unfound_count_app l r :
  unfound_count (l ++ r) = (unfound_count l + unfound_count r)%nat.
Proof. unfold unfound_count. rewrite filter_app, length_app. reflexivity. Qed.

Lemma unfound_count_zero l :
  unfound_count l = O -> forall j f, nth_error l j = Some f -> found f = true.
Proof.
  induction l as [|x l IH]; intros H0 j f Hj; [destruct j; discriminate|].
  unfold unfound_count in H0. cbn [filter] in H0.
  destruct (found x) eqn:Hx; cbn [negb length] in H0; [|discriminate].
  destruct j as [|j]; cbn [nth_error] in Hj.
  - injection Hj as <-. exact Hx.
  - eapply IH; eauto.
Qed.

Lemma split_at {A} (l : list A) i n x :
  (i < n)%nat -> (n <= length l)%nat -> nth_error l i = Some x ->
  firstn n l = firstn i l ++ [x] ++ sublist (S i) n l.
Proof.
  intros Hi Hn Hx.
  apply nth_error_ext; intro j.
  repeat list_step. list_len. list_cases; try list_close.
  replace j with i by lia. exact Hx.
Qed.

Lemma split_at_written {A} (l : list A) i n y :
  (i < n)%nat -> (n <= length l)%nat ->
  firstn n (write_at i [y] l) = firstn i l ++ [y] ++ sublist (S i) n l.
Proof.
  intros Hi Hn.
  apply nth_error_ext; intro j.
  repeat list_step. list_len. list_cases; try list_close.
Qed.

Lemma unfound_count_resolved l i n f f' :
  (i < n)%nat -> (n <= length l)%nat ->
  nth_error l i = Some f -> found f = false -> found f' = true ->
  Z.of_nat (unfound_count (firstn n (write_at i [f'] l)))
  = Z.of_nat (unfound_count (firstn n l)) - 1.
Proof.
  intros Hi Hn Hf Hnf Hf'.
  rewrite (split_at l i n f Hi Hn Hf), (split_at_written l i n f' Hi Hn).
  rewrite !unfound_count_app. unfold unfound_count at 2 5. cbn [filter].
  rewrite Hnf, Hf'. cbn [negb length]. lia.
Qed.

Lemma write_at_same {A} (l : list A) i x :
  nth_error l i = Some x -> write_at i [x] l = l.
Proof.
  intros Hx.
  assert (Hi : (i < length l)%nat) by (apply nth_error_Some; congruence).
  apply nth_error_ext; intro j.
  rewrite nth_error_write_at by lia. rewrite nth_error_single. cbn [length].
  list_cases; try list_close.
  replace j with i by lia. replace (i - i)%nat with O by lia. symmetry. exact Hx.
Qed.

(** ** One object, no inline frames, no cache *)

Lemma visit_flat_found env mode lmap elf f :
  found f = true -> visit_flat env mode lmap elf f = f.
Proof. intros H. unfold visit_flat. rewrite H. reflexivity. Qed.

Lemma visit_object_found env mode selfPath lmap f :
  found f = true -> visit_object env mode selfPath f lmap = f.
Proof.
  intros H. unfold visit_object.
  destruct (getFile env (objPath selfPath lmap)); [apply visit_flat_found; exact H | reflexivity].
Qed.

(** The visit of the frame at [i]: the frame becomes [visit_flat] of
    itself, the index and the address count stay, and the counter of
    outstanding frames follows the number of frames not found. *)
Lemma visit_flat_step env mode N n lmap elf i st frame :
  N < 2 ^ 64 -> size (frames st) = N -> addrCount st = Z.of_nat n ->
  (n <= length (frames st))%nat ->
  symbolCache st = None ->
  LocationInfoMode_eqb mode FULL_WITH_INLINE && (Z.of_nat n <? N) = false ->
  remaining st = Z.of_nat (unfound_count (firstn n (frames st))) ->
  (i < n)%nat -> nth_error (frames st) i = Some frame ->
  exists st',
    visit env mode N lmap elf (Z.of_nat i) st = Some (Z.of_nat i, st') /\
    frames st' = write_at i [visit_flat env mode lmap elf frame] (frames st) /\
    addrCount st' = Z.of_nat n /\ symbolCache st' = None /\
    remaining st' = Z.of_nat (unfound_count (firstn n (frames st'))).
Proof.
  intros HN Hsz Hac Hn Hc Hflat Hrem Hi Hnth.
  unfold visit. rewrite Nat2Z.id, Hnth.
  destruct (found frame) eqn:Hf.
  { exists st. rewrite visit_flat_found by exact Hf.
    rewrite write_at_same by exact Hnth. auto. }
  rewrite Hc. unfold resolve, visit_flat. rewrite Hf.
  destruct (getSectionContainingAddress env elf (wrap (addr frame - l_addr lmap))) eqn:Hsec.
  2:{ eexists. split; [reflexivity|]. cbn [frames addrCount symbolCache remaining].
      rewrite write_at_same by exact Hnth. auto. }
  rewrite Hac, Hflat.
  pose proof (setSymbolizedFrame_found env elf (wrap (addr frame - l_addr lmap)) mode O)
    as Hfound.
  destruct (setSymbolizedFrame env elf (wrap (addr frame - l_addr lmap)) mode 0)
    as [[frame' inlined] qs].
  cbn [fst] in Hfound |- *.
  rewrite Hc.
  assert (Hpos : 1 <= remaining st).
  { rewrite Hrem. rewrite (split_at (frames st) i n frame Hi Hn Hnth).
    rewrite !unfound_count_app. unfold unfound_count at 2. cbn [filter].
    rewrite Hf. cbn [negb length]. lia. }
  assert (HremN : remaining st <= Z.of_nat n).
  { rewrite Hrem. unfold unfound_count.
    pose proof (filter_length_le (fun f => negb (found f)) (firstn n (frames st))) as Hle.
    rewrite length_firstn in Hle. lia. }
  unfold size in Hsz.
  rewrite size_add_small by lia. rewrite Z.add_0_r.
  rewrite size_sub_small by lia.
  eexists. split; [reflexivity|]. cbn [frames addrCount symbolCache remaining].
  rewrite Nat2Z.id.
  repeat split.
  rewrite (unfound_count_resolved (frames st) i n frame frame' Hi Hn Hnth Hf Hfound).
  lia.
Qed.

(** The inner loop over one object, started at [i]: every frame of
    [i .. n) becomes [visit_flat] of itself. *)
Lemma inner_loop_flat env mode N n lmap elf fuel : forall i st,
  N < 2 ^ 64 -> size (frames st) = N -> addrCount st = Z.of_nat n ->
  (n <= length (frames st))%nat ->
  symbolCache st = None ->
  LocationInfoMode_eqb mode FULL_WITH_INLINE && (Z.of_nat n <? N) = false ->
  remaining st = Z.of_nat (unfound_count (firstn n (frames st))) ->
  (i <= n)%nat -> (n - i <= fuel)%nat ->
  exists st',
    inner_loop fuel env mode N lmap elf (Z.of_nat i) st = Some st' /\
    size (frames st') = N /\ addrCount st' = Z.of_nat n /\
    symbolCache st' = None /\
    remaining st' = Z.of_nat (unfound_count (firstn n (frames st'))) /\
    forall j,
      nth_error (frames st') j =
        if (i <=? j)%nat && (j <? n)%nat
        then option_map (visit_flat env mode lmap elf) (nth_error (frames st) j)
        else nth_error (frames st) j.
Proof.
  induction fuel as [|fuel IH]; intros i st HN Hsz Hac Hn Hc Hflat Hrem Hi Hfuel.
  - assert (i = n) by lia. subst i. cbn [inner_loop]. rewrite Hac, Z.ltb_irrefl.
    cbn [andb]. exists st. repeat split; auto.
    intros j. destruct (Nat.leb_spec n j), (Nat.ltb_spec j n); cbn [andb]; auto; lia.
  - cbn [inner_loop].
    destruct ((Z.of_nat i <? addrCount st) && negb (remaining st =? 0)) eqn:Hcond.
    + apply andb_true_iff in Hcond. destruct Hcond as [Hlt _].
      apply Z.ltb_lt in Hlt. rewrite Hac in Hlt.
      assert (Hi' : (i < n)%nat) by lia.
      destruct (nth_error (frames st) i) as [frame|] eqn:Hnth.
      2:{ apply nth_error_None in Hnth. lia. }
      destruct (visit_flat_step env mode N n lmap elf i st frame
                  HN Hsz Hac Hn Hc Hflat Hrem Hi' Hnth)
        as (st1 & -> & Hfs1 & Hac1 & Hc1 & Hrem1).
      assert (Hlen1 : length (frames st1) = length (frames st)).
      { rewrite Hfs1. apply length_write_at. cbn [length]. lia. }
      unfold size in Hsz.
      rewrite size_add_small by lia.
      replace (Z.of_nat i + 1) with (Z.of_nat (S i)) by lia.
      destruct (IH (S i) st1) as (st2 & Hrun & Hsz2 & Hac2 & Hc2 & Hrem2 & Hpt);
        try assumption; try lia.
      { unfold size. lia. }
      exists st2. repeat split; try assumption.
      intros j. rewrite Hpt, Hfs1.
      rewrite !nth_error_write_at by lia. rewrite nth_error_single. cbn [length].
      destruct (Nat.leb_spec (S i) j), (Nat.leb_spec i j), (Nat.ltb_spec j n),
        (Nat.ltb_spec j i), (Nat.ltb_spec j (i + 1)); cbn [andb]; try lia;
        try reflexivity.
      replace (j - i <? 1)%nat with true by (symmetry; apply Nat.ltb_lt; lia).
      replace j with i by lia. rewrite Hnth. reflexivity.
    + exists st. repeat split; auto.
      intros j.
      destruct (Nat.leb_spec i j), (Nat.ltb_spec j n); cbn [andb]; auto.
      apply andb_false_iff in Hcond. destruct Hcond as [Hge | Hz].
      * apply Z.ltb_ge in Hge. lia.
      * apply negb_false_iff, Z.eqb_eq in Hz. rewrite Hrem in Hz.
        destruct (nth_error (frames st) j) as [f|] eqn:Hj; [|reflexivity].
        cbn [option_map]. f_equal. symmetry. apply visit_flat_found.
        apply (unfound_count_zero (firstn n (frames st))) with (j := j); [lia|].
        rewrite nth_error_firstn.
        replace (j <? n)%nat with true by (symmetry; apply Nat.ltb_lt; lia).
        exact Hj.
Qed.

Lemma fold_visit_found env mode selfPath lmaps : forall f,
  found f = true -> fold_left (visit_object env mode selfPath) lmaps f = f.
Proof.
  induction lmaps as [|lmap rest IH]; intros f Hf; [reflexivity|].
  cbn [fold_left]. rewrite visit_object_found by exact Hf. apply IH, Hf.
Qed.

(** The loop over the chain of objects: every frame of [0 .. n) goes
    through the objects in order. *)
Lemma outer_loop_flat env mode N n selfPath lmaps : forall st,
  N < 2 ^ 64 -> size (frames st) = N -> addrCount st = Z.of_nat n ->
  (n <= length (frames st))%nat ->
  symbolCache st = None ->
  LocationInfoMode_eqb mode FULL_WITH_INLINE && (Z.of_nat n <? N) = false ->
  remaining st = Z.of_nat (unfound_count (firstn n (frames st))) ->
  exists st',
    outer_loop env mode N selfPath lmaps st = Some st' /\
    symbolCache st' = None /\
    forall j,
      nth_error (frames st') j =
        if (j <? n)%nat
        then option_map (fold_left (visit_object env mode selfPath) lmaps)
               (nth_error (frames st) j)
        else nth_error (frames st) j.
Proof.
  induction lmaps as [|lmap rest IH]; intros st HN Hsz Hac Hn Hc Hflat Hrem.
  - exists st. cbn [outer_loop fold_left]. repeat split; auto.
    intros j. destruct (j <? n)%nat; [|reflexivity].
    destruct (nth_error (frames st) j); reflexivity.
  - cbn [outer_loop]. destruct (remaining st =? 0) eqn:Hz.
    { apply Z.eqb_eq in Hz. rewrite Hrem in Hz.
      exists st. repeat split; auto.
      intros j. destruct (Nat.ltb_spec j n); [|reflexivity].
      destruct (nth_error (frames st) j) as [f|] eqn:Hj; [|reflexivity].
      cbn [option_map]. f_equal. symmetry. apply fold_visit_found.
      apply (unfound_count_zero (firstn n (frames st))) with (j := j); [lia|].
      rewrite nth_error_firstn.
      replace (j <? n)%nat with true by (symmetry; apply Nat.ltb_lt; lia).
      exact Hj. }
    destruct (getFile env (objPath selfPath lmap)) as [elf|] eqn:Hfile.
    + rewrite Hac, Nat2Z.id.
      destruct (inner_loop_flat env mode N n lmap elf n O st)
        as (st1 & Hrun & Hsz1 & Hac1 & Hc1 & Hrem1 & Hpt1);
        try assumption; try lia.
      change (Z.of_nat 0) with 0 in Hrun. rewrite Hrun.
      assert (Hn1 : (n <= length (frames st1))%nat).
      { unfold size in *. lia. }
      destruct (IH st1 HN Hsz1 Hac1 Hn1 Hc1 Hflat Hrem1) as (st2 & Hrun2 & Hc2 & Hpt2).
      exists st2. repeat split; try assumption.
      intros j. rewrite Hpt2, Hpt1.
      destruct (Nat.ltb_spec j n); [|reflexivity].
      cbn [Nat.leb andb].
      destruct (nth_error (frames st) j) as [f|]; [|reflexivity].
      cbn [option_map fold_left].
      replace (visit_object env mode selfPath f lmap)
        with (visit_flat env mode lmap elf f)
        by (unfold visit_object; rewrite Hfile; reflexivity).
      reflexivity.
    + destruct (IH st HN Hsz Hac Hn Hc Hflat Hrem) as (st2 & Hrun2 & Hc2 & Hpt2).
      exists st2. repeat split; try assumption.
      intros j. rewrite Hpt2.
      destruct (Nat.ltb_spec j n); [|reflexivity].
      destruct (nth_error (frames st) j) as [f|]; [|reflexivity].
      cbn [option_map fold_left].
      replace (visit_object env mode selfPath f lmap) with f
        by (unfold visit_object; rewrite Hfile; reflexivity).
      reflexivity.
Qed.

(** Going through the objects in order is being resolved by the first
    object that contains the address. *)
Lemma fold_visit_first_object env mode selfPath lmaps : forall f,
  found f = false ->
  fold_left (visit_object env mode selfPath) lmaps f =
    match first_object env selfPath lmaps (addr f) with
    | Some (lmap, elf) =>
        fst (fst (setSymbolizedFrame env elf (wrap (addr f - l_addr lmap)) mode O))
    | None => f
    end.
Proof.
  induction lmaps as [|lmap rest IH]; intros f Hf; [reflexivity|].
  cbn [fold_left first_object]. unfold visit_object at 2.
  destruct (getFile env (objPath selfPath lmap)) as [elf|] eqn:Hfile; [|apply IH, Hf].
  unfold visit_flat. rewrite Hf.
  destruct (getSectionContainingAddress env elf (wrap (addr f - l_addr lmap)));
    [|apply IH, Hf].
  apply fold_visit_found, setSymbolizedFrame_found.
Qed.

Lemma pointwise_prefix {A} (G : A -> A) (out l : list A) n :
  (n <= length l)%nat ->
  (forall j, nth_error out j =
             if (j <? n)%nat then option_map G (nth_error l j) else nth_error l j) ->
  out = map G (firstn n l) ++ skipn n l.
Proof.
  intros Hn Hpt. apply nth_error_ext; intro j. rewrite Hpt.
  rewrite nth_error_app, length_map, length_firstn, Nat.min_l by exact Hn.
  destruct (Nat.ltb_spec j n).
  - rewrite nth_error_map, nth_error_firstn.
    replace (j <? n)%nat with true by (symmetry; apply Nat.ltb_lt; lia). reflexivity.
  - rewrite nth_error_skipn. f_equal. lia.
Qed.

Lemma map_snd_combine {A B} (l : list A) : forall (r : list B),
  (length l <= length r)%nat -> map snd (combine l r) = firstn (length l) r.
Proof.
  induction l as [|a l IH]; intros r Hr; [reflexivity|].
  destruct r as [|b r]; [simpl in Hr; lia|].
  simpl in Hr. cbn [combine map snd length firstn]. rewrite IH by lia. reflexivity.
Qed.

Lemma unfound_count_map {A} (F G : A -> SymbolizedFrame) (l : list A) :
  (forall x, found (F x) = found (G x)) ->
  unfound_count (map F l) = unfound_count (map G l).
Proof.
  intros H. unfold unfound_count.
  induction l as [|x l IH]; [reflexivity|].
  cbn [map filter]. rewrite H. destruct (found (G x)); cbn [negb length]; lia.
Qed.

Lemma unfound_count_exists l :
  Exists (fun f => found f = false) l -> unfound_count l <> O.
Proof.
  induction 1 as [f l Hf | f l _ IH]; unfold unfound_count in *; cbn [filter].
  - rewrite Hf. cbn [negb length]. lia.
  - destruct (found f); cbn [negb length]; lia.
Qed.

(** The buffer when the loop over the objects starts. *)
Lemma prepared_frames addrs : forall fs,
  (length addrs <= length fs)%nat ->
  assign_addrs addrs
    (map (fun f => if found f then f else SymbolizedFrame_clear)
         (firstn (length addrs) fs) ++ skipn (length addrs) fs)
  = Some (map (fun af => set_addr (if found (snd af) then snd af
                                   else SymbolizedFrame_clear) (fst af))
              (combine addrs fs)
            ++ skipn (length addrs) fs).
Proof.
  induction addrs as [|a addrs IH]; intros fs Hn; [reflexivity|].
  destruct fs as [|frame rest]; [simpl in Hn; lia|].
  simpl in Hn. cbn [length firstn skipn map app assign_addrs combine fst snd].
  rewrite IH by lia. reflexivity.
Qed.

(** X1.  When no frame of [frames[0 .. addrs.size())] is left to
    resolve (in particular for an empty list of addresses), [symbolize]
    returns the buffer and the symbolizer as they were and asks neither
    the dynamic linker's chain nor the debug-info service anything,
    whatever the state of the process. *)
Theorem X1_symbolize_nothing_to_resolve :
  (forall env s fs, symbolize env s [] fs = Some (fs, s, [])) /\
  (forall env s addrs fs,
      (length addrs <= length fs)%nat ->
      Forall (fun f => found f = true) (firstn (length addrs) fs) ->
      symbolize env s addrs fs = Some (fs, s, [])).
Proof.
  split.
  - intros env s fs. apply symbolize_all_found; [cbn [length]; lia | constructor].
  - intros env s addrs fs Hlen HF. apply symbolize_all_found; assumption.
Qed.

(** The whole call, without a symbol cache and without inline frames. *)
Lemma symbolize_flat env s addrs fs selfPath :
  (length addrs <= length fs)%nat -> size fs < 2 ^ 64 ->
  symbolCache_ s = None ->
  mode_ s <> FULL_WITH_INLINE \/ length fs = length addrs ->
  r_version env = 1 -> readlink_self_exe env = Some selfPath ->
  Exists (fun f => found f = false) (firstn (length addrs) fs) ->
  exists q,
    symbolize env s addrs fs =
      Some (map (fun af => resolved_frame env (mode_ s) selfPath (fst af) (snd af))
                (combine addrs fs)
              ++ skipn (length addrs) fs,
            s, q).
Proof.
  intros Hlen HN Hc Hmode Hv Hself Hex.
  set (n := length addrs) in *.
  unfold symbolize, symbolize_state.
  rewrite clear_unfound_exact by exact Hlen. fold n.
  pose proof (unfound_count_exists _ Hex) as Hpos.
  replace (Z.of_nat (unfound_count (firstn n fs)) =? 0) with false
    by (symmetry; apply Z.eqb_neq; lia).
  rewrite Hv, Hself. cbn [Z.eqb Pos.eqb negb].
  subst n. rewrite prepared_frames by exact Hlen.
  set (n := length addrs) in *.
  set (H := fun af : Z * SymbolizedFrame =>
              set_addr (if found (snd af) then snd af else SymbolizedFrame_clear)
                       (fst af)).
  assert (Hcomb : length (combine addrs fs) = n).
  { rewrite length_combine. subst n. lia. }
  assert (Hfirst : firstn n (map H (combine addrs fs) ++ skipn n fs)
                   = map H (combine addrs fs)).
  { apply firstn_app_exact. rewrite length_map. symmetry. exact Hcomb. }
  assert (Hskip : skipn n (map H (combine addrs fs) ++ skipn n fs) = skipn n fs).
  { apply skipn_app_exact. rewrite length_map. symmetry. exact Hcomb. }
  assert (Hlen0 : length (map H (combine addrs fs) ++ skipn n fs) = length fs).
  { rewrite length_app, length_map, Hcomb, length_skipn. lia. }
  match goal with
  | |- context [outer_loop _ _ _ _ _ ?st] => set (st0 := st)
  end.
  destruct (outer_loop_flat env (mode_ s) (size fs) n selfPath (r_map env) st0)
    as (st' & Hrun & Hc' & Hpt); subst st0.
  - exact HN.
  - cbn [frames]. unfold size. rewrite Hlen0. reflexivity.
  - cbn [addrCount]. reflexivity.
  - cbn [frames]. lia.
  - cbn [symbolCache]. exact Hc.
  - destruct Hmode as [Hm | Heq].
    + destruct (mode_ s); cbn [LocationInfoMode_eqb andb]; congruence.
    + replace (Z.of_nat n <? size fs) with false
        by (symmetry; apply Z.ltb_ge; unfold size; lia).
      apply andb_false_r.
  - cbn [remaining frames]. rewrite Hfirst. f_equal.
    fold n in Hlen. pose proof (map_snd_combine addrs fs Hlen) as Hsnd.
    fold n in Hsnd. rewrite <- Hsnd.
    symmetry. apply unfound_count_map. intros [a f]. subst H. cbn [fst snd].
    destruct (found f) eqn:Hf; [exact Hf | reflexivity].
  - rewrite Hrun. cbn [frames] in Hpt.
    apply pointwise_prefix in Hpt; [|lia].
    rewrite Hfirst, Hskip in Hpt.
    exists (queries st'). rewrite Hpt, Hc', <- Hc, Symbolizer_eta.
    do 4 f_equal.
    rewrite map_map. apply map_ext. intros [a f]. subst H. cbn [fst snd].
    unfold resolved_frame.
    destruct (found f) eqn:Hf.
    + apply fold_visit_found. exact Hf.
    + rewrite fold_visit_first_object by reflexivity.
      cbn [set_addr addr]. reflexivity.
Qed.

(** X2.  Without a symbol cache and without room or mode for inline
    frames, a call that goes through the loaded objects resolves every
    address on its own: the frame of address [a] is filled in from the
    first object of the chain whose file opens and has a section
    containing [a - l_addr], and is the empty frame carrying [a] when
    there is no such object; a frame that was already found keeps its
    contents but gets the raw address; the frames after
    [addrs.size()] are not touched. *)
Theorem X2_symbolize_first_object_resolves env s addrs fs selfPath :
  (length addrs <= length fs)%nat -> size fs < 2 ^ 64 ->
  symbolCache_ s = None ->
  mode_ s <> FULL_WITH_INLINE \/ length fs = length addrs ->
  r_version env = 1 -> readlink_self_exe env = Some selfPath ->
  Exists (fun f => found f = false) (firstn (length addrs) fs) ->
  exists q,
    symbolize env s addrs fs =
      Some (map (fun af => resolved_frame env (mode_ s) selfPath (fst af) (snd af))
                (combine addrs fs)
              ++ skipn (length addrs) fs,
            s, q).
Proof. apply symbolize_flat. Qed.

(** ** The precondition on the sizes *)

Lemma clear_unfound_short n : forall fs,
  (length fs < n)%nat -> clear_unfound n fs = None.
Proof.
  induction n as [|n IH]; intros fs Hn; [lia|].
  destruct fs as [|frame rest]; [reflexivity|].
  cbn [length] in Hn. cbn [clear_unfound]. rewrite IH by lia. reflexivity.
Qed.

Lemma symbolize_state_runs env s addrs fs :
  (length addrs <= length fs)%nat -> size fs < 2 ^ 64 ->
  exists st, symbolize_state env s addrs fs = Some st.
Proof.
  intros Hlen HN. unfold symbolize_state.
  destruct (clear_unfound_spec (length addrs) fs Hlen)
    as (r & fs1 & -> & Hl1 & _ & _ & _).
  destruct (r =? 0); [eauto|].
  destruct (negb (r_version env =? 1)); [eauto|].
  destruct (readlink_self_exe env) as [selfPath|]; [|eauto].
  destruct (assign_addrs_spec addrs fs1) as (fs2 & -> & Hl2 & _); [lia|].
  edestruct (outer_loop_inv env (mode_ s) (size fs) selfPath (r_map env))
    as (st & -> & _); [exact HN| |eauto].
  unfold Inv, size; cbn [frames addrCount]. lia.
Qed.

(** X20.  The size contract of [symbolize] is exact: for a buffer that
    fits the address space, the call stays inside the buffer and
    returns when [frames.size() >= addrs.size()], and only then; with
    fewer frames than addresses the first loop already indexes past the
    end of the buffer, whatever the state of the process. *)
Theorem X20_symbolize_size_contract_is_exact env s addrs fs :
  size fs < 2 ^ 64 ->
  (symbolize env s addrs fs = None <-> (length fs < length addrs)%nat) /\
  ((length fs < length addrs)%nat -> clear_unfound (length addrs) fs = None).
Proof.
  intros HN. split; [|apply clear_unfound_short].
  split.
  - intros Hnone.
    destruct (Nat.lt_ge_cases (length fs) (length addrs)) as [Hlt | Hge];
      [exact Hlt|].
    destruct (symbolize_state_runs env s addrs fs Hge HN) as (st & Hst).
    unfold symbolize in Hnone. rewrite Hst in Hnone. discriminate.
  - intros Hlt. unfold symbolize, symbolize_state.
    rewrite clear_unfound_short by exact Hlt. reflexivity.
Qed.

(* ================================================================== *)
(** * Further properties of the formatter and of the printers *)
(* ================================================================== *)

(** ** A formatter that is used again *)

Lemma firstn_repeat_le {A} (x : A) a b :
  (a <= b)%nat -> firstn a (repeat x b) = repeat x a.
Proof.
  intros H. replace b with (a + (b - a))%nat by lia.
  rewrite repeat_app. apply firstn_app_exact. rewrite repeat_length. reflexivity.
Qed.

Lemma firstn_write_before {A} (buf X : list A) (a : nat) :
  (a <= length buf)%nat -> firstn a (write_at a X buf) = firstn a buf.
Proof.
  intros Ha. unfold write_at. apply firstn_app_exact.
  rewrite length_firstn. lia.
Qed.

(** A formatter whose buffer still shows zeros above the lowest [m]
    digits renders every address of at least [m] digits exactly, and
    the digit counts that follow may rely on the same. *)
Lemma format_all_exact s prefix : forall addresses self m,
  1 <= s <= 8 ->
  let w := Z.to_nat (2 * s) in
  length (buf_ self) = (length prefix + 17)%nat ->
  (m <= w)%nat ->
  firstn (length prefix + (w - m)) (buf_ self) = prefix ++ repeat "0"%char (w - m) ->
  Forall (fun a => 0 <= a < 16 ^ (2 * s)) addresses ->
  digits_never_drop m addresses = true ->
  format_all s self addresses
  = Some (map (fun a => prefix ++ hex_render w a) addresses).
Proof.
  induction addresses as [|a rest IH]; intros self m Hs w Hlen Hm Hzeros Hall Hmono;
    [reflexivity|].
  inversion Hall as [|? ? Ha Hrest]; subst.
  cbn [digits_never_drop] in Hmono. apply andb_true_iff in Hmono.
  destruct Hmono as [Hmd Hmono]. apply Nat.leb_le in Hmd.
  set (d := hex_digits 16 a) in *.
  assert (Hd : (d <= w)%nat).
  { apply hex_digits_bound. subst w. rewrite Z2Nat.id by lia. exact Ha. }
  assert (Hx16 : 0 <= a < 16 ^ Z.of_nat 16).
  { split; [lia|]. eapply Z.lt_le_trans; [apply Ha|].
    replace (2 * s) with (Z.of_nat w) by (subst w; lia).
    apply pow16_mono. subst w. lia. }
  destruct (format_view s self a Hs) as (self' & Hf & Hb & Hlen');
    [unfold size; lia | exact Ha |].
  fold d in Hf, Hb.
  assert (Hend : Z.to_nat (size (buf_ self) - 1 - (16 - 2 * s))
                 = (length prefix + w)%nat) by (unfold size; subst w; lia).
  rewrite Hend in Hf, Hb.
  assert (Hfront : firstn (length prefix + (w - d)) (buf_ self)
                   = prefix ++ repeat "0"%char (w - d)).
  { replace (length prefix + (w - d))%nat
      with (Nat.min (length prefix + (w - d)) (length prefix + (w - m)))%nat by lia.
    rewrite <- firstn_firstn, Hzeros.
    rewrite firstn_app_2. f_equal. apply firstn_repeat_le. lia. }
  replace (length prefix + w - d)%nat with (length prefix + (w - d))%nat in Hf, Hb by lia.
  cbn [format_all map]. rewrite Hf.
  rewrite (IH self' d); try assumption.
  - pose proof (hex_render_pad 16 w a Hx16 Hd) as Hpad. fold d in Hpad.
    rewrite Hfront, <- app_assoc, <- Hpad. reflexivity.
  - lia.
  - rewrite Hb, firstn_write_before by lia. exact Hfront.
Qed.

(** X3.  One formatter used for a run of addresses none of which has
    fewer significant digits than the one before it (in particular for
    addresses of one width) renders each of them exactly: the prefix
    and the address in [2 * sizeof(uintptr_t)] zero-padded lowercase
    digits, which read back as the address; and these are the lines
    that the address-only branch of [printStackTrace] writes. *)
Theorem X3_reused_formatter_exact_when_digits_never_drop s prefix addresses p :
  1 <= s <= 8 ->
  Forall (fun a => 0 <= a < 16 ^ (2 * s)) addresses ->
  digits_never_drop 0 addresses = true ->
  let w := Z.to_nat (2 * s) in
  format_all s (AddressFormatter_new (zero_template prefix)) addresses
    = Some (map (fun a => prefix ++ hex_render w a) addresses) /\
  Forall (fun a => parse_hex (hex_render w a) = Some a) addresses /\
  exists r,
    printStackTrace s (zero_template prefix) (Some addresses) [] false p = Some r /\
    written (fd_ r)
      = printed p ++ (bytes "(safe mode, symbolizer not available)" ++ [LF])
          ++ concat (map (fun a => (prefix ++ hex_render w a) ++ [LF]) addresses).
Proof.
  intros Hs Hall Hmono w.
  assert (Hfa : format_all s (AddressFormatter_new (zero_template prefix)) addresses
                = Some (map (fun a => prefix ++ hex_render w a) addresses)).
  { apply (format_all_exact s prefix addresses _ O); try assumption.
    - pose proof (size_new_zero_template prefix) as Hsz. unfold size in Hsz. lia.
    - lia.
    - rewrite Nat.sub_0_r. apply firstn_zero_template. lia. }
  split; [exact Hfa|]. split.
  - eapply Forall_impl; [|exact Hall]. intros a Ha. cbv beta in Ha.
    unfold parse_hex. rewrite parse_hex_from_render by lia.
    f_equal. rewrite Z.mod_small; [lia|].
    unfold w. rewrite Z2Nat.id by lia. exact Ha.
  - unfold printStackTrace. rewrite print_addresses_format_all, Hfa.
    eexists. split; [reflexivity|].
    match goal with
    | |- context [SafeStackTracePrinter_flush ?q] =>
        destruct (SafeStackTracePrinter_flush_spec q) as (Hw & _ & _)
    end.
    rewrite Hw, fold_lines_printed, doPrint_printed, map_map, <- !app_assoc.
    reflexivity.
Qed.

(** ** Terse rendering *)

Lemma printTerse_address k s frame :
  (if found frame then nonempty_name frame else None) = None ->
  printTerse k s frame =
    match format s (AddressFormatter_new (zero_template (bytes "0x"))) (addr frame) with
    | Some (text, _) => Some [text]
    | None => None
    end.
Proof.
  intros Hn. unfold printTerse, format. rewrite Hn.
  change (buf_ (AddressFormatter_new (zero_template (bytes "0x"))))
    with (bytes "0x0000000000000000" ++ [NUL]).
  destruct (store _ _ NUL) as [buf1|]; [|reflexivity].
  destruct (format_loop 16 (addr frame) _ buf1) as [buf2|]; [|reflexivity].
  destruct (in_range 0 _ buf2); reflexivity.
Qed.

Lemma demangled_or_raw_nonempty k n :
  n <> EmptyString -> demangled_or_raw k n <> [].
Proof.
  intros Hn. unfold demangled_or_raw.
  destruct (demangle k n 2048) as [|c d].
  - destruct n as [|c n]; [congruence | discriminate].
  - discriminate.
Qed.

Lemma nonempty_name_some frame n :
  nonempty_name frame = Some n -> name frame = Some n /\ n <> EmptyString.
Proof.
  unfold nonempty_name. destruct (name frame) as [[|c m]|]; try discriminate.
  intros [= <-]. split; [reflexivity | discriminate].
Qed.

Lemma printTerse_text k s frame :
  1 <= s <= 8 -> 0 <= addr frame < 16 ^ (2 * s) ->
  printTerse k s frame = Some [terse_text k s frame].
Proof.
  intros Hs Ha. unfold terse_text.
  destruct (if found frame then nonempty_name frame else None) as [n|] eqn:Hn.
  - unfold printTerse. rewrite Hn. reflexivity.
  - rewrite printTerse_address by exact Hn.
    destruct (format_fresh s (bytes "0x") (addr frame) Hs Ha) as (self' & -> & _).
    reflexivity.
Qed.

(** X4.  [printTerse] prints exactly one text, and never an empty one.
    For a frame that is found and has a non-empty name it is the
    demangled name, or the name itself when the demangler leaves
    nothing.  For any other frame it is the address after [0x] in
    [2 * sizeof(uintptr_t)] zero-padded lowercase digits, taken from a
    buffer of its own, so that the digits read back as the address
    whatever was printed before. *)
Theorem X4_printTerse_name_or_address k s frame :
  1 <= s <= 8 -> 0 <= addr frame < 16 ^ (2 * s) ->
  printTerse k s frame = Some [terse_text k s frame] /\
  terse_text k s frame <> [] /\
  (forall n, found frame = true -> name frame = Some n -> n <> EmptyString ->
             terse_text k s frame
             = match demangle k n 2048 with
               | EmptyString => bytes n
               | d => bytes d
               end) /\
  (found frame = false \/ name frame = None \/ name frame = Some EmptyString ->
   terse_text k s frame = bytes "0x" ++ hex_render (Z.to_nat (2 * s)) (addr frame) /\
   size (terse_text k s frame) = 2 + 2 * s /\
   parse_hex (skipn 2 (terse_text k s frame)) = Some (addr frame)).
Proof.
  intros Hs Ha. split; [apply printTerse_text; assumption|].
  split; [|split].
  - unfold terse_text.
    destruct (if found frame then nonempty_name frame else None) as [n|] eqn:Hn.
    + destruct (found frame); [|discriminate].
      apply demangled_or_raw_nonempty. apply (nonempty_name_some frame n Hn).
    + discriminate.
  - intros n Hf Hname Hne. unfold terse_text, nonempty_name.
    rewrite Hf, Hname. destruct n as [|c n]; [congruence | reflexivity].
  - intros Hcase.
    assert (Hn : (if found frame then nonempty_name frame else None) = None).
    { unfold nonempty_name.
      destruct Hcase as [-> | [-> | ->]]; [reflexivity | |];
        destruct (found frame); reflexivity. }
    unfold terse_text. rewrite Hn.
    split; [reflexivity|]. split.
    + unfold size. rewrite length_app, length_hex_render. cbn [bytes length
        list_ascii_of_string]. lia.
    + cbn [bytes list_ascii_of_string app skipn].
      unfold parse_hex. rewrite parse_hex_from_render by lia.
      f_equal. rewrite Z.mod_small; [lia|]. rewrite Z2Nat.id by lia. exact Ha.
Qed.

Lemma print_terse k s bufTemplate options_ isTty_ frame :
  has_option options_ (TERSE k) = true ->
  print k s bufTemplate options_ isTty_ frame = printTerse k s frame.
Proof. intros H. unfold print. rewrite H. reflexivity. Qed.

Lemma println_frames_beyond k s bufTemplate options_ isTty_ : forall n fs,
  (length fs < n)%nat ->
  (forall f, In f fs -> println k s bufTemplate options_ isTty_ f <> None) ->
  println_frames k s bufTemplate options_ isTty_ fs n = None.
Proof.
  induction n as [|n IH]; intros fs Hlen Hok; [lia|].
  destruct fs as [|f rest]; [reflexivity|].
  cbn [println_frames]. cbn [length] in Hlen.
  destruct (println k s bufTemplate options_ isTty_ f) as [texts|] eqn:Hp;
    [|reflexivity].
  rewrite IH; [reflexivity | lia |].
  intros g Hg. apply Hok. right. exact Hg.
Qed.

(** X5.  With [TERSE] among the options, [print] is [printTerse]
    whatever the other options, the template and the terminal are, and
    the bulk [println] of the frames [frames[0 .. frameCount)] prints,
    for each frame in order, its one terse text and a line feed, and
    no colour sequence; a [frameCount] beyond the array makes it read
    past the end. *)
Theorem X5_terse_println_one_line_per_frame k s bufTemplate options_ isTty_ fs n :
  has_option options_ (TERSE k) = true ->
  1 <= s <= 8 ->
  Forall (fun f => 0 <= addr f < 16 ^ (2 * s)) fs ->
  ((n <= length fs)%nat ->
   println_frames k s bufTemplate options_ isTty_ fs n
   = Some (concat (map (fun f => [terse_text k s f; [LF]]) (firstn n fs)))) /\
  ((length fs < n)%nat ->
   println_frames k s bufTemplate options_ isTty_ fs n = None).
Proof.
  intros Hterse Hs Hall. split.
  - revert fs Hall.
    induction n as [|n IH]; intros fs Hall Hn; [reflexivity|].
    destruct fs as [|f rest]; [cbn [length] in Hn; lia|].
    inversion Hall as [|? ? Hf Hrest]; subst.
    cbn [length] in Hn.
    cbn [println_frames firstn map concat]. unfold println.
    rewrite print_terse by exact Hterse.
    rewrite printTerse_text by assumption.
    rewrite IH by (assumption || lia). reflexivity.
  - intros Hlen. apply println_frames_beyond; [exact Hlen|].
    intros f Hin. rewrite Forall_forall in Hall. specialize (Hall f Hin).
    unfold println. rewrite print_terse by exact Hterse.
    rewrite printTerse_text by assumption. discriminate.
Qed.

(** ** Colours *)

Lemma color_off k options_ isTty_ c :
  colours_off k options_ isTty_ = true -> color k options_ isTty_ c = [].
Proof. intros H. unfold color. unfold colours_off in H. rewrite H. reflexivity. Qed.

(** [color], with the conversion of the index to [size_t] resolved. *)
Lemma color_spec k options_ isTty_ c :
  - 2 ^ 63 <= c < 2 ^ 63 -> size (kColorMap k) <= 2 ^ 63 ->
  color k options_ isTty_ c =
    if negb (colours_off k options_ isTty_) && (0 <=? c) && (c <? size (kColorMap k))
    then [nth (Z.to_nat c) (kColorMap k) []]
    else [].
Proof.
  intros Hc Hsz. unfold color. fold (colours_off k options_ isTty_).
  destruct (colours_off k options_ isTty_); cbn [negb andb]; [reflexivity|].
  destruct (Z.leb_spec 0 c) as [Hc0 | Hc0]; cbn [andb].
  - rewrite wrap_small by lia.
    destruct (Z.ltb_spec c (size (kColorMap k))).
    + replace (size (kColorMap k) <=? c) with false
        by (symmetry; apply Z.leb_gt; lia).
      reflexivity.
    + replace (size (kColorMap k) <=? c) with true
        by (symmetry; apply Z.leb_le; lia).
      reflexivity.
  - assert (Hw : wrap c = c + 2 ^ 64).
    { unfold wrap. symmetry. apply Z.mod_unique with (q := -1); lia. }
    rewrite Hw.
    replace (size (kColorMap k) <=? c + 2 ^ 64) with true
      by (symmetry; apply Z.leb_le; lia).
    reflexivity.
Qed.

(** X6.  A sequence is printed by [color] exactly when colours are
    forced with [COLOR], or asked for with [COLOR_IF_TTY] on a printer
    whose [isTty_] was computed by [isColorfulTty] for a descriptor
    that is a terminal, without [TERSE], and with [TERM] set to
    something other than the empty string and [dumb]; and only for an
    index inside [kColorMap] (a negative one is outside): nothing is
    printed otherwise. *)
Theorem X6_color_when_and_what k isatty TERM options fd c :
  - 2 ^ 63 <= c < 2 ^ 63 -> size (kColorMap k) <= 2 ^ 63 ->
  let isTty_ := isColorfulTty k isatty TERM options fd in
  let forced := negb (Z.land options (COLOR k) =? 0) in
  let detected :=
    negb (Z.land options (COLOR_IF_TTY k) =? 0)
    && (Z.land options (TERSE k) =? 0)
    && (0 <=? fd) && isatty fd
    && match TERM with
       | None => false
       | Some term => negb (String.eqb term "") && negb (String.eqb term "dumb")
       end in
  isTty_ = detected /\
  color k options isTty_ c =
    if (forced || detected) && (0 <=? c) && (c <? size (kColorMap k))
    then [nth (Z.to_nat c) (kColorMap k) []]
    else [].
Proof.
  intros Hc Hsz isTty_ forced detected.
  assert (Htty : isTty_ = detected).
  { subst isTty_ detected. unfold isColorfulTty.
    destruct (Z.land options (TERSE k) =? 0); cbn [negb orb andb];
      [|rewrite andb_false_r; reflexivity].
    destruct (Z.land options (COLOR_IF_TTY k) =? 0); cbn [negb orb andb];
      [reflexivity|].
    destruct (Z.ltb_spec fd 0) as [Hneg | Hpos]; cbn [orb].
    { replace (0 <=? fd) with false by (symmetry; apply Z.leb_gt; lia). reflexivity. }
    replace (0 <=? fd) with true by (symmetry; apply Z.leb_le; lia).
    destruct (isatty fd); cbn [negb andb orb]; [|reflexivity].
    destruct TERM as [term|]; [|reflexivity].
    destruct term as [|ch term]; [reflexivity|].
    cbn [orb]. change (String.eqb (String ch term) "") with false.
    cbn [negb andb]. reflexivity. }
  split; [exact Htty|].
  rewrite color_spec by assumption.
  replace (negb (colours_off k options isTty_)) with (forced || detected);
    [reflexivity|].
  unfold colours_off. rewrite Htty. subst forced.
  destruct (Z.land options (COLOR k) =? 0); cbn [negb andb orb]; [|reflexivity].
  destruct detected eqn:Hd; [|rewrite orb_true_r; reflexivity].
  subst detected.
  destruct (Z.land options (COLOR_IF_TTY k) =? 0); [discriminate | reflexivity].
Qed.

(** ** What [print] prints *)

Lemma Some_inj {A} (a b : A) : Some a = Some b -> a = b.
Proof. congruence. Qed.

(** X7.  Outside the terse mode, whatever [print] prints ends with the
    sequence of the default colour, on the early return for a frame
    that is not found as on the others, since a scope guard prints it;
    with colours enabled and the default colour inside the table, the
    last text printed is that sequence. *)
Theorem X7_print_ends_with_default_colour k s bufTemplate options_ isTty_ frame out :
  has_option options_ (TERSE k) = false ->
  print k s bufTemplate options_ isTty_ frame = Some out ->
  (exists front, out = front ++ color k options_ isTty_ (Color_DEFAULT k)) /\
  (colours_off k options_ isTty_ = false ->
   0 <= Color_DEFAULT k < size (kColorMap k) -> size (kColorMap k) <= 2 ^ 63 ->
   last out [] = nth (Z.to_nat (Color_DEFAULT k)) (kColorMap k) []).
Proof.
  intros Hterse Hprint.
  assert (Hfront : exists front,
             out = front ++ color k options_ isTty_ (Color_DEFAULT k)).
  { unfold print in Hprint. rewrite Hterse in Hprint.
    match type of Hprint with
    | match ?ap with _ => _ end = _ => destruct ap as [out1|]; [|discriminate]
    end.
    destruct (negb (found frame));
      apply Some_inj in Hprint; rewrite <- Hprint;
      eexists; rewrite !app_assoc; reflexivity. }
  split; [exact Hfront|].
  intros Hon Hin Hsz. destruct Hfront as (front & ->).
  rewrite color_spec by lia. rewrite Hon. cbn [negb andb].
  replace (0 <=? Color_DEFAULT k) with true by (symmetry; apply Z.leb_le; lia).
  replace (Color_DEFAULT k <? size (kColorMap k)) with true
    by (symmetry; apply Z.ltb_lt; lia).
  cbn [andb]. apply last_last.
Qed.

(** X8.  A frame that is not found, outside the terse mode: [print]
    prints the address (unless [NO_FRAME_ADDRESS] or
    [TERSE_FILE_AND_LINE] hides it), rendered by a formatter of its own
    and hence exact, then [ (not found)], with the colour sequences
    around them, and nothing of the name or the location the frame may
    hold.  Without colours the text is the address followed by
    [ (not found)]. *)
Theorem X8_print_frame_not_found k s prefix options_ isTty_ frame :
  has_option options_ (TERSE k) = false ->
  found frame = false ->
  1 <= s <= 8 -> 0 <= addr frame < 16 ^ (2 * s) ->
  let w := Z.to_nat (2 * s) in
  let col := color k options_ isTty_ in
  print k s (zero_template prefix) options_ isTty_ frame
  = Some ((if shows_address k options_
           then col (kAddressColor k) ++ [prefix ++ hex_render w (addr frame)]
           else [])
            ++ col (kFunctionColor k) ++ [bytes " (not found)"]
            ++ col (Color_DEFAULT k)) /\
  (colours_off k options_ isTty_ = true ->
   option_map (@concat ascii) (print k s (zero_template prefix) options_ isTty_ frame)
   = Some ((if shows_address k options_
            then prefix ++ hex_render w (addr frame) else [])
             ++ bytes " (not found)")).
Proof.
  intros Hterse Hnf Hs Ha w col.
  assert (Hp : print k s (zero_template prefix) options_ isTty_ frame
               = Some ((if shows_address k options_
                        then col (kAddressColor k) ++ [prefix ++ hex_render w (addr frame)]
                        else [])
                         ++ col (kFunctionColor k) ++ [bytes " (not found)"]
                         ++ col (Color_DEFAULT k))).
  { unfold print. rewrite Hterse, Hnf. fold (shows_address k options_).
    destruct (shows_address k options_).
    - destruct (format_fresh s prefix (addr frame) Hs Ha) as (self' & -> & _).
      cbn [negb]. rewrite <- !app_assoc. reflexivity.
    - cbn [negb app]. reflexivity. }
  split; [exact Hp|].
  intros Hoff. rewrite Hp. subst col. rewrite !color_off by exact Hoff.
  destruct (shows_address k options_); cbn [option_map app concat];
    rewrite ?app_nil_r; reflexivity.
Qed.

(** X9.  What an option hides does not reach the output.  Outside the
    terse mode: with [NO_FILE_AND_LINE] the location of the frame is
    not printed, with [NO_FRAME_ADDRESS] or [TERSE_FILE_AND_LINE] the
    address is neither formatted nor printed (and the call cannot fail
    on it), and with [TERSE_FILE_AND_LINE] the name is not printed. *)
Theorem X9_print_hidden_parts_are_ignored k s bufTemplate options_ isTty_ frame :
  has_option options_ (TERSE k) = false ->
  (has_option options_ (NO_FILE_AND_LINE k) = true ->
   forall loc,
     print k s bufTemplate options_ isTty_ (set_location frame loc)
     = print k s bufTemplate options_ isTty_ frame) /\
  (shows_address k options_ = false ->
   (forall a,
      print k s bufTemplate options_ isTty_ (set_addr frame a)
      = print k s bufTemplate options_ isTty_ frame) /\
   print k s bufTemplate options_ isTty_ frame <> None) /\
  (has_option options_ (TERSE_FILE_AND_LINE k) = true ->
   forall n,
     print k s bufTemplate options_ isTty_ (set_name frame n)
     = print k s bufTemplate options_ isTty_ frame).
Proof.
  intros Hterse. split; [|split].
  - intros Hno loc. unfold print. rewrite Hterse, Hno.
    cbn [set_location found addr name negb]. unfold nonempty_name.
    cbn [set_location name]. reflexivity.
  - intros Hhide. split.
    + intros a. unfold print. rewrite Hterse.
      fold (shows_address k options_). rewrite Hhide.
      cbn [set_addr found name location]. unfold nonempty_name.
      cbn [set_addr name]. reflexivity.
    + unfold print. rewrite Hterse. fold (shows_address k options_). rewrite Hhide.
      destruct (negb (found frame)); discriminate.
  - intros Htfl n. unfold print. rewrite Hterse, Htfl.
    cbn [set_name found addr location negb andb]. rewrite andb_false_r.
    reflexivity.
Qed.

(** X10.  With [TERSE_FILE_AND_LINE] and without colours, a frame that
    is found is printed as its file, a colon and its line, or as
    [(unknown)] when it has no file and line; nothing is printed for
    it under [NO_FILE_AND_LINE]; and a frame that is not found is
    printed as [ (not found)]. *)
Theorem X10_terse_file_and_line k s bufTemplate options_ isTty_ frame :
  has_option options_ (TERSE k) = false ->
  has_option options_ (TERSE_FILE_AND_LINE k) = true ->
  colours_off k options_ isTty_ = true ->
  option_map (@concat ascii) (print k s bufTemplate options_ isTty_ frame)
  = Some (if negb (found frame) then bytes " (not found)"
          else if has_option options_ (NO_FILE_AND_LINE k) then []
          else if hasFileAndLine (location frame)
               then bytes (toBuffer k (location_file (location frame)) (PATH_MAX k))
                      ++ bytes ":"
                      ++ bytes (uint64ToBufferUnsafe k (line (location frame)))
               else bytes "(unknown)").
Proof.
  intros Hterse Htfl Hoff. unfold print. rewrite Hterse, Htfl.
  rewrite !color_off by exact Hoff.
  cbn [negb andb]. rewrite andb_false_r. cbn [app].
  destruct (found frame); cbn [negb]; [|reflexivity].
  destruct (has_option options_ (NO_FILE_AND_LINE k)); cbn [negb app option_map concat];
    [reflexivity|].
  rewrite andb_false_r.
  destruct (hasFileAndLine (location frame));
    cbn [app option_map concat]; rewrite ?app_nil_r; reflexivity.
Qed.

(** ** The buffered printer, call by call *)

Lemma flush_flush p :
  FDSymbolizePrinter_flush (FDSymbolizePrinter_flush p) = FDSymbolizePrinter_flush p.
Proof.
  unfold FDSymbolizePrinter_flush.
  destruct p as [[[cap d]|] fd]; cbn [buffer_ fd_ data capacity]; [|reflexivity].
  destruct d as [|c d]; cbn [buffer_ fd_ data capacity]; reflexivity.
Qed.

(** X11.  The file-descriptor printer loses and reorders nothing: after
    any sequence of [doPrint] calls, what the descriptor has received
    followed by what the buffer holds is what it was before followed by
    the texts in the order of the calls, whether a text went through
    the buffer or past it; a flush (and so the destructor) hands the
    descriptor all of it and empties the buffer; and a second flush
    writes nothing. *)
Theorem X11_fd_printer_keeps_every_byte_in_order texts p :
  printed (emit texts p) = printed p ++ concat texts /\
  written (fd_ (FDSymbolizePrinter_flush (emit texts p))) = printed p ++ concat texts /\
  pending (FDSymbolizePrinter_flush (emit texts p)) = [] /\
  FDSymbolizePrinter_destroy (emit texts p) = FDSymbolizePrinter_flush (emit texts p) /\
  FDSymbolizePrinter_flush (FDSymbolizePrinter_flush (emit texts p))
    = FDSymbolizePrinter_flush (emit texts p).
Proof.
  assert (He : printed (emit texts p) = printed p ++ concat texts).
  { unfold emit. cbn [printer_doPrint FDSymbolizePrinter_Printer].
    apply fold_doPrint_printed. }
  destruct (flush_printed (emit texts p)) as [Hw Hp].
  split; [exact He|]. split; [rewrite Hw; exact He|]. split; [exact Hp|].
  split; [reflexivity | apply flush_flush].
Qed.

Lemma doPrint_within sp p :
  buffer_within_capacity p -> buffer_within_capacity (doPrint sp p).
Proof.
  unfold buffer_within_capacity, doPrint, FDSymbolizePrinter_flush, tailroom.
  destruct p as [[[cap d]|] fd]; cbn [buffer_ fd_ data capacity]; [|auto].
  intros Hcap.
  destruct (Z.ltb_spec (cap - size d) (size sp)) as [Hbig | Hfits].
  - destruct d as [|c d]; cbn [buffer_ fd_ data capacity].
    + exact Hcap.
    + unfold size in *. cbn [length] in *. lia.
  - cbn [buffer_ data capacity]. unfold size in *. rewrite length_app. lia.
Qed.

Lemma emit_fd_cons text texts (p : FDSymbolizePrinter) :
  emit (text :: texts) p = emit texts (doPrint text p).
Proof. reflexivity. Qed.

(** X12.  How the file-descriptor printer uses its buffer.  The buffer
    never holds more than its capacity.  As long as the texts fit in
    what is left of it, nothing is written to the descriptor and the
    texts are appended to the buffer.  A text that does not fit is
    written by itself, straight after the content of the buffer, and
    leaves the buffer empty.  A printer without a buffer writes every
    text with a call of its own, and its flush does nothing. *)
Theorem X12_fd_printer_buffering p :
  (forall texts, buffer_within_capacity p -> buffer_within_capacity (emit texts p)) /\
  (forall b texts,
      buffer_ p = Some b ->
      size (data b) + size (concat texts) <= capacity b ->
      fd_ (emit texts p) = fd_ p /\
      pending (emit texts p) = data b ++ concat texts) /\
  (forall b sp,
      buffer_ p = Some b -> capacity b - size (data b) < size sp ->
      fd_ (doPrint sp p)
        = fd_ p ++ match data b with
                   | [] => []
                   | _ => [WriteFull (data b)]
                   end ++ [WriteFull sp] /\
      pending (doPrint sp p) = []) /\
  (buffer_ p = None ->
   (forall texts,
       fd_ (emit texts p) = fd_ p ++ map WriteFull texts /\
       buffer_ (emit texts p) = None) /\
   FDSymbolizePrinter_flush p = p).
Proof.
  split; [|split; [|split]].
  - intros texts. revert p. induction texts as [|t texts IH]; intros p Hcap.
    + exact Hcap.
    + rewrite emit_fd_cons. apply IH, doPrint_within, Hcap.
  - intros b texts. revert p b.
    induction texts as [|t texts IH]; intros p b Hb Hfit.
    + cbn [emit fold_left concat]. unfold pending. rewrite Hb, app_nil_r. auto.
    + rewrite emit_fd_cons. cbn [concat] in Hfit |- *.
      unfold size in Hfit. rewrite length_app in Hfit.
      assert (Hstep : doPrint t p =
                {| buffer_ := Some {| capacity := capacity b; data := data b ++ t |};
                   fd_ := fd_ p |}).
      { unfold doPrint, tailroom. rewrite Hb.
        replace (capacity b - size (data b) <? size t) with false
          by (symmetry; apply Z.ltb_ge; unfold size; lia).
        reflexivity. }
      rewrite Hstep.
      destruct (IH {| buffer_ := Some {| capacity := capacity b; data := data b ++ t |};
                      fd_ := fd_ p |}
                   {| capacity := capacity b; data := data b ++ t |}) as [Hfd Hpend].
      * reflexivity.
      * cbn [data capacity]. unfold size. rewrite length_app. lia.
      * cbn [fd_ data] in Hfd, Hpend. rewrite Hfd, Hpend, <- app_assoc. auto.
  - intros b sp Hb Hbig. unfold doPrint, tailroom, FDSymbolizePrinter_flush, pending.
    rewrite Hb.
    replace (capacity b - size (data b) <? size sp) with true
      by (symmetry; apply Z.ltb_lt; lia).
    destruct (data b) as [|c d] eqn:Hd; cbn [buffer_ fd_ data]; rewrite ?Hb, ?Hd.
    + auto.
    + rewrite <- app_assoc. auto.
  - intros Hnone. split.
    + intros texts. revert p Hnone. induction texts as [|t texts IH]; intros p Hnone.
      * cbn [emit fold_left map]. rewrite app_nil_r. auto.
      * rewrite emit_fd_cons.
        assert (Hstep : doPrint t p = {| buffer_ := None; fd_ := fd_ p ++ [WriteFull t] |}).
        { unfold doPrint. rewrite Hnone. reflexivity. }
        rewrite Hstep.
        destruct (IH {| buffer_ := None; fd_ := fd_ p ++ [WriteFull t] |} eq_refl)
          as [Hfd Hbuf].
        cbn [fd_] in Hfd. rewrite Hfd, Hbuf, <- app_assoc. auto.
    + unfold FDSymbolizePrinter_flush. rewrite Hnone. reflexivity.
Qed.

(** ** The system calls of the alternate stack *)

(** X13.  The system calls of
    [UnsafeSelfAllocateStackTracePrinter::printSymbolizedStackTrace].
    Without a positive page size or a context, none is made.
    Otherwise the first is the [mmap] of [kMmapStackSize] bytes; up to
    two [mprotect] calls follow, the first on the first page and the
    second on the tail from [upperBound], and none when [mmap] returned
    null; and whenever [mmap] returned a pointer that is not null the
    last call, after the printing if it ran, is the one [munmap] of
    that pointer and size.  The printing runs only after both
    protections, and each protected range lies inside the mapping. *)
Theorem X13_alternate_stack_system_calls os pageSizeUnchecked_ symbolized :
  - 2 ^ 63 <= pageSizeUnchecked_ < 2 ^ 63 ->
  let p := mmap_result os in
  let ub := upperBound_of pageSizeUnchecked_ in
  exists att,
    printSymbolizedStackTrace os pageSizeUnchecked_ symbolized = Some att /\
    (pageSizeUnchecked_ <= 0 \/ getcontext_ok os = false -> syscalls att = []) /\
    (0 < pageSizeUnchecked_ -> getcontext_ok os = true ->
     exists protects,
       syscalls att
         = [Mmap kMmapStackSize] ++ protects
             ++ (if p =? 0 then [] else [Munmap p kMmapStackSize]) /\
       (protects = [] \/ protects = [Mprotect p pageSizeUnchecked_] \/
        protects = [Mprotect p pageSizeUnchecked_;
                    Mprotect (wrap (p + ub)) (kMmapStackSize - ub)]) /\
       (p = 0 -> protects = []) /\
       (ran_on att <> None ->
        protects = [Mprotect p pageSizeUnchecked_;
                    Mprotect (wrap (p + ub)) (kMmapStackSize - ub)]) /\
       (0 <= p -> p + kMmapStackSize <= 2 ^ 64 ->
        Forall (fun call =>
                  match call with
                  | Mprotect start len =>
                      p <= start /\ 0 < len /\ start + len <= p + kMmapStackSize
                  | _ => True
                  end) protects)).
Proof.
  intros Hlong p ub. unfold printSymbolizedStackTrace.
  destruct (pageSizeUnchecked_ <=? 0) eqn:Hpos.
  { apply Z.leb_le in Hpos. eexists. split; [reflexivity|].
    cbn [no_attempt syscalls]. split; [reflexivity|]. intros; lia. }
  apply Z.leb_gt in Hpos.
  destruct (getcontext_ok os) eqn:Hget; cbn [negb].
  2:{ eexists. split; [reflexivity|]. cbn [no_attempt syscalls].
      split; [reflexivity|]. intros; discriminate. }
  rewrite (wrap_small pageSizeUnchecked_) by lia.
  set (ps := pageSizeUnchecked_) in *.
  assert (Hk : kMmapStackSize = 1048576) by reflexivity.
  unfold allocateStack, release. fold p.
  destruct (p =? 0) eqn:Hp0.
  { apply Z.eqb_eq in Hp0. rewrite Z.eqb_refl.
    eexists. split; [reflexivity|]. cbn [no_attempt syscalls ran_on].
    split; [intros [H | H]; [lia | discriminate]|].
    intros _ _. exists []. rewrite app_nil_r.
    repeat split; auto; congruence. }
  apply Z.eqb_neq in Hp0.
  rewrite (wrap_small (ps * 2)) by lia.
  destruct (kMmapStackSize <=? ps * 2) eqn:Hfit.
  { rewrite Z.eqb_refl. eexists. split; [reflexivity|].
    cbn [no_attempt syscalls ran_on].
    split; [intros [H | H]; [lia | discriminate]|].
    intros _ _. exists []. repeat split; auto; try congruence; lia. }
  apply Z.leb_gt in Hfit.
  replace (ps =? 0) with false by (symmetry; apply Z.eqb_neq; lia).
  fold (upperBound_of ps). fold ub.
  destruct (upperBound_facts ps) as (Hub2 & Hub1 & Hub3); [lia | lia |].
  fold ub in Hub1, Hub2, Hub3.
  rewrite (wrap_small ub) by lia.
  rewrite (size_sub_small kMmapStackSize ub) by lia.
  rewrite (size_sub_small ub ps) by lia.
  assert (Hfirst : 0 <= p -> p + kMmapStackSize <= 2 ^ 64 ->
                   p <= p /\ 0 < ps /\ p + ps <= p + kMmapStackSize) by lia.
  assert (Hsecond : 0 <= p -> p + kMmapStackSize <= 2 ^ 64 ->
                    p <= wrap (p + ub) /\ 0 < kMmapStackSize - ub /\
                    wrap (p + ub) + (kMmapStackSize - ub) <= p + kMmapStackSize).
  { intros H0 H1. rewrite wrap_small by lia. lia. }
  destruct (mprotect_ok os p ps) eqn:Hm1; cbn [negb].
  2:{ rewrite Z.eqb_refl. eexists. split; [reflexivity|].
      cbn [no_attempt syscalls ran_on].
      split; [intros [H | H]; [lia | discriminate]|].
      intros _ _. exists [Mprotect p ps]. rewrite <- !app_assoc.
      repeat split; auto; try congruence;
        try (intros H0 H1; repeat constructor; apply Hfirst; assumption). }
  destruct (mprotect_ok os (wrap (p + ub)) (kMmapStackSize - ub)) eqn:Hm2; cbn [negb].
  2:{ rewrite Z.eqb_refl. eexists. split; [reflexivity|].
      cbn [no_attempt syscalls ran_on].
      split; [intros [H | H]; [lia | discriminate]|].
      intros _ _. exists [Mprotect p ps; Mprotect (wrap (p + ub)) (kMmapStackSize - ub)].
      rewrite <- !app_assoc.
      repeat split; auto; try congruence;
        try (intros H0 H1; repeat constructor;
             first [apply Hfirst | apply Hsecond]; assumption). }
  replace (p =? 0) with false by (symmetry; apply Z.eqb_neq; exact Hp0).
  destruct (swapcontext_ok os); cbn [negb].
  - eexists. split; [reflexivity|]. cbn [syscalls ran_on].
    split; [intros [H | H]; [lia | discriminate]|].
    intros _ _. exists [Mprotect p ps; Mprotect (wrap (p + ub)) (kMmapStackSize - ub)].
    rewrite <- !app_assoc.
    repeat split; auto; try congruence;
      try (intros H0 H1; repeat constructor;
           first [apply Hfirst | apply Hsecond]; assumption).
  - eexists. split; [reflexivity|]. cbn [no_attempt syscalls ran_on].
    split; [intros [H | H]; [lia | discriminate]|].
    intros _ _. exists [Mprotect p ps; Mprotect (wrap (p + ub)) (kMmapStackSize - ub)].
    rewrite <- !app_assoc.
    repeat split; auto; try congruence;
      try (intros H0 H1; repeat constructor;
           first [apply Hfirst | apply Hsecond]; assumption).
Qed.

Lemma upperBound_aligned ps :
  0 < ps -> upperBound_of ps mod ps = 0.
Proof. intros Hps. unfold upperBound_of. apply Z.mod_mul. lia. Qed.

Lemma upperBound_exact ps :
  0 < ps -> kMmapStackSize mod ps = 0 -> upperBound_of ps = kMmapStackSize - ps.
Proof.
  intros Hps Hdiv. unfold upperBound_of.
  apply Z.mod_divide in Hdiv; [|lia]. destruct Hdiv as [q Hq].
  assert (Hk : kMmapStackSize = 1048576) by reflexivity.
  assert (Hdivq : (kMmapStackSize - 1) / ps = q - 1).
  { symmetry. apply Z.div_unique with (r := ps - 1); lia. }
  rewrite Hdivq. lia.
Qed.

(** X19.  [allocateStack] for a positive page size.  When it returns
    the null pointer the context's stack is as it was.  When it returns
    the mapping, the stack starts one page into it, its size is a whole
    number of pages and at least one, its flags are zero, and the first
    guard, the stack and the last guard fill the mapping exactly; for a
    page size that divides [kMmapStackSize] both guards are one page and
    the stack is what lies between them.  For the page size zero the
    function divides by it once the mapping exists: it is the caller's
    test of [pageSizeUnchecked_] that keeps zero away. *)
Theorem X19_allocateStack_layout os uc :
  (forall ps,
      0 < ps < 2 ^ 63 ->
      exists p uc' gs calls,
        allocateStack os uc ps = Some (p, uc', gs, calls) /\
        (p = 0 -> uc' = uc) /\
        (p <> 0 ->
         p = mmap_result os /\
         ss_flags uc' = 0 /\
         ss_sp uc' = wrap (p + ps) /\
         ss_size uc' mod ps = 0 /\
         ps <= ss_size uc' /\
         ps + ss_size uc' + (kMmapStackSize - upperBound_of ps) = kMmapStackSize /\
         (kMmapStackSize mod ps = 0 ->
          ss_size uc' = kMmapStackSize - 2 * ps /\
          gs = [(p, ps); (wrap (p + (kMmapStackSize - ps)), ps)]))) /\
  (mmap_result os <> 0 -> allocateStack os uc 0 = None).
Proof.
  split.
  2:{ intros Hp. unfold allocateStack.
      replace (mmap_result os =? 0) with false
        by (symmetry; apply Z.eqb_neq; exact Hp).
      reflexivity. }
  intros ps Hps.
  destruct (allocateStack_cases os uc ps Hps) as (calls & Hcases).
  destruct Hcases as [(Hrun & _) | [(Hrun & _) | (Hrun & Hp0 & Hfit & _)]].
  - eexists _, _, _, _. split; [exact Hrun|]. split; [reflexivity | congruence].
  - eexists _, _, _, _. split; [exact Hrun|]. split; [reflexivity | congruence].
  - eexists _, _, _, _. split; [exact Hrun|]. split; [congruence|].
    intros _. cbn [ss_flags ss_sp ss_size].
    destruct (upperBound_facts ps) as (Hub2 & Hub1 & Hub3); [lia | lia |].
    pose proof (upperBound_aligned ps (proj1 Hps)) as Hal.
    repeat split; try lia.
    + rewrite <- (Z.mod_add _ 1 ps) by lia.
      replace (upperBound_of ps - ps + 1 * ps) with (upperBound_of ps) by lia.
      exact Hal.
    + rewrite upperBound_exact by (lia || assumption). lia.
    + rewrite upperBound_exact by (lia || assumption).
      replace (kMmapStackSize - (kMmapStackSize - ps)) with ps by lia.
      reflexivity.
Qed.

(** ** The stack-trace printers *)

Section AnyPrinter.

Context {P : Type} `{Printer P}.

(** What a printer has been given to print: for the printers of the
    file, [doPrint] adds its text at the end and [flush] adds nothing. *)
Variable text : P -> list ascii.
Hypothesis text_doPrint :
  forall sp p, text (printer_doPrint sp p) = text p ++ sp.
Hypothesis text_flush : forall p, text (printer_flush p) = text p.

Lemma emit_text texts : forall p, text (emit texts p) = text p ++ concat texts.
Proof.
  unfold emit. induction texts as [|t texts IH]; intros p; cbn [fold_left concat].
  - symmetry. apply app_nil_r.
  - rewrite IH, text_doPrint, <- app_assoc. reflexivity.
Qed.

Lemma print_addresses_on_text s : forall addresses formatter p,
  match print_addresses_on s formatter addresses p with
  | Some r =>
      exists texts,
        format_all s formatter addresses = Some texts /\
        text r = text p ++ concat (map (fun t => t ++ [LF]) texts)
  | None => format_all s formatter addresses = None
  end.
Proof.
  induction addresses as [|a rest IH]; intros formatter p;
    cbn [print_addresses_on format_all].
  - exists []. split; [reflexivity|]. symmetry. apply app_nil_r.
  - destruct (format s formatter a) as [[t formatter']|]; [|reflexivity].
    specialize (IH formatter' (printer_doPrint [LF] (printer_doPrint t p))).
    destruct (print_addresses_on s formatter' rest _) as [r|].
    + destruct IH as (texts & -> & Htext).
      exists (t :: texts). split; [reflexivity|].
      rewrite Htext, !text_doPrint. cbn [map concat].
      rewrite <- !app_assoc. reflexivity.
    + rewrite IH. reflexivity.
Qed.

(** X14.  [FastStackTracePrinter::printStackTrace], on any printer whose
    [doPrint] appends and whose [flush] adds nothing: a failed capture
    prints the error literal and nothing else; the address-only branch
    prints the safe-mode notice and then one line per captured address,
    each a view returned by [format] on the one formatter of the loop,
    and leaves the symbolizer alone; the symbolizing branch prints what
    [println] makes of the array after the first two frames and keeps
    the symbolizer as [symbolize] left it. *)
Theorem X14_fast_printer_output k env s bufTemplate options_ isTty_ symbolizer_ printer_ :
  (forall symbolize,
      exists r,
        FastStackTracePrinter_printStackTrace k env s bufTemplate options_ isTty_
          None symbolize symbolizer_ printer_ = Some (r, symbolizer_) /\
        text r = text printer_ ++ bytes "(error retrieving stack trace)" ++ [LF]) /\
  (forall prefix fa addrs,
      bufTemplate = zero_template prefix -> 1 <= s <= 8 ->
      captured fa = Some addrs ->
      Forall (fun a => 0 <= a < 16 ^ (2 * s)) addrs ->
      exists r texts,
        FastStackTracePrinter_printStackTrace k env s bufTemplate options_ isTty_
          (Some fa) false symbolizer_ printer_ = Some (r, symbolizer_) /\
        format_all s (AddressFormatter_new bufTemplate) addrs = Some texts /\
        text r = text printer_
                   ++ (bytes "(safe mode, symbolizer not available)" ++ [LF])
                   ++ concat (map (fun t => t ++ [LF]) texts)) /\
  (forall fa fa' symbolizer' q texts,
      symbolize_FrameArray env symbolizer_ fa = Some (fa', symbolizer', q) ->
      println_FrameArray k s bufTemplate options_ isTty_ fa' 2 = Some texts ->
      exists r,
        FastStackTracePrinter_printStackTrace k env s bufTemplate options_ isTty_
          (Some fa) true symbolizer_ printer_ = Some (r, symbolizer') /\
        text r = text printer_ ++ concat texts).
Proof.
  split; [|split].
  - intros symbolize. unfold FastStackTracePrinter_printStackTrace.
    eexists. split; [reflexivity|]. rewrite text_flush, text_doPrint. reflexivity.
  - intros prefix fa addrs -> Hs Hcap Hall.
    unfold FastStackTracePrinter_printStackTrace. rewrite Hcap.
    pose proof (size_new_zero_template prefix) as Hsz.
    destruct (format_all_spec s addrs
                (AddressFormatter_new (zero_template prefix)) Hs)
      as (texts & Hfa & _); [lia | exact Hall |].
    match goal with
    | |- context [print_addresses_on s ?f ?a ?q] =>
        pose proof (print_addresses_on_text s a f q) as Hrun;
        destruct (print_addresses_on s f a q) as [r|]
    end.
    + destruct Hrun as (texts' & Hfa' & Htext).
      rewrite Hfa in Hfa'. injection Hfa' as <-.
      eexists _, texts. split; [reflexivity|]. split; [exact Hfa|].
      rewrite text_flush, Htext, text_doPrint, <- !app_assoc. reflexivity.
    + congruence.
  - intros fa fa' symbolizer' q texts Hsym Hprint.
    unfold FastStackTracePrinter_printStackTrace. rewrite Hsym, Hprint.
    eexists. split; [reflexivity|]. rewrite text_flush. apply emit_text.
Qed.

End AnyPrinter.

Lemma println_frames_app k s bufTemplate options_ isTty_ : forall n l r,
  (n <= length l)%nat ->
  println_frames k s bufTemplate options_ isTty_ (l ++ r) n
  = println_frames k s bufTemplate options_ isTty_ l n.
Proof.
  induction n as [|n IH]; intros l r Hn; [reflexivity|].
  destruct l as [|f l]; [cbn [length] in Hn; lia|].
  cbn [length] in Hn. cbn [app println_frames].
  rewrite IH by lia. reflexivity.
Qed.

Lemma Forall_unfound_none fs :
  Forall (fun f => found f = false) fs ->
  fs = [] \/ Exists (fun f => found f = false) fs.
Proof.
  destruct 1 as [|f fs Hf _]; [left; reflexivity|].
  right. constructor. exact Hf.
Qed.

(** X15.  [SafeStackTracePrinter::printSymbolizedStackTrace], for an
    array whose frames of the captured addresses are not found, in a
    process whose chain of objects can be walked: every captured
    address is resolved on its own against the first object that
    contains it (mode [FULL], no symbol cache, no inline frames), the
    rest of the array is not touched, and the lines printed are those
    of the resolved frames after the first two, none when no more than
    two addresses were captured; [printStackTrace] hands exactly these
    lines to the descriptor before it flushes and syncs. *)
Theorem X15_safe_printer_symbolized_trace k env s bufTemplate options_ isTty_
    addresses_ selfPath p :
  let n := fa_frameCount addresses_ in
  let addrs := firstn n (fa_addresses addresses_) in
  let resolved :=
    map (fun af => resolved_frame env FULL selfPath (fst af) (snd af))
        (combine addrs (fa_frames addresses_)) in
  (n <= length (fa_addresses addresses_))%nat ->
  (n <= length (fa_frames addresses_))%nat ->
  size (fa_frames addresses_) < 2 ^ 64 ->
  r_version env = 1 -> readlink_self_exe env = Some selfPath ->
  Forall (fun f => found f = false) (firstn n (fa_frames addresses_)) ->
  forall texts,
    println_frames k s bufTemplate options_ isTty_ (skipn 2 resolved) (n - 2)
      = Some texts ->
    ((n <= 2)%nat -> texts = []) /\
    exists fa,
      SafeStackTracePrinter_printSymbolizedStackTrace k env s bufTemplate
        options_ isTty_ addresses_ = Some (texts, fa) /\
      fa_frames fa = resolved ++ skipn n (fa_frames addresses_) /\
      fa_frameCount fa = n /\
      exists r,
        printStackTrace s bufTemplate (Some addrs) texts true p = Some r /\
        written (fd_ r) = printed p ++ concat texts /\
        pending r = [] /\ synced r.
Proof.
  intros n addrs resolved Hna Hnf HN Hv Hself Hunfound texts Hprint.
  assert (Hla : length addrs = n).
  { subst addrs. rewrite length_firstn. lia. }
  assert (Hlr : length resolved = n).
  { subst resolved. rewrite length_map, length_combine. lia. }
  split.
  { intros Hn2. replace (n - 2)%nat with O in Hprint by lia.
    cbn [println_frames] in Hprint. congruence. }
  assert (Hsym : exists q,
             symbolize env (Symbolizer_new FULL 0) addrs (fa_frames addresses_)
             = Some (resolved ++ skipn n (fa_frames addresses_),
                     Symbolizer_new FULL 0, q)).
  { destruct (Forall_unfound_none _ Hunfound) as [Hnil | Hex].
    - assert (Hn0 : n = O).
      { apply (f_equal (@length _)) in Hnil. rewrite length_firstn in Hnil.
        cbn [length] in Hnil. lia. }
      exists []. rewrite symbolize_all_found.
      + subst resolved. destruct addrs; [|cbn [length] in Hla; lia].
        rewrite Hn0. reflexivity.
      + lia.
      + rewrite Hla, Hnil. constructor.
    - destruct (symbolize_flat env (Symbolizer_new FULL 0)
                  addrs (fa_frames addresses_) selfPath) as (q & Hq);
        try assumption; try reflexivity.
      + lia.
      + left. discriminate.
      + rewrite Hla. exact Hex.
      + exists q. rewrite Hq, Hla. reflexivity. }
  destruct Hsym as (q & Hsym).
  unfold SafeStackTracePrinter_printSymbolizedStackTrace, symbolize_FrameArray,
    captured.
  fold n. replace (n <=? length (fa_addresses addresses_))%nat with true
    by (symmetry; apply Nat.leb_le; exact Hna).
  fold addrs. rewrite Hsym.
  unfold println_FrameArray. cbn [fa_frameCount fa_frames].
  assert (Hlines :
            (if (2 <? n)%nat
             then println_frames k s bufTemplate options_ isTty_
                    (skipn 2 (resolved ++ skipn n (fa_frames addresses_))) (n - 2)
             else Some [])
            = Some texts).
  { destruct (Nat.ltb_spec 2 n) as [Hbig | Hsmall].
    - rewrite skipn_app.
      replace (2 - length resolved)%nat with O by lia.
      change (skipn 0 (skipn n (fa_frames addresses_)))
        with (skipn n (fa_frames addresses_)).
      rewrite println_frames_app; [exact Hprint|].
      rewrite length_skipn. lia.
    - replace (n - 2)%nat with O in Hprint by lia.
      cbn [println_frames] in Hprint. exact Hprint. }
  rewrite Hlines.
  eexists. split; [reflexivity|]. cbn [fa_frames fa_frameCount].
  split; [reflexivity|]. split; [reflexivity|].
  unfold printStackTrace.
  eexists. split; [reflexivity|].
  match goal with
  | |- context [SafeStackTracePrinter_flush ?q] =>
      destruct (SafeStackTracePrinter_flush_spec q) as (Hw & Hp & Hsy)
  end.
  rewrite Hw, fold_doPrint_printed. auto.
Qed.

(** ** From the address to the printed line *)

Lemma found_or_unfound fs :
  Forall (fun f => found f = true) fs \/ Exists (fun f => found f = false) fs.
Proof.
  induction fs as [|f fs IH]; [left; constructor|].
  destruct (found f) eqn:Hf.
  - destruct IH as [IH | IH]; [left; constructor; assumption | right].
    apply Exists_cons_tl. exact IH.
  - right. apply Exists_cons_hd. exact Hf.
Qed.

Lemma resolved_frame_found env mode selfPath a f :
  found f = true \/ first_object env selfPath (r_map env) a <> None ->
  found (resolved_frame env mode selfPath a f) = true.
Proof.
  intros Hcase. unfold resolved_frame.
  destruct (found f) eqn:Hf; [exact Hf|].
  destruct (first_object env selfPath (r_map env) a) as [[lmap elf]|].
  - apply setSymbolizedFrame_found.
  - destruct Hcase as [H | H]; congruence.
Qed.

(** X16.  Without a symbol cache and without inline frames, once a call
    has resolved every address (each frame was found before, or some
    object of the chain contains its address) the frames of the
    addresses are all found, and a second call with the same addresses
    on the buffer it left changes nothing and asks nothing. *)
Theorem X16_second_call_is_noop_when_all_resolved env s addrs fs selfPath :
  (length addrs <= length fs)%nat -> size fs < 2 ^ 64 ->
  symbolCache_ s = None ->
  mode_ s <> FULL_WITH_INLINE \/ length fs = length addrs ->
  r_version env = 1 -> readlink_self_exe env = Some selfPath ->
  Forall (fun af => found (snd af) = true \/
                    first_object env selfPath (r_map env) (fst af) <> None)
         (combine addrs fs) ->
  exists fs1 q1,
    symbolize env s addrs fs = Some (fs1, s, q1) /\
    length fs1 = length fs /\
    Forall (fun f => found f = true) (firstn (length addrs) fs1) /\
    symbolize env s addrs fs1 = Some (fs1, s, []).
Proof.
  intros Hlen HN Hc Hmode Hv Hself Hall.
  destruct (found_or_unfound (firstn (length addrs) fs)) as [Hdone | Hex].
  { exists fs, []. rewrite symbolize_all_found by assumption. auto. }
  destruct (symbolize_flat env s addrs fs selfPath Hlen HN Hc Hmode Hv Hself Hex)
    as (q & Hq).
  set (G := fun af : Z * SymbolizedFrame =>
              resolved_frame env (mode_ s) selfPath (fst af) (snd af)) in *.
  assert (Hcomb : length (combine addrs fs) = length addrs).
  { rewrite length_combine. lia. }
  assert (Hfound : Forall (fun f => found f = true)
                     (firstn (length addrs)
                        (map G (combine addrs fs) ++ skipn (length addrs) fs))).
  { rewrite firstn_app_exact by (rewrite length_map; lia).
    apply Forall_map. eapply Forall_impl; [|exact Hall].
    intros [a f] Hcase. apply resolved_frame_found. exact Hcase. }
  assert (Hlen1 : length (map G (combine addrs fs) ++ skipn (length addrs) fs)
                  = length fs).
  { rewrite length_app, length_map, Hcomb, length_skipn. lia. }
  eexists _, q. split; [exact Hq|]. split; [exact Hlen1|]. split; [exact Hfound|].
  apply symbolize_all_found; [lia | exact Hfound].
Qed.

Lemma padBuf_spaces s :
  1 <= s <= 8 ->
  firstn (Z.to_nat (size padBuf - (16 - 2 * s))) padBuf
  = repeat " "%char (Z.to_nat (7 + 2 * s)).
Proof.
  intros Hs. change padBuf with (repeat " "%char 23).
  unfold size. rewrite repeat_length.
  replace (Z.to_nat (Z.of_nat 23 - (16 - 2 * s))) with (Z.to_nat (7 + 2 * s)) by lia.
  apply firstn_repeat_le. lia.
Qed.

(** X17.  The line of a frame that is found, with none of the options
    and without colours: the address in [2 * sizeof(uintptr_t)] digits
    after the prefix; a space and the demangled name (the name itself
    when the demangler leaves nothing), or [ (unknown)] for a frame
    without a name; on a line of its own after [7 + 2 *
    sizeof(uintptr_t)] spaces, the file, a colon and the line, when
    the frame has them; and on a further such line after [-> ] the main
    file, when the frame has one and it differs from the file
    printed or no file was printed. *)
Theorem X17_print_found_frame_in_full k s prefix options_ isTty_ frame :
  has_option options_ (TERSE k) = false ->
  has_option options_ (NO_FRAME_ADDRESS k) = false ->
  has_option options_ (TERSE_FILE_AND_LINE k) = false ->
  has_option options_ (NO_FILE_AND_LINE k) = false ->
  colours_off k options_ isTty_ = true ->
  found frame = true ->
  1 <= s <= 8 -> 0 <= addr frame < 16 ^ (2 * s) ->
  let loc := location frame in
  let fileBuf := toBuffer k (location_file loc) (PATH_MAX k) in
  let mainFileBuf := toBuffer k (mainFile loc) (PATH_MAX k) in
  let pad := repeat " "%char (Z.to_nat (7 + 2 * s)) in
  option_map (@concat ascii) (print k s (zero_template prefix) options_ isTty_ frame)
  = Some ((prefix ++ hex_render (Z.to_nat (2 * s)) (addr frame))
            ++ match nonempty_name frame with
               | None => bytes " (unknown)"
               | Some n => bytes " " ++ demangled_or_raw k n
               end
            ++ (if hasFileAndLine loc
                then [LF] ++ pad ++ bytes fileBuf ++ bytes ":"
                       ++ bytes (uint64ToBufferUnsafe k (line loc))
                else [])
            ++ (if hasMainFile loc
                   && (negb (hasFileAndLine loc)
                       || negb (String.eqb fileBuf mainFileBuf))
                then [LF] ++ pad ++ bytes "-> " ++ bytes mainFileBuf
                else [])).
Proof.
  intros Hterse Hnfa Htfl Hnfl Hoff Hfound Hs Ha loc fileBuf mainFileBuf pad.
  subst loc fileBuf mainFileBuf pad.
  unfold print. rewrite Hterse, Hnfa, Htfl, Hnfl, Hfound.
  rewrite !color_off by exact Hoff. cbn [negb andb].
  destruct (format_fresh s prefix (addr frame) Hs Ha) as (self' & -> & _).
  rewrite padBuf_spaces by exact Hs.
  destruct (nonempty_name frame) as [n|];
    destruct (hasFileAndLine (location frame));
    destruct (hasMainFile (location frame));
    try destruct (String.eqb _ _);
    cbn [negb andb orb app concat option_map];
    rewrite ?app_nil_r, <- ?app_assoc; reflexivity.
Qed.

(** X18.  One address, without a symbol cache and without inline
    frames.  When no object of the chain contains it, the frame is the
    empty frame with the raw address, not found.  When the first object
    that contains it defines a symbol there, the frame is found and
    holds the address relative to the object, the symbol's name, the
    location of the debug information and the object.  When that object
    defines no symbol there, the frame is marked found all the same but
    holds nothing, not even the address: it is printed as the address
    zero followed by [ (unknown)]. *)
Theorem X18_one_address_three_outcomes env s a f0 rest selfPath :
  size (f0 :: rest) < 2 ^ 64 -> symbolCache_ s = None ->
  mode_ s <> FULL_WITH_INLINE \/ length (f0 :: rest) = length [a] ->
  r_version env = 1 -> readlink_self_exe env = Some selfPath ->
  found f0 = false ->
  let anonymous :=
    {| found := true; addr := 0; name := None;
       location := LocationInfo_default; file := None |} in
  (first_object env selfPath (r_map env) a = None ->
   exists q,
     symbolize env s [a] (f0 :: rest)
     = Some (set_addr SymbolizedFrame_clear a :: rest, s, q)) /\
  (forall lmap elf sym,
      first_object env selfPath (r_map env) a = Some (lmap, elf) ->
      getDefinitionByAddress env elf (wrap (a - l_addr lmap)) = Some sym ->
      exists q,
        symbolize env s [a] (f0 :: rest)
        = Some ({| found := true; addr := wrap (a - l_addr lmap);
                   name := getSymbolName env elf sym;
                   location :=
                     fst (findAddress env elf (wrap (a - l_addr lmap)) (mode_ s) O);
                   file := Some elf |} :: rest, s, q)) /\
  (forall lmap elf,
      first_object env selfPath (r_map env) a = Some (lmap, elf) ->
      getDefinitionByAddress env elf (wrap (a - l_addr lmap)) = None ->
      exists q,
        symbolize env s [a] (f0 :: rest) = Some (anonymous :: rest, s, q)) /\
  (forall k sp prefix options_ isTty_,
      1 <= sp <= 8 ->
      has_option options_ (TERSE k) = false ->
      shows_address k options_ = true ->
      colours_off k options_ isTty_ = true ->
      option_map (@concat ascii)
        (print k sp (zero_template prefix) options_ isTty_ anonymous)
      = Some (prefix ++ repeat "0"%char (Z.to_nat (2 * sp)) ++ bytes " (unknown)")).
Proof.
  intros HN Hc Hmode Hv Hself Hf0 anonymous.
  assert (Hrun : exists q,
             symbolize env s [a] (f0 :: rest)
             = Some (resolved_frame env (mode_ s) selfPath a f0 :: rest, s, q)).
  { destruct (symbolize_flat env s [a] (f0 :: rest) selfPath) as (q & Hq);
      try assumption.
    - cbn [length]. lia.
    - cbn [length firstn]. constructor. exact Hf0.
    - exists q. exact Hq. }
  destruct Hrun as (q & Hrun). unfold resolved_frame in Hrun. rewrite Hf0 in Hrun.
  split; [|split; [|split]].
  - intros Hnone. rewrite Hnone in Hrun. exists q. exact Hrun.
  - intros lmap elf sym Hobj Hsym. rewrite Hobj in Hrun.
    unfold setSymbolizedFrame in Hrun. rewrite Hsym in Hrun.
    destruct (findAddress env elf (wrap (a - l_addr lmap)) (mode_ s) 0)
      as [loc inlined].
    exists q. exact Hrun.
  - intros lmap elf Hobj Hsym. rewrite Hobj in Hrun.
    unfold setSymbolizedFrame in Hrun. rewrite Hsym in Hrun.
    exists q. exact Hrun.
  - intros k sp prefix options_ isTty_ Hs Hterse Hshow Hoff.
    unfold print. rewrite Hterse. fold (shows_address k options_). rewrite Hshow.
    rewrite !color_off by exact Hoff.
    assert (Htfl : has_option options_ (TERSE_FILE_AND_LINE k) = false).
    { unfold shows_address in Hshow. apply andb_true_iff in Hshow.
      destruct Hshow as [_ H]. apply negb_true_iff in H. exact H. }
    rewrite Htfl.
    destruct (format_fresh sp prefix 0 Hs) as (self' & Hfmt & _).
    { split; [lia|]. apply Z.pow_pos_nonneg; lia. }
    cbn [anonymous addr found name location nonempty_name negb andb
         hasFileAndLine hasMainFile LocationInfo_default].
    rewrite Hfmt, hex_render_zero.
    destruct (negb (has_option options_ (NO_FILE_AND_LINE k)));
      cbn [app concat option_map]; rewrite ?app_nil_r, <- ?app_assoc; reflexivity.
Qed.

(** ** Inline expansion of a whole trace *)

(** The views of a buffer made of the frames done, the frame at hand,
    the frames still pending, and the tail. *)
Lemma layout_views {A} (done : list A) (f : A) (pend tail : list A) (k : nat) :
  let fs := done ++ (f :: pend) ++ tail in
  let i := length done in
  let ac := (length done + S (length pend))%nat in
  nth_error fs i = Some f /\
  firstn i fs = done /\
  sublist (i + 1) ac fs = pend /\
  skipn ac fs = tail /\
  skipn (ac + k) fs = skipn k tail.
Proof.
  intros fs i ac. subst fs i ac.
  split; [|split; [|split; [|split]]].
  - rewrite nth_error_app2 by lia. rewrite Nat.sub_diag. reflexivity.
  - apply firstn_app_exact. reflexivity.
  - unfold sublist.
    replace (done ++ (f :: pend) ++ tail) with ((done ++ [f]) ++ pend ++ tail)
      by (rewrite <- !app_assoc; reflexivity).
    rewrite skipn_app_exact by (rewrite length_app; cbn [length]; lia).
    apply firstn_app_exact. lia.
  - rewrite app_assoc. apply skipn_app_exact.
    rewrite length_app. cbn [length]. lia.
  - rewrite app_assoc.
    replace (length done + S (length pend) + k)%nat
      with (k + length (done ++ f :: pend))%nat
      by (rewrite length_app; cbn [length]; lia).
    rewrite <- skipn_skipn. f_equal. apply skipn_app_exact. reflexivity.
Qed.

(** Resolution under [FULL_WITH_INLINE] when the buffer has no frame to
    spare. *)
Lemma resolve_no_slack env N lmap elf i a st sym loc chain :
  symbolCache st = None -> addrCount st = N -> N < 2 ^ 64 ->
  0 <= i < N -> 1 <= remaining st < 2 ^ 64 ->
  getSectionContainingAddress env elf (wrap (a - l_addr lmap)) = true ->
  getDefinitionByAddress env elf (wrap (a - l_addr lmap)) = Some sym ->
  findAddress env elf (wrap (a - l_addr lmap)) FULL_WITH_INLINE 0 = (loc, chain) ->
  exists q,
    resolve env FULL_WITH_INLINE N lmap elf i a st
    = Some (i, {| frames := write_at (Z.to_nat i)
                              [real_frame env elf lmap sym loc a] (frames st);
                  addrCount := N; remaining := remaining st - 1;
                  symbolCache := None; queries := q |}).
Proof.
  intros Hc Hac HN Hi Hrem Hsec Hdef Hfind. unfold resolve.
  rewrite Hsec, Hac, Z.ltb_irrefl, andb_false_r.
  unfold setSymbolizedFrame. rewrite Hdef, Hfind, Hc.
  rewrite size_add_small by lia. rewrite Z.add_0_r.
  rewrite size_sub_small by lia.
  eexists. reflexivity.
Qed.

Lemma length_concat_cons {A} (l : list A) (ls : list (list A)) :
  length (concat (l :: ls)) = (length l + length (concat ls))%nat.
Proof. cbn [concat]. apply length_app. Qed.

(** The inner loop over the one object that knows every pending
    address: each pending frame becomes its group. *)
Lemma inner_loop_inline env N lmap elf sym loc chain : forall pend done tail fuel q,
  Forall (resolves_to env elf lmap sym loc chain) pend ->
  Forall (fun f => found f = false) tail ->
  (length done + length pend + length tail = Z.to_nat N)%nat ->
  0 <= N < 2 ^ 64 ->
  (length (concat (map chain pend)) <= length tail)%nat ->
  (length pend <= fuel)%nat ->
  exists q',
    inner_loop fuel env FULL_WITH_INLINE N lmap elf (Z.of_nat (length done))
      {| frames := done ++ map (set_addr SymbolizedFrame_clear) pend ++ tail;
         addrCount := Z.of_nat (length done + length pend);
         remaining := Z.of_nat (length pend);
         symbolCache := None; queries := q |}
    = Some {| frames :=
                done ++ concat (map (frame_group env elf lmap sym loc chain) pend)
                  ++ skipn (length (concat (map chain pend))) tail;
              addrCount :=
                Z.of_nat (length done + length pend
                          + length (concat (map chain pend)));
              remaining := 0;
              symbolCache := None; queries := q' |}.
Proof.
  induction pend as [|a pend IH]; intros done tail fuel q Hres Htail Hlen HN Hfit Hfuel.
  - exists q. cbn [map concat length app skipn].
    rewrite !Nat.add_0_r.
    destruct fuel; cbn [inner_loop addrCount]; rewrite Z.ltb_irrefl; reflexivity.
  - inversion Hres as [|? ? Ha Hrest]; subst.
    destruct Ha as (Hsec & Hdef & Hfind & Hchain & HkMax).
    destruct fuel as [|fuel]; [cbn [length] in Hfuel; lia|].
    cbn [length] in Hfuel, Hlen.
    cbn [map] in Hfit |- *. rewrite length_concat_cons in Hfit |- *.
    set (f := set_addr SymbolizedFrame_clear a).
    set (P := map (set_addr SymbolizedFrame_clear) pend).
    assert (HP : length P = length pend) by (subst P; apply length_map).
    set (fs := done ++ (f :: P) ++ tail).
    set (k := length (chain a)) in *.
    destruct (layout_views done f P tail k) as (Hnth & Hfirst & Hsub & Hskip & Hskipk).
    rewrite HP in Hsub, Hskip, Hskipk. fold fs in Hnth, Hfirst, Hsub, Hskip, Hskipk.
    assert (Hsz : size fs = N).
    { unfold size. subst fs. rewrite !length_app. cbn [length]. lia. }
    cbn [inner_loop addrCount remaining length].
    replace (Z.of_nat (length done) <? Z.of_nat (length done + S (length pend)))
      with true by (symmetry; apply Z.ltb_lt; lia).
    replace (Z.of_nat (S (length pend)) =? 0) with false
      by (symmetry; apply Z.eqb_neq; lia).
    cbn [negb andb].
    unfold visit. cbn [frames symbolCache]. rewrite Nat2Z.id.
    change (done ++ f :: P ++ tail) with fs. rewrite Hnth.
    cbn [f set_addr found addr].
    set (st := {| frames := fs;
                  addrCount := Z.of_nat (length done + S (length pend));
                  remaining := Z.of_nat (S (length pend));
                  symbolCache := None; queries := q |}).
    set (real := real_frame env elf lmap (sym a) (loc a) a).
    assert (Hstep : exists q1,
               resolve env FULL_WITH_INLINE N lmap elf (Z.of_nat (length done)) a st
               = Some (Z.of_nat (length done + k),
                       {| frames := (done ++ chain a ++ [real])
                                      ++ P ++ skipn k tail;
                          addrCount := Z.of_nat (length (done ++ chain a ++ [real])
                                                 + length pend);
                          remaining := Z.of_nat (length pend);
                          symbolCache := None; queries := q1 |})).
    { destruct (Z.ltb_spec (addrCount st) N) as [Hslack | Hfull].
      - set (maxInline := Z.min (Z.of_nat (kMaxInlineLocationInfoPerFrame env))
                                (N - addrCount st)).
        assert (Hmax : (k <= Z.to_nat maxInline)%nat).
        { subst maxInline. cbn [st addrCount]. lia. }
        destruct (resolve_inline_layout env N lmap elf (Z.of_nat (length done)) a st
                    (sym a) (loc a) (chain a))
          as (st' & Hrun & Hfs & Hac & _ & Hwhole & _ & _ & Hrem & Hcache);
          try assumption.
        + lia.
        + cbn [st addrCount]. lia.
        + apply Hfind. exact Hmax.
        + cbn [st addrCount frames]. rewrite Nat2Z.id, Hskip. exact Htail.
        + fold maxInline in Hfs, Hac, Hrun, Hwhole.
          assert (Hinl : firstn (Z.to_nat maxInline) (chain a) = chain a).
          { apply firstn_all2. exact Hmax. }
          rewrite Hinl in Hfs, Hac, Hrun.
          cbn [st addrCount frames remaining symbolCache] in Hfs, Hac, Hrem, Hcache.
          replace (Z.to_nat (Z.of_nat (length done))) with (length done) in Hfs by lia.
          replace (Z.to_nat (Z.of_nat (length done) + 1))
            with (length done + 1)%nat in Hfs by lia.
          replace (Z.to_nat (Z.of_nat (length done + S (length pend))))
            with (length done + S (length pend))%nat in Hfs by lia.
          replace (Z.to_nat (Z.of_nat (length done + S (length pend))
                             + size (chain a)))
            with (length done + S (length pend) + k)%nat in Hfs
            by (unfold size; subst k; lia).
          rewrite Hfirst, Hsub, Hskipk in Hfs.
          rewrite size_sub_small in Hrem by lia.
          destruct st' as [fs' ac' rem' c' q'].
          cbn [frames addrCount remaining symbolCache] in Hfs, Hac, Hrem, Hcache.
          exists q'. rewrite Hrun. f_equal. f_equal.
          * unfold size. subst k. lia.
          * rewrite Hcache by reflexivity. f_equal.
            -- rewrite Hfs, <- !app_assoc. reflexivity.
            -- rewrite Hac, !length_app. cbn [length]. unfold size. subst k. lia.
            -- lia.
      - cbn [st addrCount] in Hfull.
        assert (Htl : length tail = O) by lia.
        assert (Hk0 : k = O) by lia.
        destruct (resolve_no_slack env N lmap elf (Z.of_nat (length done)) a st
                    (sym a) (loc a) (chain a)) as (q1 & Hrun);
          try assumption; try reflexivity.
        + cbn [st addrCount]. lia.
        + lia.
        + lia.
        + cbn [st remaining]. lia.
        + apply Hfind. lia.
        + exists q1. rewrite Hrun. rewrite Hk0, Nat.add_0_r. f_equal. f_equal.
          cbn [st frames remaining]. rewrite Nat2Z.id.
          assert (Hch : chain a = []) by (apply length_zero_iff_nil; exact Hk0).
          destruct tail; [|cbn [length] in Htl; lia].
          f_equal.
          * rewrite Hch. unfold write_at. rewrite Hfirst. cbn [length].
            replace (skipn (length done + 1) fs) with (P ++ [])
              by (symmetry; subst fs;
                  replace (done ++ (f :: P) ++ []) with ((done ++ [f]) ++ P ++ [])
                    by (rewrite <- !app_assoc; reflexivity);
                  apply skipn_app_exact; rewrite length_app; cbn [length]; lia).
            cbn [skipn app]. rewrite <- !app_assoc. reflexivity.
          * rewrite Hch, !length_app. cbn [length]. lia.
          * lia. }
    destruct Hstep as (q1 & Hstep). rewrite Hstep.
    change (found SymbolizedFrame_clear) with false. cbv iota.
    rewrite size_add_small by lia.
    replace (Z.of_nat (length done + k) + 1)
      with (Z.of_nat (length (done ++ chain a ++ [real])))
      by (rewrite !length_app; cbn [length]; subst k; lia).
    destruct (IH (done ++ chain a ++ [real]) (skipn k tail) fuel q1) as (q' & Hrun).
    + exact Hrest.
    + apply Forall_skipn_of. exact Htail.
    + rewrite !length_app, length_skipn. cbn [length]. subst k. lia.
    + exact HN.
    + rewrite length_skipn. lia.
    + lia.
    + exists q'. subst P. rewrite Hrun. f_equal. f_equal.
      * cbn [concat]. unfold frame_group at 2. fold real.
        rewrite skipn_skipn, <- !app_assoc.
        replace (length (concat (map chain pend)) + k)%nat
          with (k + length (concat (map chain pend)))%nat by lia.
        reflexivity.
      * rewrite !length_app. cbn [length]. subst k. lia.
Qed.

Lemma prepared_unfound addrs : forall fs,
  (length addrs <= length fs)%nat ->
  Forall (fun f => found f = false) fs ->
  map (fun af : Z * SymbolizedFrame =>
         set_addr (if found (snd af) then snd af else SymbolizedFrame_clear)
                  (fst af))
      (combine addrs fs)
  = map (set_addr SymbolizedFrame_clear) addrs.
Proof.
  induction addrs as [|a addrs IH]; intros fs Hlen Hunf; [reflexivity|].
  destruct fs as [|f fs]; [cbn [length] in Hlen; lia|].
  inversion Hunf as [|? ? Hf Hrest]; subst.
  cbn [combine map fst snd]. rewrite Hf. f_equal.
  apply IH; [cbn [length] in Hlen; lia | exact Hrest].
Qed.

(** The whole call under [FULL_WITH_INLINE] when the first object of
    the chain knows every address. *)
Lemma symbolize_inline_trace env s addrs fs selfPath lmap rest elf sym loc chain :
  mode_ s = FULL_WITH_INLINE -> symbolCache_ s = None ->
  r_version env = 1 -> readlink_self_exe env = Some selfPath ->
  r_map env = lmap :: rest ->
  getFile env (objPath selfPath lmap) = Some elf ->
  Forall (resolves_to env elf lmap sym loc chain) addrs ->
  Forall (fun f => found f = false) fs ->
  (length addrs + length (concat (map chain addrs)) <= length fs)%nat ->
  size fs < 2 ^ 64 ->
  exists q,
    symbolize env s addrs fs
    = Some (concat (map (frame_group env elf lmap sym loc chain) addrs)
              ++ skipn (length addrs + length (concat (map chain addrs))) fs,
            s, q).
Proof.
  intros Hmode Hc Hv Hself Hmap Hfile Hres Hunf Hfit HN.
  destruct addrs as [|a0 addrs0] eqn:Haddrs.
  { exists []. rewrite symbolize_all_found; [reflexivity | cbn [length]; lia | constructor]. }
  rewrite <- Haddrs in *.
  assert (Hn : (0 < length addrs)%nat) by (rewrite Haddrs; cbn [length]; lia).
  clear Haddrs a0 addrs0.
  set (n := length addrs) in *.
  set (total := length (concat (map chain addrs))) in *.
  unfold symbolize, symbolize_state.
  rewrite clear_unfound_exact by lia. fold n.
  assert (Hcount : unfound_count (firstn n fs) = n).
  { unfold unfound_count. rewrite forallb_filter_id.
    - rewrite length_firstn. lia.
    - apply forallb_forall. intros f Hin.
      apply Forall_firstn_of with (n := n) in Hunf.
      rewrite Forall_forall in Hunf. rewrite (Hunf f Hin). reflexivity. }
  rewrite Hcount.
  replace (Z.of_nat n =? 0) with false by (symmetry; apply Z.eqb_neq; lia).
  rewrite Hv, Hself. cbn [Z.eqb Pos.eqb negb].
  subst n. rewrite prepared_frames by lia.
  set (n := length addrs) in *.
  rewrite prepared_unfound by (assumption || lia).
  rewrite Hmap, Hmode.
  cbn [outer_loop remaining addrCount]. rewrite Hfile.
  replace (Z.of_nat n =? 0) with false by (symmetry; apply Z.eqb_neq; lia).
  change (size addrs) with (Z.of_nat n). rewrite Nat2Z.id, Hc.
  destruct (inner_loop_inline env (size fs) lmap elf sym loc chain addrs []
              (skipn n fs) n []) as (q' & Hrun).
  - exact Hres.
  - apply Forall_skipn_of. exact Hunf.
  - cbn [length]. rewrite length_skipn. unfold size. lia.
  - unfold size in *. lia.
  - rewrite length_skipn. lia.
  - lia.
  - cbn [length app Nat.add] in Hrun. fold n total in Hrun.
    change (Z.of_nat 0) with 0 in Hrun. rewrite Hrun.
    exists q'.
    assert (Hs : s = {| mode_ := FULL_WITH_INLINE; symbolCache_ := None |}).
    { rewrite <- Hmode, <- Hc. symmetry. apply Symbolizer_eta. }
    destruct rest; cbn [outer_loop remaining Z.eqb frames symbolCache queries];
      rewrite <- Hs, skipn_skipn, (Nat.add_comm total n); reflexivity.
Qed.

(** X21.  Inline expansion of a whole trace.  Under [FULL_WITH_INLINE]
    without a symbol cache, for a buffer of frames that are not found
    and a first object that knows every address: when the buffer has
    room for all the frames, one per address plus the inlined calls of
    each, the call leaves in it, address after address in the order
    given, the inlined calls of the address, innermost first, followed
    by the frame of the call site; the frames behind them are as they
    were. *)
Theorem X21_inline_expansion_of_a_trace env s addrs fs selfPath lmap rest elf
    sym loc chain :
  mode_ s = FULL_WITH_INLINE -> symbolCache_ s = None ->
  r_version env = 1 -> readlink_self_exe env = Some selfPath ->
  r_map env = lmap :: rest ->
  getFile env (objPath selfPath lmap) = Some elf ->
  Forall (resolves_to env elf lmap sym loc chain) addrs ->
  Forall (fun f => found f = false) fs ->
  (length addrs + length (concat (map chain addrs)) <= length fs)%nat ->
  size fs < 2 ^ 64 ->
  exists q,
    symbolize env s addrs fs
    = Some (concat (map (frame_group env elf lmap sym loc chain) addrs)
              ++ skipn (length addrs + length (concat (map chain addrs))) fs,
            s, q).
Proof. apply symbolize_inline_trace. Qed.

(** ** The symbol cache does not change the result *)

Lemma first_object_app env selfPath pre post a :
  first_object env selfPath (pre ++ post) a =
    match first_object env selfPath pre a with
    | Some r => Some r
    | None => first_object env selfPath post a
    end.
Proof.
  induction pre as [|lmap pre IH]; [reflexivity|].
  cbn [app first_object].
  destruct (getFile env (objPath selfPath lmap)) as [elf|]; [|exact IH].
  destruct (getSectionContainingAddress env elf (wrap (a - l_addr lmap)));
    [reflexivity | exact IH].
Qed.

Lemma Forall_lru_remove (P : Z * list SymbolizedFrame -> Prop) k l :
  Forall P l -> Forall P (lru_remove k l).
Proof.
  induction 1 as [|[k' v] l Hx _ IH]; cbn [lru_remove]; [constructor|].
  destruct (k' =? k); [exact IH | constructor; assumption].
Qed.

Lemma lru_lookup_Forall (P : Z * list SymbolizedFrame -> Prop) k l v :
  Forall P l -> lru_lookup k l = Some v -> P (k, v).
Proof.
  induction 1 as [|[k' v'] l Hx _ IH]; cbn [lru_lookup]; [discriminate|].
  destruct (Z.eqb_spec k' k) as [-> | _]; [|exact IH].
  intros [= <-]. exact Hx.
Qed.

Lemma cache_find_Forall (P : Z * list SymbolizedFrame -> Prop) k c v c' :
  Forall P (lru c) -> cache_find k c = Some (v, c') ->
  P (k, v) /\ Forall P (lru c').
Proof.
  intros Hall. unfold cache_find.
  destruct (lru_lookup k (lru c)) as [v0|] eqn:Hl; [|discriminate].
  intros [= <- <-]. cbn [lru].
  pose proof (lru_lookup_Forall P k (lru c) v0 Hall Hl) as Hkv.
  split; [exact Hkv|]. constructor; [exact Hkv | apply Forall_lru_remove, Hall].
Qed.

Lemma cache_set_Forall (P : Z * list SymbolizedFrame -> Prop) k v c :
  P (k, v) -> Forall P (lru c) -> Forall P (lru (cache_set k v c)).
Proof.
  intros Hkv Hall. unfold cache_set.
  destruct (lru_lookup k (lru c)); cbn [lru].
  - constructor; [exact Hkv | apply Forall_lru_remove, Hall].
  - apply Forall_firstn_of. constructor; assumption.
Qed.

Lemma write_at_app_cons {A} (done : list A) (x y : A) (rest : list A) :
  write_at (length done) [y] (done ++ x :: rest) = done ++ y :: rest.
Proof.
  unfold write_at. rewrite firstn_app_exact by reflexivity. cbn [length].
  replace (done ++ x :: rest) with ((done ++ [x]) ++ rest)
    by (rewrite <- app_assoc; reflexivity).
  rewrite skipn_app_exact by (rewrite length_app; cbn [length]; lia).
  reflexivity.
Qed.

Lemma unfound_count_cons f l :
  unfound_count (f :: l) = ((if found f then 0 else 1) + unfound_count l)%nat.
Proof. unfold unfound_count. cbn [filter]. destruct (found f); reflexivity. Qed.

Lemma unfound_count_none l :
  unfound_count l = O -> Forall (fun f => found f = true) l.
Proof.
  induction l as [|f l IH]; intros H; [constructor|].
  rewrite unfound_count_cons in H. destruct (found f) eqn:Hf; [|discriminate].
  constructor; [exact Hf | apply IH; exact H].
Qed.

Lemma settled_found env mode selfPath f :
  found f = true -> settled env mode selfPath f = f.
Proof. apply fold_visit_found. Qed.

Lemma in_progress_found env mode selfPath seen seen' f f' :
  in_progress env mode selfPath seen f f' -> found f' = true ->
  in_progress env mode selfPath seen' f f'.
Proof.
  intros [Hs | (-> & Hf & _)] Hfound; [left; exact Hs | congruence].
Qed.

Lemma in_progress_all_found env mode selfPath seen seen' : forall F B,
  Forall2 (in_progress env mode selfPath seen) F B ->
  Forall (fun f => found f = true) B ->
  Forall2 (in_progress env mode selfPath seen') F B.
Proof.
  induction 1 as [|f f' F B Hrel _ IH]; intros Hall; [constructor|].
  inversion Hall as [|? ? Hf Hrest]; subst.
  constructor; [eapply in_progress_found; eassumption | apply IH, Hrest].
Qed.

(** The frame group of a good entry is its one frame. *)
Lemma good_entry_shape e :
  countFrames e = 1%nat ->
  forall r, hd_error e = Some r ->
  numInlineFrames_of e = 0 /\ firstn 1 e = [r] /\ found r = true.
Proof.
  intros Hcount r Hhd. destruct e as [|x e]; [discriminate|].
  injection Hhd as ->. cbn [countFrames] in Hcount.
  destruct (found r) eqn:Hf; [|discriminate].
  unfold numInlineFrames_of. cbn [countFrames]. rewrite Hf, Hcount.
  repeat split; reflexivity.
Qed.

Lemma in_progress_done env mode selfPath f f' :
  in_progress env mode selfPath (r_map env) f f' ->
  f' = settled env mode selfPath f.
Proof.
  intros [Hs | (-> & Hf & Hnone)]; [exact Hs|].
  unfold settled. rewrite fold_visit_first_object by exact Hf.
  rewrite Hnone. reflexivity.
Qed.

Lemma in_progress_all_done env mode selfPath : forall F B,
  Forall2 (in_progress env mode selfPath (r_map env)) F B ->
  B = map (settled env mode selfPath) F.
Proof.
  induction 1 as [|f f' F B Hrel _ IH]; [reflexivity|].
  cbn [map]. rewrite <- IH. f_equal. apply in_progress_done. exact Hrel.
Qed.

Lemma replace_one_layout {A} (done : list A) (x y : A) (rest : list A) ac :
  (length done < ac)%nat ->
  let fs := done ++ x :: rest in
  firstn (length done) fs ++ [y]
    ++ sublist (length done + 1) ac fs ++ skipn ac fs
  = done ++ y :: rest.
Proof.
  intros Hac fs. subst fs.
  rewrite firstn_app_exact by reflexivity. unfold sublist.
  assert (Hskip : skipn (length done + 1) (done ++ x :: rest) = rest).
  { replace (done ++ x :: rest) with ((done ++ [x]) ++ rest)
      by (rewrite <- app_assoc; reflexivity).
    apply skipn_app_exact. rewrite length_app. cbn [length]. lia. }
  assert (Hac' : skipn ac (done ++ x :: rest)
                 = skipn (ac - (length done + 1)) rest).
  { rewrite <- Hskip at 2. rewrite skipn_skipn. f_equal. lia. }
  rewrite Hac', Hskip. cbn [app]. rewrite firstn_skipn. reflexivity.
Qed.

(** One visit of the inner loop with a symbol cache, when no inline
    frames are asked for. *)
Lemma visit_cached env mode selfPath N pre lm post elf done f0 f' rest c st :
  r_map env = pre ++ lm :: post ->
  getFile env (objPath selfPath lm) = Some elf ->
  LocationInfoMode_eqb mode FULL_WITH_INLINE && (addrCount st <? N) = false ->
  frames st = done ++ f' :: rest -> size (frames st) = N -> N < 2 ^ 64 ->
  Z.of_nat (length done) < addrCount st <= N ->
  symbolCache st = Some c -> cache_ok env mode selfPath c ->
  in_progress env mode selfPath pre f0 f' ->
  (found f' = false -> 1 <= remaining st < 2 ^ 64) ->
  exists f'' st' c',
    visit env mode N lm elf (Z.of_nat (length done)) st
      = Some (Z.of_nat (length done), st') /\
    frames st' = done ++ f'' :: rest /\
    in_progress env mode selfPath (pre ++ [lm]) f0 f'' /\
    addrCount st' = addrCount st /\
    symbolCache st' = Some c' /\ cache_ok env mode selfPath c' /\
    (found f' = true -> found f'' = true) /\
    (remaining st' = remaining st \/
     (remaining st' = remaining st - 1 /\ found f' = false /\ found f'' = true)).
Proof.
  intros Hmap Hfile Hflat Hfs Hsz HN Hi Hc Hok Hrel Hrem.
  assert (Hnth : nth_error (frames st) (length done) = Some f').
  { rewrite Hfs, nth_error_app2 by lia. rewrite Nat.sub_diag. reflexivity. }
  unfold visit. rewrite Nat2Z.id, Hnth.
  destruct (found f') eqn:Hf'.
  { exists f', st, c. repeat split; auto.
    eapply in_progress_found; eassumption. }
  specialize (Hrem eq_refl).
  assert (Hf0 : f' = f0 /\ found f0 = false /\
                first_object env selfPath pre (addr f0) = None).
  { destruct Hrel as [Hs | H]; [|exact H].
    destruct (found f0) eqn:Hf0.
    { rewrite settled_found in Hs by exact Hf0. congruence. }
    unfold settled in Hs. rewrite fold_visit_first_object in Hs by exact Hf0.
    pose proof (first_object_app env selfPath pre (lm :: post) (addr f0)) as Happ.
    rewrite <- Hmap in Happ.
    destruct (first_object env selfPath (r_map env) (addr f0)) as [[lmap0 elf0]|].
    - rewrite Hs, setSymbolizedFrame_found in Hf'. discriminate.
    - split; [exact Hs|]. split; [reflexivity|].
      destruct (first_object env selfPath pre (addr f0)); [discriminate | reflexivity]. }
  destruct Hf0 as (-> & Hf0 & Hpre). clear Hrel Hf'.
  assert (Hall : first_object env selfPath (r_map env) (addr f0)
                 = if getSectionContainingAddress env elf (wrap (addr f0 - l_addr lm))
                   then Some (lm, elf)
                   else first_object env selfPath post (addr f0)).
  { rewrite Hmap, first_object_app, Hpre. cbn [first_object]. rewrite Hfile.
    reflexivity. }
  rewrite Hc.
  destruct (cache_find (addr f0) c) as [[e c1]|] eqn:Hfind.
  - destruct (cache_find_Forall _ _ _ _ _ Hok Hfind) as (Hgood & Hok1).
    destruct Hgood as (lmap0 & elf0 & Hobj & Hcount & Hhd). cbn [fst snd] in *.
    destruct (good_entry_shape e Hcount _ Hhd) as (Hm & Hone & Hfound).
    set (r := fst (fst (setSymbolizedFrame env elf0
                          (wrap (addr f0 - l_addr lmap0)) mode 0))) in *.
    match goal with
    | |- context [replay_cached N ?i e ?s1] =>
        destruct (replay_cached_layout N i e s1) as (Hrun & _)
    end; cbn [frames addrCount]; try assumption; try lia.
    rewrite Hm in Hrun. cbn [frames addrCount remaining symbolCache queries] in Hrun.
    rewrite Z.add_0_r in Hrun. rewrite Hrun. clear Hrun.
    eexists r, _, c1. split; [reflexivity|].
    cbn [frames addrCount remaining symbolCache].
    split.
    { rewrite Z.add_0_r, Nat2Z.id. change (Z.to_nat (0 + 1)) with 1%nat.
      rewrite Hone.
      replace (Z.to_nat (Z.of_nat (length done) + 1)) with (length done + 1)%nat by lia.
      rewrite Hfs. apply replace_one_layout. lia. }
    split.
    { left. unfold settled. rewrite fold_visit_first_object by exact Hf0.
      rewrite Hobj. reflexivity. }
    repeat split; auto; lia.
  - unfold resolve. rewrite Hflat, Hc.
    destruct (getSectionContainingAddress env elf (wrap (addr f0 - l_addr lm)))
      eqn:Hsec.
    + pose proof (setSymbolizedFrame_found env elf
                    (wrap (addr f0 - l_addr lm)) mode 0) as Hr.
      assert (Hsettled : settled env mode selfPath f0
                         = fst (fst (setSymbolizedFrame env elf
                                       (wrap (addr f0 - l_addr lm)) mode 0))).
      { unfold settled. rewrite fold_visit_first_object by exact Hf0.
        rewrite Hall. reflexivity. }
      destruct (setSymbolizedFrame env elf (wrap (addr f0 - l_addr lm)) mode 0)
        as [[frame inlined] qs] eqn:Hset.
      cbn [fst] in Hr, Hsettled.
      rewrite Nat2Z.id, Hfs, write_at_app_cons.
      change (size_add 0 1) with 1.
      rewrite Z.min_l by lia.
      unfold cacheFrames_of.
      assert (Hlen : size (done ++ frame :: rest) = N).
      { rewrite <- Hsz, Hfs. unfold size. rewrite !length_app. reflexivity. }
      rewrite in_range_intro by lia.
      rewrite Nat2Z.id, skipn_app_exact by reflexivity.
      change (Z.to_nat 1) with 1%nat. cbn [firstn].
      rewrite size_add_small by lia. rewrite Z.add_0_r.
      rewrite size_sub_small by lia.
      eexists frame, _, _. split; [reflexivity|].
      cbn [frames addrCount remaining symbolCache].
      split; [reflexivity|]. split; [left; symmetry; exact Hsettled|].
      split; [reflexivity|]. split; [reflexivity|].
      split.
      { apply cache_set_Forall; [|exact Hok].
        exists lm, elf. cbn [fst snd]. rewrite Hall. split; [reflexivity|].
        rewrite Hset. cbn [app countFrames hd_error fst]. rewrite Hr.
        split; [|reflexivity].
        destruct (S (kMaxInlineLocationInfoPerFrame env) - 1)%nat; reflexivity. }
      split; [discriminate|]. right. auto.
    + eexists f0, _, c. split; [reflexivity|].
      cbn [frames addrCount remaining symbolCache].
      split; [exact Hfs|]. split.
      { right. split; [reflexivity|]. split; [exact Hf0|].
        rewrite first_object_app, Hpre. cbn [first_object].
        rewrite Hfile, Hsec. reflexivity. }
      repeat split; auto; discriminate.
Qed.

(** The inner loop over one object, with a symbol cache. *)
Lemma inner_loop_cached env mode selfPath N pre lm post elf tail :
  r_map env = pre ++ lm :: post ->
  getFile env (objPath selfPath lm) = Some elf ->
  N < 2 ^ 64 ->
  forall F B, Forall2 (in_progress env mode selfPath pre) F B ->
  forall done fuel st c,
  frames st = done ++ B ++ tail -> size (frames st) = N ->
  addrCount st = Z.of_nat (length done + length B) ->
  LocationInfoMode_eqb mode FULL_WITH_INLINE && (addrCount st <? N) = false ->
  symbolCache st = Some c -> cache_ok env mode selfPath c ->
  Z.of_nat (unfound_count (done ++ B)) <= remaining st < 2 ^ 64 ->
  (length B <= fuel)%nat ->
  exists st' B' c',
    inner_loop fuel env mode N lm elf (Z.of_nat (length done)) st = Some st' /\
    frames st' = done ++ B' ++ tail /\
    Forall2 (in_progress env mode selfPath (pre ++ [lm])) F B' /\
    addrCount st' = addrCount st /\
    symbolCache st' = Some c' /\ cache_ok env mode selfPath c' /\
    Z.of_nat (unfound_count (done ++ B')) <= remaining st' < 2 ^ 64.
Proof.
  intros Hmap Hfile HN.
  induction 1 as [|f0 f' F B Hrel Hrest IH];
    intros done fuel st c Hfs Hsz Hac Hflat Hc Hok Hrem Hfuel.
  - exists st, [], c. cbn [length] in Hac. rewrite Nat.add_0_r in Hac.
    split; [|repeat split; auto; try constructor; lia].
    destruct fuel; cbn [inner_loop]; rewrite Hac, Z.ltb_irrefl; reflexivity.
  - cbn [length] in Hac, Hfuel.
    assert (HlenN : Z.of_nat (length done + S (length B)) <= N).
    { rewrite <- Hsz, Hfs. unfold size. rewrite !length_app. cbn [length]. lia. }
    destruct (Z.eqb_spec (remaining st) 0) as [Hzero | Hpos].
    { exists st, (f' :: B), c.
      split.
      { destruct fuel; cbn [inner_loop]; rewrite Hzero, andb_false_r; reflexivity. }
      repeat split; auto; try lia.
      assert (Hnone : unfound_count (done ++ f' :: B) = O) by lia.
      apply unfound_count_none in Hnone. apply Forall_app in Hnone.
      destruct Hnone as [_ Hnone].
      eapply in_progress_all_found; [|exact Hnone].
      constructor; eassumption. }
    destruct fuel as [|fuel]; [lia|].
    cbn [inner_loop].
    replace (Z.of_nat (length done) <? addrCount st) with true
      by (symmetry; apply Z.ltb_lt; lia).
    replace (remaining st =? 0) with false by (symmetry; apply Z.eqb_neq; exact Hpos).
    cbn [negb andb].
    destruct (visit_cached env mode selfPath N pre lm post elf done f0 f'
                (B ++ tail) c st)
      as (f'' & st1 & c1 & Hrun & Hfs1 & Hrel1 & Hac1 & Hc1 & Hok1 & Hmono & Hrem1);
      try assumption; try lia.
    rewrite Hrun. rewrite size_add_small by lia.
    replace (Z.of_nat (length done) + 1) with (Z.of_nat (length (done ++ [f''])))
      by (rewrite length_app; cbn [length]; lia).
    assert (Hcount : Z.of_nat (unfound_count ((done ++ [f'']) ++ B))
                     <= remaining st1 < 2 ^ 64).
    { rewrite <- app_assoc. cbn [app].
      rewrite unfound_count_app, unfound_count_cons in Hrem |- *.
      destruct (found f') eqn:Hf'.
      - rewrite Hmono by reflexivity.
        destruct Hrem1 as [-> | (_ & Habs & _)]; [lia | discriminate].
      - destruct Hrem1 as [-> | (-> & _ & ->)]; [destruct (found f'')|]; lia. }
    destruct (IH (done ++ [f'']) fuel st1 c1)
      as (st' & B' & c' & Hrun' & Hfs' & Hrel' & Hac' & Hc' & Hok' & Hrem');
      try assumption.
    + rewrite Hfs1, <- app_assoc. reflexivity.
    + rewrite Hfs1. rewrite <- Hsz, Hfs. unfold size. rewrite !length_app.
      cbn [length]. rewrite !length_app. reflexivity.
    + rewrite Hac1, Hac, length_app. cbn [length]. lia.
    + rewrite Hac1. exact Hflat.
    + lia.
    + exists st', (f'' :: B'), c'. split; [exact Hrun'|].
      rewrite <- app_assoc in Hfs', Hrem'. cbn [app] in Hfs', Hrem'.
      repeat split; auto; lia.
Qed.

(** The loop over the chain of objects, with a symbol cache. *)
Lemma outer_loop_cached env mode selfPath N F tail : forall post pre st A c,
  r_map env = pre ++ post -> N < 2 ^ 64 ->
  Forall2 (in_progress env mode selfPath pre) F A ->
  frames st = A ++ tail -> size (frames st) = N ->
  addrCount st = Z.of_nat (length A) ->
  LocationInfoMode_eqb mode FULL_WITH_INLINE && (addrCount st <? N) = false ->
  symbolCache st = Some c -> cache_ok env mode selfPath c ->
  Z.of_nat (unfound_count A) <= remaining st < 2 ^ 64 ->
  exists st' c',
    outer_loop env mode N selfPath post st = Some st' /\
    frames st' = map (settled env mode selfPath) F ++ tail /\
    symbolCache st' = Some c' /\ cache_ok env mode selfPath c'.
Proof.
  induction post as [|lm post IH];
    intros pre st A c Hmap HN Hrel Hfs Hsz Hac Hflat Hc Hok Hrem.
  - rewrite app_nil_r in Hmap. rewrite <- Hmap in Hrel.
    apply in_progress_all_done in Hrel.
    exists st, c. cbn [outer_loop]. rewrite Hfs, Hrel. auto.
  - cbn [outer_loop].
    destruct (Z.eqb_spec (remaining st) 0) as [Hzero | Hpos].
    { exists st, c. split; [reflexivity|]. split; [|auto].
      assert (Hnone : unfound_count A = O) by lia.
      apply unfound_count_none in Hnone.
      pose proof (in_progress_all_found env mode selfPath pre (r_map env)
                    F A Hrel Hnone) as Hdone.
      apply in_progress_all_done in Hdone. rewrite Hfs, Hdone. reflexivity. }
    assert (Hmap' : r_map env = (pre ++ [lm]) ++ post).
    { rewrite Hmap, <- app_assoc. reflexivity. }
    destruct (getFile env (objPath selfPath lm)) as [elf|] eqn:Hfile.
    + destruct (inner_loop_cached env mode selfPath N pre lm post elf tail
                  Hmap Hfile HN F A Hrel [] (Z.to_nat (addrCount st)) st c)
        as (st1 & A1 & c1 & Hrun & Hfs1 & Hrel1 & Hac1 & Hc1 & Hok1 & Hrem1);
        try assumption.
      * rewrite Hac. lia.
      * change (Z.of_nat (length (@nil SymbolizedFrame))) with 0 in Hrun.
        rewrite Hrun. cbn [app] in Hfs1, Hrem1.
        apply (IH (pre ++ [lm]) st1 A1 c1); try assumption.
        -- rewrite Hfs1. rewrite <- Hsz, Hfs. unfold size. rewrite !length_app.
           f_equal. f_equal.
           apply Forall2_length in Hrel, Hrel1. congruence.
        -- rewrite Hac1, Hac. f_equal.
           apply Forall2_length in Hrel, Hrel1. congruence.
        -- rewrite Hac1. exact Hflat.
    + apply (IH (pre ++ [lm]) st A c); try assumption.
      clear - Hrel Hfile.
      induction Hrel as [|f f' F A Hone _ IHrel]; constructor; [|exact IHrel].
      destruct Hone as [Hs | (-> & Hf & Hpre)]; [left; exact Hs | right].
      split; [reflexivity|]. split; [exact Hf|].
      rewrite first_object_app, Hpre. cbn [first_object]. rewrite Hfile.
      reflexivity.
Qed.


Lemma unfound_count_le l : (unfound_count l <= length l)%nat.
Proof.
  induction l as [|f l IH]; [apply Nat.le_refl|].
  rewrite unfound_count_cons. cbn [length]. destruct (found f); lia.
Qed.

Lemma in_progress_start env mode selfPath : forall F,
  Forall2 (in_progress env mode selfPath []) F F.
Proof.
  induction F as [|f F IH]; constructor; [|exact IH].
  destruct (found f) eqn:Hf.
  - left. symmetry. apply settled_found. exact Hf.
  - right. auto.
Qed.

(** A call on a symbolizer whose cache holds what resolution gives,
    when no inline frames are asked for. *)
Lemma symbolize_cached_flat env selfPath s addrs fs c :
  (length addrs <= length fs)%nat -> size fs < 2 ^ 64 ->
  symbolCache_ s = Some c -> cache_ok env (mode_ s) selfPath c ->
  mode_ s <> FULL_WITH_INLINE \/ length fs = length addrs ->
  r_version env = 1 -> readlink_self_exe env = Some selfPath ->
  Exists (fun f => found f = false) (firstn (length addrs) fs) ->
  exists c' q,
    symbolize env s addrs fs =
      Some (map (fun af => resolved_frame env (mode_ s) selfPath (fst af) (snd af))
                (combine addrs fs)
              ++ skipn (length addrs) fs,
            {| mode_ := mode_ s; symbolCache_ := Some c' |}, q) /\
    cache_ok env (mode_ s) selfPath c'.
Proof.
  intros Hlen HN Hc Hok Hmode Hv Hself Hex.
  set (n := length addrs) in *.
  unfold symbolize, symbolize_state.
  rewrite clear_unfound_exact by exact Hlen. fold n.
  pose proof (unfound_count_exists _ Hex) as Hpos.
  replace (Z.of_nat (unfound_count (firstn n fs)) =? 0) with false
    by (symmetry; apply Z.eqb_neq; lia).
  rewrite Hv, Hself. cbn [Z.eqb Pos.eqb negb].
  subst n. rewrite prepared_frames by exact Hlen.
  set (n := length addrs) in *.
  set (H := fun af : Z * SymbolizedFrame =>
              set_addr (if found (snd af) then snd af else SymbolizedFrame_clear)
                       (fst af)).
  assert (Hcomb : length (combine addrs fs) = n).
  { rewrite length_combine. subst n. lia. }
  assert (Hlen0 : length (map H (combine addrs fs) ++ skipn n fs) = length fs).
  { rewrite length_app, length_map, Hcomb, length_skipn. lia. }
  assert (Hcount : unfound_count (firstn n fs)
                   = unfound_count (map H (combine addrs fs))).
  { fold n in Hlen. pose proof (map_snd_combine addrs fs Hlen) as Hsnd.
    fold n in Hsnd. rewrite <- Hsnd.
    symmetry. apply unfound_count_map. intros [a f]. subst H. cbn [fst snd].
    destruct (found f) eqn:Hf; [exact Hf | reflexivity]. }
  match goal with
  | |- context [outer_loop _ _ _ _ _ ?st] => set (st0 := st)
  end.
  destruct (outer_loop_cached env (mode_ s) selfPath (size fs)
              (map H (combine addrs fs)) (skipn n fs) (r_map env) [] st0
              (map H (combine addrs fs)) c)
    as (st' & c' & Hrun & Hfs' & Hc' & Hok'); subst st0;
    cbn [frames addrCount remaining symbolCache]; try assumption; try reflexivity.
  - apply in_progress_start.
  - unfold size. rewrite Hlen0. reflexivity.
  - rewrite length_map, Hcomb. reflexivity.
  - destruct Hmode as [Hm | Heq].
    + destruct (mode_ s); cbn [LocationInfoMode_eqb andb]; congruence.
    + replace (size addrs <? size fs) with false
        by (symmetry; apply Z.ltb_ge; unfold size; lia).
      apply andb_false_r.
  - rewrite Hcount. pose proof (unfound_count_le (map H (combine addrs fs))) as Hle.
    rewrite length_map, Hcomb in Hle. unfold size in HN. lia.
  - rewrite Hrun. exists c', (queries st'). split; [|exact Hok'].
    rewrite Hfs', Hc'. do 4 f_equal.
    rewrite map_map. apply map_ext. intros [a f]. subst H. cbn [fst snd].
    unfold resolved_frame, settled.
    destruct (found f) eqn:Hf.
    + apply fold_visit_found. exact Hf.
    + rewrite fold_visit_first_object by reflexivity.
      cbn [set_addr addr]. reflexivity.
Qed.

(** X22.  The symbol cache does not change what [symbolize] answers
    when no inline frames are asked for (a mode other than
    [FULL_WITH_INLINE], or a buffer with exactly one frame per address).
    The cache of a symbolizer just constructed holds only entries whose
    one frame is what resolving their address gives; a call on a
    symbolizer with such a cache leaves in the buffer the frames that
    the call without a cache leaves (each address resolved on its own
    against the first object that contains it, the frames behind the
    addresses untouched), and leaves such a cache again, so the same
    holds for the next call in the same process image. *)
Theorem X22_symbol_cache_is_transparent env selfPath :
  (forall mode symbolCacheSize,
      (0 < symbolCacheSize)%nat ->
      exists c0,
        symbolCache_ (Symbolizer_new mode symbolCacheSize) = Some c0 /\
        cache_ok env mode selfPath c0) /\
  (forall s addrs fs c,
      (length addrs <= length fs)%nat -> size fs < 2 ^ 64 ->
      symbolCache_ s = Some c -> cache_ok env (mode_ s) selfPath c ->
      mode_ s <> FULL_WITH_INLINE \/ length fs = length addrs ->
      r_version env = 1 -> readlink_self_exe env = Some selfPath ->
      Exists (fun f => found f = false) (firstn (length addrs) fs) ->
      exists c' q,
        symbolize env s addrs fs =
          Some (map (fun af => resolved_frame env (mode_ s) selfPath (fst af) (snd af))
                    (combine addrs fs)
                  ++ skipn (length addrs) fs,
                {| mode_ := mode_ s; symbolCache_ := Some c' |}, q) /\
        cache_ok env (mode_ s) selfPath c').
Proof.
  split.
  { intros mode symbolCacheSize Hpos. unfold Symbolizer_new. cbn [symbolCache_].
    replace (0 <? Z.of_nat symbolCacheSize) with true
      by (symmetry; apply Z.ltb_lt; lia).
    eexists. split; [reflexivity|]. constructor. }
  intros s addrs fs c. apply symbolize_cached_flat.
Qed.

(** ** Concrete runs of the further properties *)

Lemma X1_witness :
  ((length [0x401000]%Z <= length [demo_real])%nat /\
   Forall (fun f => found f = true) (firstn (length [0x401000]%Z) [demo_real])) /\
  symbolize demo_env_v2 (Symbolizer_new FULL 0) [0x401000] [demo_real]
  = Some ([demo_real], Symbolizer_new FULL 0, []).
Proof.
  split.
  - split; [cbn; lia | repeat constructor].
  - apply (proj2 X1_symbolize_nothing_to_resolve); [cbn; lia | repeat constructor].
Defined.

Lemma X2_witness :
  ((length demo_addrs <= length (fresh 3))%nat /\
   size (fresh 3) < 2 ^ 64 /\
   symbolCache_ (Symbolizer_new FULL 0) = None /\
   mode_ (Symbolizer_new FULL 0) <> FULL_WITH_INLINE /\
   r_version demo_env = 1 /\
   readlink_self_exe demo_env = Some "/usr/bin/demo" /\
   Exists (fun f => found f = false) (firstn (length demo_addrs) (fresh 3))) /\
  exists q,
    symbolize demo_env (Symbolizer_new FULL 0) demo_addrs (fresh 3)
    = Some (map (fun af => resolved_frame demo_env FULL "/usr/bin/demo"
                             (fst af) (snd af))
                (combine demo_addrs (fresh 3))
              ++ skipn (length demo_addrs) (fresh 3),
            Symbolizer_new FULL 0, q).
Proof.
  split.
  - split; [cbn; lia|]. split; [zdec|]. split; [reflexivity|].
    split; [discriminate|]. split; [reflexivity|]. split; [reflexivity|].
    constructor. reflexivity.
  - apply (X2_symbolize_first_object_resolves demo_env (Symbolizer_new FULL 0)
             demo_addrs (fresh 3) "/usr/bin/demo").
    + cbn; lia.
    + zdec.
    + reflexivity.
    + left. discriminate.
    + reflexivity.
    + reflexivity.
    + constructor. reflexivity.
Defined.

Lemma X3_witness :
  (1 <= 8 <= 8 /\
   Forall (fun a => 0 <= a < 16 ^ (2 * 8)) [0x1; 0xff; 0xabc] /\
   digits_never_drop 0 [0x1; 0xff; 0xabc] = true) /\
  format_all 8 (AddressFormatter_new (zero_template (bytes "0x"))) [0x1; 0xff; 0xabc]
  = Some (map (fun a => bytes "0x" ++ hex_render (Z.to_nat (2 * 8)) a)
              [0x1; 0xff; 0xabc]).
Proof.
  split.
  - split; [lia|]. split; [repeat constructor; zdec | reflexivity].
  - apply (X3_reused_formatter_exact_when_digits_never_drop 8 (bytes "0x")
             [0x1; 0xff; 0xabc] demo_printer).
    + lia.
    + repeat constructor; zdec.
    + reflexivity.
Defined.

Lemma X4_witness :
  (1 <= 8 <= 8 /\ 0 <= addr (set_addr SymbolizedFrame_clear 0xfff) < 16 ^ (2 * 8)) /\
  printTerse demo_printer_env 8 (set_addr SymbolizedFrame_clear 0xfff)
  = Some [terse_text demo_printer_env 8 (set_addr SymbolizedFrame_clear 0xfff)] /\
  terse_text demo_printer_env 8 (set_addr SymbolizedFrame_clear 0xfff)
  = bytes "0x0000000000000fff".
Proof.
  split; [split; [lia | zdec]|].
  split; [|reflexivity].
  apply (X4_printTerse_name_or_address demo_printer_env 8
           (set_addr SymbolizedFrame_clear 0xfff)); [lia | zdec].
Defined.

Lemma X5_witness :
  (has_option 2 (TERSE demo_printer_env) = true /\ 1 <= 8 <= 8 /\
   Forall (fun f => 0 <= addr f < 16 ^ (2 * 8)) [demo_real; SymbolizedFrame_clear] /\
   (2 <= length [demo_real; SymbolizedFrame_clear])%nat) /\
  println_frames demo_printer_env 8 demo_template 2 false
    [demo_real; SymbolizedFrame_clear] 2
  = Some (concat (map (fun f => [terse_text demo_printer_env 8 f; [LF]])
                      (firstn 2 [demo_real; SymbolizedFrame_clear]))).
Proof.
  split.
  - split; [reflexivity|]. split; [lia|]. split; [repeat constructor; zdec | cbn; lia].
  - apply (proj1 (X5_terse_println_one_line_per_frame demo_printer_env 8
                    demo_template 2 false [demo_real; SymbolizedFrame_clear] 2
                    eq_refl ltac:(lia) ltac:(repeat constructor; zdec))).
    cbn; lia.
Defined.

Lemma X6_witness :
  (- 2 ^ 63 <= 4 < 2 ^ 63 /\ size (kColorMap demo_printer_env) <= 2 ^ 63) /\
  isColorfulTty demo_printer_env (fun _ => true) (Some "xterm") 8 2 = true /\
  color demo_printer_env 8
    (isColorfulTty demo_printer_env (fun _ => true) (Some "xterm") 8 2) 4
  = ["027"%char :: bytes "[34m"].
Proof.
  split; [split; zdec|].
  destruct (X6_color_when_and_what demo_printer_env (fun _ => true) (Some "xterm")
              8 2 4) as [Htty Hcol]; [zdec | zdec |].
  split; [exact Htty | exact Hcol].
Defined.

Lemma X7_witness :
  exists out,
    (has_option 4 (TERSE demo_printer_env) = false /\
     print demo_printer_env 8 demo_template 4 false SymbolizedFrame_clear = Some out) /\
    exists front,
      out = front ++ color demo_printer_env 4 false (Color_DEFAULT demo_printer_env).
Proof.
  eexists. split.
  - split; [reflexivity | vm_compute; reflexivity].
  - apply (proj1 (X7_print_ends_with_default_colour demo_printer_env 8 demo_template
                    4 false SymbolizedFrame_clear _ eq_refl eq_refl)).
Defined.

Lemma X8_witness :
  (has_option 0 (TERSE demo_printer_env) = false /\
   found (set_addr SymbolizedFrame_clear 0x10) = false /\
   1 <= 8 <= 8 /\ 0 <= addr (set_addr SymbolizedFrame_clear 0x10) < 16 ^ (2 * 8) /\
   colours_off demo_printer_env 0 false = true) /\
  option_map (@concat ascii)
    (print demo_printer_env 8 (zero_template (bytes "0x")) 0 false
       (set_addr SymbolizedFrame_clear 0x10))
  = Some ((if shows_address demo_printer_env 0
           then bytes "0x" ++ hex_render (Z.to_nat (2 * 8))
                                (addr (set_addr SymbolizedFrame_clear 0x10))
           else [])
            ++ bytes " (not found)").
Proof.
  split.
  - split; [reflexivity|]. split; [reflexivity|]. split; [lia|].
    split; [zdec | reflexivity].
  - apply (proj2 (X8_print_frame_not_found demo_printer_env 8 (bytes "0x") 0 false
                    (set_addr SymbolizedFrame_clear 0x10)
                    eq_refl eq_refl ltac:(lia) ltac:(zdec))).
    reflexivity.
Defined.

Lemma X9_witness :
  (has_option 1 (TERSE demo_printer_env) = false /\
   has_option 1 (NO_FILE_AND_LINE demo_printer_env) = true) /\
  print demo_printer_env 8 demo_template 1 false
    (set_location demo_real LocationInfo_default)
  = print demo_printer_env 8 demo_template 1 false demo_real.
Proof.
  split; [split; reflexivity|].
  apply (proj1 (X9_print_hidden_parts_are_ignored demo_printer_env 8 demo_template
                  1 false demo_real eq_refl)).
  reflexivity.
Defined.

Lemma X10_witness :
  (has_option 32 (TERSE demo_printer_env) = false /\
   has_option 32 (TERSE_FILE_AND_LINE demo_printer_env) = true /\
   colours_off demo_printer_env 32 false = true) /\
  option_map (@concat ascii)
    (print demo_printer_env 8 demo_template 32 false demo_real)
  = Some (bytes "main.c:42").
Proof.
  split; [repeat split; reflexivity|].
  rewrite (X10_terse_file_and_line demo_printer_env 8 demo_template 32 false demo_real
             eq_refl eq_refl eq_refl).
  reflexivity.
Defined.

Lemma X12_witness :
  (buffer_ demo_printer = Some {| capacity := 65536; data := [] |} /\
   size (data {| capacity := 65536; data := [] |})
     + size (concat [bytes "frame"; [LF]])
   <= capacity {| capacity := 65536; data := [] |}) /\
  fd_ (emit [bytes "frame"; [LF]] demo_printer) = fd_ demo_printer /\
  pending (emit [bytes "frame"; [LF]] demo_printer)
  = data {| capacity := 65536; data := [] |} ++ concat [bytes "frame"; [LF]].
Proof.
  split.
  - split; [reflexivity | zdec].
  - apply (proj1 (proj2 (X12_fd_printer_buffering demo_printer))
             {| capacity := 65536; data := [] |} [bytes "frame"; [LF]]);
      [reflexivity | zdec].
Defined.

Lemma X13_witness :
  (- 2 ^ 63 <= 4096 < 2 ^ 63) /\
  exists att,
    printSymbolizedStackTrace demo_os 4096 [bytes "trace"] = Some att /\
    syscalls att
    = [Mmap kMmapStackSize; Mprotect 0x7f1000000000 4096;
       Mprotect 0x7f10000ff000 4096; Munmap 0x7f1000000000 kMmapStackSize].
Proof.
  split; [zdec|].
  destruct (X13_alternate_stack_system_calls demo_os 4096 [bytes "trace"])
    as (att & Hrun & _); [zdec|].
  exists att. split; [exact Hrun|].
  vm_compute in Hrun. injection Hrun as <-. reflexivity.
Defined.

Lemma X14_witness :
  ((forall sp p, str_buf_ (printer_doPrint sp p) = str_buf_ p ++ sp) /\
   (forall p : StringSymbolizePrinter, str_buf_ (printer_flush p) = str_buf_ p)) /\
  exists r,
    FastStackTracePrinter_printStackTrace demo_printer_env demo_env 8 demo_template
      0 false None false (Symbolizer_new FULL 0) {| str_buf_ := [] |}
    = Some (r, Symbolizer_new FULL 0) /\
    str_buf_ r = str_buf_ {| str_buf_ := [] |}
                   ++ bytes "(error retrieving stack trace)" ++ [LF].
Proof.
  split.
  - split; intros; reflexivity.
  - apply (proj1 (@X14_fast_printer_output StringSymbolizePrinter
                    StringSymbolizePrinter_Printer str_buf_
                    (fun sp p => eq_refl) (fun p => eq_refl)
                    demo_printer_env demo_env 8 demo_template 0 false
                    (Symbolizer_new FULL 0) {| str_buf_ := [] |})).
Defined.

Lemma X15_witness :
  exists texts,
    ((fa_frameCount demo_capture <= length (fa_addresses demo_capture))%nat /\
     (fa_frameCount demo_capture <= length (fa_frames demo_capture))%nat /\
     size (fa_frames demo_capture) < 2 ^ 64 /\
     r_version demo_env = 1 /\
     readlink_self_exe demo_env = Some "/usr/bin/demo" /\
     Forall (fun f => found f = false)
       (firstn (fa_frameCount demo_capture) (fa_frames demo_capture)) /\
     println_frames demo_printer_env 8 demo_template 2 false
       (skipn 2
          (map (fun af => resolved_frame demo_env FULL "/usr/bin/demo"
                            (fst af) (snd af))
               (combine (firstn (fa_frameCount demo_capture)
                           (fa_addresses demo_capture))
                        (fa_frames demo_capture))))
       (fa_frameCount demo_capture - 2)
     = Some texts) /\
    texts = [bytes "main"; [LF]] /\
    exists fa,
      SafeStackTracePrinter_printSymbolizedStackTrace demo_printer_env demo_env 8
        demo_template 2 false demo_capture = Some (texts, fa).
Proof.
  eexists. split; [|split].
  - split; [cbn; lia|]. split; [cbn; lia|]. split; [zdec|].
    split; [reflexivity|]. split; [reflexivity|].
    split; [repeat constructor | vm_compute; reflexivity].
  - reflexivity.
  - destruct (X15_safe_printer_symbolized_trace demo_printer_env demo_env 8
                demo_template 2 false demo_capture "/usr/bin/demo" demo_printer)
      with (texts := [bytes "main"; [LF]]) as (_ & fa & Hrun & _).
    + cbn; lia.
    + cbn; lia.
    + zdec.
    + reflexivity.
    + reflexivity.
    + repeat constructor.
    + vm_compute. reflexivity.
    + exists fa. exact Hrun.
Defined.

Lemma X16_witness :
  ((length [0x401000; 0x7f0000001100]%Z <= length (fresh 2))%nat /\
   size (fresh 2) < 2 ^ 64 /\
   symbolCache_ (Symbolizer_new FULL 0) = None /\
   mode_ (Symbolizer_new FULL 0) <> FULL_WITH_INLINE /\
   r_version demo_env = 1 /\
   readlink_self_exe demo_env = Some "/usr/bin/demo" /\
   Forall (fun af => found (snd af) = true \/
                     first_object demo_env "/usr/bin/demo" (r_map demo_env) (fst af)
                     <> None)
          (combine [0x401000; 0x7f0000001100] (fresh 2))) /\
  exists fs1 q1,
    symbolize demo_env (Symbolizer_new FULL 0) [0x401000; 0x7f0000001100] (fresh 2)
    = Some (fs1, Symbolizer_new FULL 0, q1) /\
    symbolize demo_env (Symbolizer_new FULL 0) [0x401000; 0x7f0000001100] fs1
    = Some (fs1, Symbolizer_new FULL 0, []).
Proof.
  assert (Hall : Forall (fun af => found (snd af) = true \/
                     first_object demo_env "/usr/bin/demo" (r_map demo_env) (fst af)
                     <> None)
                   (combine [0x401000; 0x7f0000001100] (fresh 2))).
  { cbv [combine fresh repeat].
    constructor; [right; vm_compute; discriminate|].
    constructor; [right; vm_compute; discriminate|].
    constructor. }
  split.
  - split; [cbn; lia|]. split; [zdec|]. split; [reflexivity|].
    split; [discriminate|]. split; [reflexivity|]. split; [reflexivity|].
    exact Hall.
  - destruct (X16_second_call_is_noop_when_all_resolved demo_env
                (Symbolizer_new FULL 0) [0x401000; 0x7f0000001100] (fresh 2)
                "/usr/bin/demo") as (fs1 & q1 & H1 & _ & _ & H2).
    + cbn; lia.
    + zdec.
    + reflexivity.
    + left. discriminate.
    + reflexivity.
    + reflexivity.
    + exact Hall.
    + exists fs1, q1. split; assumption.
Defined.

Lemma X17_witness :
  (has_option 0 (TERSE demo_printer_env) = false /\
   has_option 0 (NO_FRAME_ADDRESS demo_printer_env) = false /\
   has_option 0 (TERSE_FILE_AND_LINE demo_printer_env) = false /\
   has_option 0 (NO_FILE_AND_LINE demo_printer_env) = false /\
   colours_off demo_printer_env 0 false = true /\
   found demo_real = true /\ 1 <= 8 <= 8 /\ 0 <= addr demo_real < 16 ^ (2 * 8)) /\
  option_map (@concat ascii)
    (print demo_printer_env 8 (zero_template (bytes "0x")) 0 false demo_real)
  = Some (bytes "0x0000000000401000 main" ++ [LF]
            ++ repeat " "%char 23 ++ bytes "main.c:42").
Proof.
  split.
  - repeat (split; [first [reflexivity | lia | zdec]|]). zdec.
  - rewrite (X17_print_found_frame_in_full demo_printer_env 8 (bytes "0x") 0 false
               demo_real eq_refl eq_refl eq_refl eq_refl eq_refl eq_refl
               ltac:(lia) ltac:(zdec)).
    vm_compute. reflexivity.
Defined.

Lemma X18_witness :
  (size [SymbolizedFrame_clear] < 2 ^ 64 /\
   symbolCache_ (Symbolizer_new FULL 0) = None /\
   mode_ (Symbolizer_new FULL 0) <> FULL_WITH_INLINE /\
   r_version demo_env_stripped = 1 /\
   readlink_self_exe demo_env_stripped = Some "/usr/bin/demo" /\
   found SymbolizedFrame_clear = false /\
   first_object demo_env_stripped "/usr/bin/demo" (r_map demo_env_stripped) 0x401000
   = Some (demo_main_lmap, demo_exe) /\
   getDefinitionByAddress demo_env_stripped demo_exe
     (wrap (0x401000 - l_addr demo_main_lmap)) = None) /\
  exists q,
    symbolize demo_env_stripped (Symbolizer_new FULL 0) [0x401000]
      [SymbolizedFrame_clear]
    = Some ([{| found := true; addr := 0; name := None;
                location := LocationInfo_default; file := None |}],
            Symbolizer_new FULL 0, q).
Proof.
  assert (Hobj : first_object demo_env_stripped "/usr/bin/demo"
                   (r_map demo_env_stripped) 0x401000
                 = Some (demo_main_lmap, demo_exe)) by (vm_compute; reflexivity).
  split.
  - split; [zdec|]. split; [reflexivity|]. split; [discriminate|].
    split; [reflexivity|]. split; [reflexivity|]. split; [reflexivity|].
    split; [exact Hobj | reflexivity].
  - destruct (X18_one_address_three_outcomes demo_env_stripped
                (Symbolizer_new FULL 0) 0x401000 SymbolizedFrame_clear []
                "/usr/bin/demo") as (_ & _ & Hanon & _).
    + zdec.
    + reflexivity.
    + left. discriminate.
    + reflexivity.
    + reflexivity.
    + reflexivity.
    + destruct (Hanon demo_main_lmap demo_exe Hobj eq_refl) as (q & Hq).
      exists q. exact Hq.
Defined.

Lemma X20_witness :
  (size (fresh 1) < 2 ^ 64 /\ (length (fresh 1) < length [0x10; 0x20]%Z)%nat) /\
  symbolize demo_env (Symbolizer_new FULL 0) [0x10; 0x20] (fresh 1) = None.
Proof.
  split.
  - split; [zdec | cbn; lia].
  - apply (proj1 (X20_symbolize_size_contract_is_exact demo_env
                    (Symbolizer_new FULL 0) [0x10; 0x20] (fresh 1) ltac:(zdec))).
    cbn; lia.
Defined.

Lemma X21_witness :
  (mode_ (Symbolizer_new FULL_WITH_INLINE 0) = FULL_WITH_INLINE /\
   symbolCache_ (Symbolizer_new FULL_WITH_INLINE 0) = None /\
   r_version demo_env = 1 /\
   readlink_self_exe demo_env = Some "/usr/bin/demo" /\
   r_map demo_env
   = demo_main_lmap :: [{| l_addr := 0x7f0000000000; l_name := "/lib/libdemo.so" |}] /\
   getFile demo_env (objPath "/usr/bin/demo" demo_main_lmap) = Some demo_exe /\
   Forall (resolves_to demo_env demo_exe demo_main_lmap demo_sym demo_loc demo_chain)
     demo_inline_addrs /\
   Forall (fun f => found f = false) (fresh 5) /\
   (length demo_inline_addrs
    + length (concat (map demo_chain demo_inline_addrs))
    <= length (fresh 5))%nat /\
   size (fresh 5) < 2 ^ 64) /\
  exists q,
    symbolize demo_env (Symbolizer_new FULL_WITH_INLINE 0) demo_inline_addrs
      (fresh 5)
    = Some ([demo_inline "inner" 7; demo_inline "outer" 9; demo_real;
             real_frame demo_env demo_exe demo_main_lmap (demo_sym 0x401010)
               (demo_loc 0x401010) 0x401010;
             SymbolizedFrame_clear],
            Symbolizer_new FULL_WITH_INLINE 0, q).
Proof.
  assert (Hres : Forall (resolves_to demo_env demo_exe demo_main_lmap demo_sym
                           demo_loc demo_chain) demo_inline_addrs).
  { unfold demo_inline_addrs. constructor; [|constructor; [|constructor]].
    - split; [vm_compute; reflexivity|]. split; [vm_compute; reflexivity|].
      split; [|split; [repeat constructor | vm_compute; lia]].
      intros slots Hslots. cbn [demo_chain Z.eqb Pos.eqb length] in Hslots.
      destruct slots as [|[|[|slots]]]; [lia | lia | |]; vm_compute; reflexivity.
    - split; [vm_compute; reflexivity|]. split; [vm_compute; reflexivity|].
      split; [|split; [constructor | vm_compute; lia]].
      intros slots _. vm_compute. reflexivity. }
  assert (Hunf : Forall (fun f => found f = false) (fresh 5))
    by (repeat constructor).
  split.
  - split; [reflexivity|]. split; [reflexivity|]. split; [reflexivity|].
    split; [reflexivity|]. split; [reflexivity|]. split; [reflexivity|].
    split; [exact Hres|]. split; [exact Hunf|]. split; [vm_compute; lia | zdec].
  - assert (Hfit : (length demo_inline_addrs
                    + length (concat (map demo_chain demo_inline_addrs))
                    <= length (fresh 5))%nat) by (vm_compute; lia).
    assert (HN : size (fresh 5) < 2 ^ 64) by zdec.
    destruct (X21_inline_expansion_of_a_trace demo_env
                (Symbolizer_new FULL_WITH_INLINE 0) demo_inline_addrs (fresh 5)
                "/usr/bin/demo" demo_main_lmap
                [{| l_addr := 0x7f0000000000; l_name := "/lib/libdemo.so" |}]
                demo_exe demo_sym demo_loc demo_chain
                eq_refl eq_refl eq_refl eq_refl eq_refl eq_refl Hres Hunf Hfit HN)
      as (q & Hq).
    exists q. rewrite Hq. vm_compute. reflexivity.
Defined.

Lemma X19_witness :
  (0 < 4096 < 2 ^ 63) /\
  exists calls,
    allocateStack demo_os {| ss_sp := 0; ss_size := 0; ss_flags := 0 |} 4096
    = Some (0x7f1000000000,
            {| ss_sp := 0x7f1000001000; ss_size := 1040384; ss_flags := 0 |},
            [(0x7f1000000000, 4096); (0x7f10000ff000, 4096)], calls).
Proof.
  split; [zdec|].
  destruct (proj1 (X19_allocateStack_layout demo_os
                     {| ss_sp := 0; ss_size := 0; ss_flags := 0 |}) 4096)
    as (p & uc' & gs & calls & Hrun & _); [zdec|].
  exists calls. rewrite Hrun.
  vm_compute in Hrun. injection Hrun as <- <- <- <-. reflexivity.
Defined.

Lemma X22_witness :
  ((length [0x401000; 0x401000; 0x10]%Z <= length (fresh 3))%nat /\
   size (fresh 3) < 2 ^ 64 /\
   symbolCache_ (Symbolizer_new FAST 2) = Some {| maxSize := 2; lru := [] |} /\
   cache_ok demo_env (mode_ (Symbolizer_new FAST 2)) "/usr/bin/demo"
     {| maxSize := 2; lru := [] |} /\
   mode_ (Symbolizer_new FAST 2) <> FULL_WITH_INLINE /\
   r_version demo_env = 1 /\
   readlink_self_exe demo_env = Some "/usr/bin/demo" /\
   Exists (fun f => found f = false)
          (firstn (length [0x401000; 0x401000; 0x10]%Z) (fresh 3))) /\
  exists c' q,
    symbolize demo_env (Symbolizer_new FAST 2) [0x401000; 0x401000; 0x10] (fresh 3)
    = Some (map (fun af => resolved_frame demo_env
                             (mode_ (Symbolizer_new FAST 2)) "/usr/bin/demo"
                             (fst af) (snd af))
                (combine [0x401000; 0x401000; 0x10] (fresh 3))
              ++ skipn (length [0x401000; 0x401000; 0x10]%Z) (fresh 3),
            {| mode_ := mode_ (Symbolizer_new FAST 2); symbolCache_ := Some c' |}, q) /\
    cache_ok demo_env (mode_ (Symbolizer_new FAST 2)) "/usr/bin/demo" c'.
Proof.
  split.
  - split; [cbn; lia|]. split; [zdec|]. split; [reflexivity|].
    split; [constructor|]. split; [discriminate|].
    split; [reflexivity|]. split; [reflexivity|].
    constructor. reflexivity.
  - destruct (X22_symbol_cache_is_transparent demo_env "/usr/bin/demo") as [_ Hcall].
    apply (Hcall (Symbolizer_new FAST 2) [0x401000; 0x401000; 0x10] (fresh 3)
             {| maxSize := 2; lru := [] |}).
    + cbn; lia.
    + zdec.
    + reflexivity.
    + constructor.
    + left. discriminate.
    + reflexivity.
    + reflexivity.
    + constructor. reflexivity.
Defined.

(* ================================================================== *)
(** * Reused state: the formatter, the trailing slots, the cache *)
(* ================================================================== *)

(** C7 (the defect).  A failed capture prints exactly the error literal,
    and the printer is flushed and synced.  But the address-only branch
    does not print one formatted address per captured frame: for the
    capture [0xfff; 0x1] (addresses of eight bytes, the template
    [0x0000000000000000]) it prints, after the notice, the line
    [0x0000000000000fff] and then the line [0x0000000000000ff1], which
    is not the rendering of [0x1] and reads back as [0xff1]; the one
    formatter of the loop keeps the digits of the address before. *)
Theorem C7_printStackTrace_address_line_is_stale p :
  (forall symbolize,
      exists r,
        printStackTrace 8 demo_template None [] symbolize p = Some r /\
        written (fd_ r)
          = printed p ++ bytes "(error retrieving stack trace)" ++ [LF] /\
        pending r = [] /\ synced r) /\
  (exists r,
      printStackTrace 8 demo_template (Some [0xfff; 0x1]) [] false p = Some r /\
      written (fd_ r)
        = printed p
            ++ (bytes "(safe mode, symbolizer not available)" ++ [LF])
            ++ (bytes "0x0000000000000fff" ++ [LF])
            ++ (bytes "0x0000000000000ff1" ++ [LF]) /\
      pending r = [] /\ synced r) /\
  (exists fresh_formatter,
      format 8 (AddressFormatter_new demo_template) 0x1
        = Some (bytes "0x0000000000000001", fresh_formatter)) /\
  bytes "0x0000000000000ff1" <> bytes "0x0000000000000001" /\
  parse_hex (skipn 2 (bytes "0x0000000000000ff1")) = Some 0xff1.
Proof.
  destruct (printStackTrace_output 8 demo_template [] p) as (Herr & Haddr & _).
  split; [exact Herr|]. split.
  - destruct (Haddr (bytes "0x") [0xfff; 0x1]) as (r & texts & Hrun & Hfa & _ & Hw & Hrest).
    + reflexivity.
    + lia.
    + repeat constructor; zdec.
    + exists r. split; [exact Hrun|]. split; [|exact Hrest].
      vm_compute in Hfa. injection Hfa as <-. exact Hw.
  - split; [eexists; vm_compute; reflexivity|].
    split; [intros H; discriminate H | vm_compute; reflexivity].
Qed.

(** The claim C1 fails on calls that the symbolizer itself prepares.
    [0x401000] lies in a section of the running executable, two calls
    are inlined there, and without a cache the call on a buffer of one
    frame finds it.  With a cache: a call on a buffer of two frames
    stores one inline frame and the frame of the call site and caches
    the two; the next call of the same symbolizer, on a buffer of one
    frame, leaves the frame not found and asks nothing.  And within one
    call given the address twice and a buffer of three frames, the
    second occurrence stays not found, where the call without a cache
    finds both. *)
Lemma C1_counterexample :
  getSectionContainingAddress demo_env demo_exe 0x401000 = true /\
  option_map (fun r => map found (fst (fst r)))
    (symbolize demo_env (Symbolizer_new FULL_WITH_INLINE 0) [0x401000] (fresh 1))
  = Some [true] /\
  (exists fs1 s1 q1,
      symbolize demo_env (Symbolizer_new FULL_WITH_INLINE 4) [0x401000] (fresh 2)
        = Some (fs1, s1, q1) /\
      fs1 = [demo_inline "inner" 7; demo_real] /\
      option_map (fun r => (map found (fst (fst r)), snd r))
        (symbolize demo_env s1 [0x401000] (fresh 1))
      = Some ([false], [])) /\
  option_map (fun r => map found (fst (fst r)))
    (symbolize demo_env (Symbolizer_new FULL_WITH_INLINE 4)
       [0x401000; 0x401000] (fresh 3))
  = Some [true; true; false] /\
  option_map (fun r => map found (fst (fst r)))
    (symbolize demo_env (Symbolizer_new FULL_WITH_INLINE 0)
       [0x401000; 0x401000] (fresh 3))
  = Some [true; true; true].
Proof.
  split; [reflexivity|].
  split; [vm_compute; reflexivity|].
  split.
  { eexists _, _, _. split; [vm_compute; reflexivity|].
    split; [reflexivity | vm_compute; reflexivity]. }
  split; vm_compute; reflexivity.
Qed.

Lemma C1_witness :
  (symbolize demo_env (Symbolizer_new FULL_WITH_INLINE 4) [0x401000] (fresh 2)
     = Some ([demo_inline "inner" 7; demo_real], demo_warm,
             [QSection demo_exe 0x401000; QDefinition demo_exe 0x401000;
              QSymbolName demo_exe (SymEntry 1025);
              QFindAddress demo_exe 0x401000 FULL_WITH_INLINE 1]) /\
   found SymbolizedFrame_clear = false /\
   size [SymbolizedFrame_clear] < 2 ^ 64 /\
   symbolCache_ demo_warm = Some demo_warm_cache /\
   lru_lookup 0x401000 (lru demo_warm_cache) = Some demo_group /\
   size [SymbolizedFrame_clear] - 1 < numInlineFrames_of demo_group) /\
  exists st frame',
    symbolize_state demo_env demo_warm [0x401000] [SymbolizedFrame_clear] = Some st /\
    frames st = [frame'] /\ found frame' = false /\ queries st = [].
Proof.
  split.
  - split; [vm_compute; reflexivity|]. repeat split; zdec.
  - apply (proj2 C1_oversized_cache_hit_is_skipped demo_env demo_warm demo_warm_cache
             0x401000 demo_group SymbolizedFrame_clear []); zdec.
Defined.

(** ** Inline expansion, with and without slack *)







(** ** Calls on a warm cache *)

Lemma lru_lookup_remove_other k k' l :
  k <> k' -> lru_lookup k' (lru_remove k l) = lru_lookup k' l.
Proof.
  intros Hne. induction l as [|[k0 v0] l IH]; [reflexivity|].
  cbn [lru_remove lru_lookup].
  destruct (Z.eqb_spec k0 k) as [-> | Hk0].
  - replace (k =? k') with false by (symmetry; apply Z.eqb_neq; exact Hne).
    exact IH.
  - cbn [lru_lookup]. rewrite IH. reflexivity.
Qed.

(** A lookup that brings an entry to the front loses no entry. *)
Lemma cache_find_keeps k c v c' k' :
  cache_find k c = Some (v, c') ->
  lru_lookup k' (lru c) <> None -> lru_lookup k' (lru c') <> None.
Proof.
  unfold cache_find.
  destruct (lru_lookup k (lru c)) as [v0|] eqn:Hl; [|discriminate].
  intros [= <- <-] Hk'. cbn [lru lru_lookup].
  destruct (Z.eqb_spec k k') as [_ | Hne]; [discriminate|].
  rewrite lru_lookup_remove_other by exact Hne. exact Hk'.
Qed.

Lemma found_or_cached_keeps k c v c' :
  cache_find k c = Some (v, c') ->
  forall l, Forall (found_or_cached c) l -> Forall (found_or_cached c') l.
Proof.
  intros Hfind l Hall. eapply Forall_impl; [|exact Hall].
  intros f [Hf | Hc]; [left; exact Hf | right].
  eapply cache_find_keeps; eassumption.
Qed.

(** A visit in such a state is a skip or a replay: it asks nothing. *)
Lemma visit_warm env mode N lmap elf i st :
  N < 2 ^ 64 -> Inv N st -> 0 <= i < addrCount st -> all_cached st ->
  exists i' st',
    visit env mode N lmap elf i st = Some (i', st') /\ Inv N st' /\
    i <= i' /\ addrCount st' - i' = addrCount st - i /\
    all_cached st' /\ queries st' = queries st.
Proof.
  intros HN HInv Hi (c & Hc & Hall). unfold visit.
  destruct HInv as [Hsz Hac].
  destruct (nth_error (frames st) (Z.to_nat i)) as [frame|] eqn:Hnth.
  2:{ apply nth_error_None in Hnth. unfold size in Hsz. lia. }
  destruct (found frame) eqn:Hf.
  { exists i, st. repeat split; try assumption; try lia. exists c. auto. }
  assert (Hin : found_or_cached c frame).
  { rewrite Forall_forall in Hall. apply Hall.
    apply (nth_error_In _ (Z.to_nat i)).
    rewrite nth_error_firstn.
    replace (Z.to_nat i <? Z.to_nat (addrCount st))%nat with true
      by (symmetry; apply Nat.ltb_lt; lia).
    exact Hnth. }
  destruct Hin as [Habs | Hlook]; [congruence|].
  destruct (lru_lookup (addr frame) (lru c)) as [e|] eqn:Hl; [|congruence].
  destruct (cache_find_hit _ _ _ Hl) as (c' & Hfind & _ & _).
  rewrite Hc, Hfind.
  pose proof (found_or_cached_keeps _ _ _ _ Hfind _ Hall) as Hall'.
  set (st1 := {| frames := frames st; addrCount := addrCount st;
                 remaining := remaining st; symbolCache := Some c';
                 queries := queries st |}).
  destruct (Z.leb_spec (numInlineFrames_of e) (N - addrCount st)) as [Hfit | Hbig].
  - destruct (replay_cached_layout N i e st1) as (Hrun & HF & Hm0 & Hm1);
      cbn [st1 frames addrCount]; try assumption; try lia.
    cbn [st1 frames addrCount remaining symbolCache queries] in Hrun.
    set (m := numInlineFrames_of e) in *.
    rewrite Hrun. eexists _, _. split; [reflexivity|].
    assert (Hlen : length (firstn (Z.to_nat i) (frames st)
                           ++ firstn (Z.to_nat (m + 1)) e
                           ++ sublist (Z.to_nat (i + 1)) (Z.to_nat (addrCount st))
                                (frames st))
                   = Z.to_nat (addrCount st + m)).
    { rewrite !length_app, !length_firstn, length_sublist by (unfold size in *; lia).
      unfold size in *. lia. }
    split.
    { split; cbn [frames addrCount]; [|lia].
      unfold size. rewrite !app_assoc, length_app, <- !app_assoc, Hlen, length_skipn.
      unfold size in Hsz. lia. }
    split; [lia|]. split; [cbn [addrCount]; lia|].
    split; [|reflexivity].
    exists c'. split; [reflexivity|]. cbn [frames addrCount].
    rewrite !app_assoc, firstn_app_exact
      by (rewrite <- !app_assoc; symmetry; exact Hlen).
    rewrite <- !app_assoc.
    apply Forall_app. split; [|apply Forall_app; split].
    + replace (firstn (Z.to_nat i) (frames st))
        with (firstn (Z.to_nat i) (firstn (Z.to_nat (addrCount st)) (frames st)))
        by (rewrite firstn_firstn; f_equal; lia).
      apply Forall_firstn_of. exact Hall'.
    + eapply Forall_impl; [|exact HF]. intros f Hfound. left. exact Hfound.
    + unfold sublist. rewrite <- skipn_firstn_comm.
      apply Forall_skipn_of. exact Hall'.
  - exists i, st1. split.
    { unfold replay_cached. fold (numInlineFrames_of e).
      cbn [st1 addrCount].
      rewrite (size_sub_small N (addrCount st)) by lia.
      replace (numInlineFrames_of e <=? N - addrCount st) with false
        by (symmetry; apply Z.leb_gt; exact Hbig).
      reflexivity. }
    split; [split; cbn [st1 frames addrCount]; assumption|].
    split; [lia|]. split; [reflexivity|]. split; [|reflexivity].
    exists c'. split; [reflexivity | exact Hall'].
Qed.

Lemma inner_loop_warm env mode N lmap elf fuel : forall i st,
  N < 2 ^ 64 -> Inv N st -> 0 <= i -> addrCount st - i <= Z.of_nat fuel ->
  all_cached st ->
  exists st',
    inner_loop fuel env mode N lmap elf i st = Some st' /\ Inv N st' /\
    all_cached st' /\ queries st' = queries st.
Proof.
  induction fuel as [|fuel IH]; intros i st HN HInv Hi Hfuel Hwarm.
  - simpl. destruct (i <? addrCount st) eqn:Hlt.
    + apply Z.ltb_lt in Hlt. lia.
    + simpl. exists st. auto.
  - simpl. destruct ((i <? addrCount st) && negb (remaining st =? 0)) eqn:Hcond.
    2:{ exists st. auto. }
    apply andb_true_iff in Hcond. destruct Hcond as [Hlt _]. apply Z.ltb_lt in Hlt.
    destruct (visit_warm env mode N lmap elf i st HN HInv)
      as (i' & st' & -> & HInv' & Hle & Hm & Hwarm' & Hq); [lia | exact Hwarm |].
    assert (Hi' : i' < addrCount st') by lia.
    pose proof HInv' as [Hsz' Hac'].
    rewrite size_add_small by lia.
    destruct (IH (i' + 1) st') as (st'' & Hrun & HInv'' & Hwarm'' & Hq'');
      try assumption; try lia.
    exists st''. repeat split; try assumption; try apply HInv''. congruence.
Qed.

Lemma outer_loop_warm env mode N selfPath lmaps : forall st,
  N < 2 ^ 64 -> Inv N st -> all_cached st ->
  exists st',
    outer_loop env mode N selfPath lmaps st = Some st' /\ Inv N st' /\
    all_cached st' /\ queries st' = queries st.
Proof.
  induction lmaps as [|lmap rest IH]; intros st HN HInv Hwarm; simpl.
  - exists st. auto.
  - destruct (remaining st =? 0); [exists st; auto|].
    match goal with |- context [getFile env ?p] => destruct (getFile env p) as [elf|] end.
    + destruct (inner_loop_warm env mode N lmap elf (Z.to_nat (addrCount st)) 0 st)
        as (st' & -> & HInv' & Hwarm' & Hq);
        [assumption | assumption | lia | destruct HInv as [_ ?]; lia | assumption | ].
      destruct (IH st' HN HInv' Hwarm') as (st'' & Hrun & HInv'' & Hwarm'' & Hq').
      exists st''. repeat split; try assumption; try apply HInv''. congruence.
    + apply IH; assumption.
Qed.

(** A call on a symbolizer whose cache has an entry for every address
    still to resolve asks the debug-info service nothing. *)
Lemma symbolize_warm env s c addrs fs :
  (length addrs <= length fs)%nat -> size fs < 2 ^ 64 ->
  symbolCache_ s = Some c ->
  Forall (fun af => found (snd af) = true \/ lru_lookup (fst af) (lru c) <> None)
         (combine addrs fs) ->
  exists fs' s', symbolize env s addrs fs = Some (fs', s', []).
Proof.
  intros Hlen HN Hc Hall. unfold symbolize, symbolize_state.
  rewrite clear_unfound_exact by exact Hlen.
  destruct (_ =? 0); [eexists _, _; reflexivity|].
  destruct (negb (r_version env =? 1)); [eexists _, _; reflexivity|].
  destruct (readlink_self_exe env) as [selfPath|]; [|eexists _, _; reflexivity].
  rewrite prepared_frames by exact Hlen.
  set (H := fun af : Z * SymbolizedFrame =>
              set_addr (if found (snd af) then snd af else SymbolizedFrame_clear)
                       (fst af)).
  assert (Hcomb : length (combine addrs fs) = length addrs).
  { rewrite length_combine. lia. }
  match goal with
  | |- context [outer_loop _ _ _ _ _ ?st] => set (st0 := st)
  end.
  destruct (outer_loop_warm env (mode_ s) (size fs) selfPath (r_map env) st0 HN)
    as (st' & Hrun & _ & _ & Hq).
  - subst st0. split; cbn [frames addrCount].
    + unfold size. rewrite length_app, length_map, Hcomb, length_skipn. lia.
    + unfold size. lia.
  - exists c. subst st0. cbn [symbolCache frames addrCount]. split; [exact Hc|].
    unfold size. rewrite Nat2Z.id, firstn_app_exact by (rewrite length_map; lia).
    apply Forall_map. eapply Forall_impl; [|exact Hall].
    intros [a f] Hcase. subst H. cbn [fst snd] in *. unfold found_or_cached.
    destruct (found f) eqn:Hf; [left; exact Hf | right].
    cbn [set_addr addr]. destruct Hcase as [Habs | Hl]; [discriminate | exact Hl].
  - rewrite Hrun. eexists _, _. rewrite Hq. reflexivity.
Qed.

(** Two calls with the same addresses and the same buffer, when no
    inline frames are asked for: the frames are the same, whatever the
    cache kept in between. *)
Lemma symbolize_twice_flat env selfPath s addrs fs c :
  (length addrs <= length fs)%nat -> size fs < 2 ^ 64 ->
  symbolCache_ s = Some c -> cache_ok env (mode_ s) selfPath c ->
  mode_ s <> FULL_WITH_INLINE \/ length fs = length addrs ->
  r_version env = 1 -> readlink_self_exe env = Some selfPath ->
  Exists (fun f => found f = false) (firstn (length addrs) fs) ->
  exists fs1 s1 q1 s2 q2,
    symbolize env s addrs fs = Some (fs1, s1, q1) /\
    symbolize env s1 addrs fs = Some (fs1, s2, q2).
Proof.
  intros Hlen HN Hc Hok Hmode Hv Hself Hex.
  destruct (symbolize_cached_flat env selfPath s addrs fs c
              Hlen HN Hc Hok Hmode Hv Hself Hex) as (c1 & q1 & Hrun1 & Hok1).
  destruct (symbolize_cached_flat env selfPath
              {| mode_ := mode_ s; symbolCache_ := Some c1 |} addrs fs c1
              Hlen HN eq_refl Hok1 Hmode Hv Hself Hex) as (c2 & q2 & Hrun2 & _).
  cbn [mode_] in Hrun2.
  eexists _, _, q1, _, q2. split; [exact Hrun1 | exact Hrun2].
Qed.

(** C3 (as the code has it).  A resolution stores in the cache, under
    the address, exactly the frame group it left in the buffer (inline
    frames first, then the real frame, all found).  A later visit of
    the address, in the same call or in another, that still finds the
    entry and has room for it copies that group in place of the frame,
    moves the following frames up, and asks the debug-info service
    nothing.  So for one address resolved by one call and given to a
    second call whose fresh buffer has room for the group: the second
    call stores the same group in front of an otherwise untouched
    buffer, reaches the same address count, and makes no query.  A call
    in which every address still to resolve has its entry in the cache
    makes no query at all, for any number of addresses, any buffer and
    any mode.  And when no inline frames are asked for, two calls with
    the same addresses and the same buffer leave the same frames,
    whether the entries survived in between or not. *)
Theorem C3_cache_replay :
  (forall env mode frameCount lmap elf i a st c,
      size (frames st) = frameCount -> frameCount < 2 ^ 64 ->
      0 <= i < addrCount st -> addrCount st <= frameCount ->
      symbolCache st = Some c -> (0 < maxSize c)%nat ->
      getSectionContainingAddress env elf (wrap (a - l_addr lmap)) = true ->
      exists i' st' c' e,
        resolve env mode frameCount lmap elf i a st = Some (i', st') /\
        i <= i' /\ addrCount st' = addrCount st + (i' - i) /\
        symbolCache st' = Some c' /\ lru_lookup a (lru c') = Some e /\
        numInlineFrames_of e = i' - i /\
        firstn (Z.to_nat (i' - i + 1)) e
          = sublist (Z.to_nat i) (Z.to_nat (i' + 1)) (frames st') /\
        Forall (fun f => found f = true)
          (sublist (Z.to_nat i) (Z.to_nat (i' + 1)) (frames st'))) /\
  (forall env mode frameCount lmap elf i st frame c e,
      size (frames st) = frameCount -> frameCount < 2 ^ 64 ->
      0 <= i < addrCount st -> addrCount st <= frameCount ->
      nth_error (frames st) (Z.to_nat i) = Some frame -> found frame = false ->
      symbolCache st = Some c ->
      lru_lookup (addr frame) (lru c) = Some e ->
      numInlineFrames_of e <= frameCount - addrCount st ->
      let m := numInlineFrames_of e in
      exists c',
        visit env mode frameCount lmap elf i st =
          Some (i + m,
                {| frames :=
                     firstn (Z.to_nat i) (frames st)
                       ++ firstn (Z.to_nat (m + 1)) e
                       ++ sublist (Z.to_nat (i + 1)) (Z.to_nat (addrCount st))
                            (frames st)
                       ++ skipn (Z.to_nat (addrCount st + m)) (frames st);
                   addrCount := addrCount st + m;
                   remaining := remaining st;
                   symbolCache := Some c';
                   queries := queries st |}) /\
        lru_lookup (addr frame) (lru c') = Some e) /\
  (forall env s c a n1 n2 st1,
      symbolCache_ s = Some c -> (0 < maxSize c)%nat ->
      Z.of_nat n1 < 2 ^ 64 -> Z.of_nat n2 < 2 ^ 64 ->
      symbolize_state env s [a] (fresh n1) = Some st1 ->
      option_map found (hd_error (frames st1)) = Some true ->
      addrCount st1 <= Z.of_nat n2 ->
      let s' := {| mode_ := mode_ s; symbolCache_ := symbolCache st1 |} in
      let g := Z.to_nat (addrCount st1) in
      exists st2,
        symbolize_state env s' [a] (fresh n2) = Some st2 /\
        addrCount st2 = addrCount st1 /\
        firstn g (frames st2) = firstn g (frames st1) /\
        Forall (fun f => found f = true) (firstn g (frames st2)) /\
        skipn g (frames st2) = fresh (n2 - g) /\
        queries st2 = []) /\
  (forall env s c addrs fs,
      (length addrs <= length fs)%nat -> size fs < 2 ^ 64 ->
      symbolCache_ s = Some c ->
      Forall (fun af => found (snd af) = true \/
                        lru_lookup (fst af) (lru c) <> None)
             (combine addrs fs) ->
      exists fs' s', symbolize env s addrs fs = Some (fs', s', [])) /\
  (forall env selfPath s addrs fs c,
      (length addrs <= length fs)%nat -> size fs < 2 ^ 64 ->
      symbolCache_ s = Some c -> cache_ok env (mode_ s) selfPath c ->
      mode_ s <> FULL_WITH_INLINE \/ length fs = length addrs ->
      r_version env = 1 -> readlink_self_exe env = Some selfPath ->
      Exists (fun f => found f = false) (firstn (length addrs) fs) ->
      exists fs1 s1 q1 s2 q2,
        symbolize env s addrs fs = Some (fs1, s1, q1) /\
        symbolize env s1 addrs fs = Some (fs1, s2, q2)).
Proof.
  split; [|split; [|split; [|split]]].
  - intros env mode frameCount lmap elf i a st c Hsz HN Hi Hac Hc Hmax Hsec.
    destruct (resolve_stores_group env mode frameCount lmap elf i a st c
                Hsz HN Hi Hac Hc Hmax Hsec)
      as (i' & st' & c' & e & Hrun & Hle & Hac' & _ & _ & Hc' & Hl & Hn & Hpre & HF).
    exists i', st', c', e. repeat split; assumption.
  - intros env mode frameCount lmap elf i st frame c e
      Hsz HN Hi Hac Hnth Hf Hc Hl Hfit m.
    destruct (visit_replays env mode frameCount lmap elf i st frame c e
                Hsz HN Hi Hac Hnth Hf Hc Hl Hfit) as (c' & Hrun & Hl' & _).
    exists c'. split; assumption.
  - exact single_address_replay.
  - exact symbolize_warm.
  - exact symbolize_twice_flat.
Qed.

(** The claim C3 fails when the entry does not survive.  A symbolizer
    with a cache of capacity one and two addresses, one in the
    executable and one in the shared library, each call on a fresh
    buffer of two frames: the first call resolves both, and caching the
    second address evicts the first.  The second call leaves the same
    frames, but finds neither entry when it needs it and asks the
    debug-info service all over again, for [0x401000] too: nine
    queries, as in the first call. *)
Lemma C3_counterexample :
  exists fs1 s1 q1 fs2 s2 q2,
    symbolize demo_env (Symbolizer_new FULL 1) [0x401000; 0x7f0000001100] (fresh 2)
      = Some (fs1, s1, q1) /\
    symbolize demo_env s1 [0x401000; 0x7f0000001100] (fresh 2)
      = Some (fs2, s2, q2) /\
    map found fs1 = [true; true] /\
    fs2 = fs1 /\
    option_map (fun c => map fst (lru c)) (symbolCache_ s1) = Some [0x7f0000001100] /\
    In (QDefinition demo_exe 0x401000) q2 /\
    In (QFindAddress demo_exe 0x401000 FULL 0) q2 /\
    length q1 = 9%nat /\ length q2 = 9%nat.
Proof.
  eexists _, _, _, _, _, _.
  split; [vm_compute; reflexivity|].
  split; [vm_compute; reflexivity|].
  split; [reflexivity|]. split; [reflexivity|]. split; [reflexivity|].
  split; [vm_compute; tauto|]. split; [vm_compute; tauto|].
  split; reflexivity.
Qed.

Lemma C3_witness :
  (exists st1,
    (symbolCache_ (Symbolizer_new FULL_WITH_INLINE 4)
       = Some {| maxSize := 4; lru := [] |} /\
     (0 < 4)%nat /\ Z.of_nat 3 < 2 ^ 64 /\ Z.of_nat 5 < 2 ^ 64 /\
     symbolize_state demo_env (Symbolizer_new FULL_WITH_INLINE 4) [0x401000] (fresh 3)
       = Some st1 /\
     option_map found (hd_error (frames st1)) = Some true /\
     addrCount st1 <= Z.of_nat 5) /\
    exists st2,
      symbolize_state demo_env
        {| mode_ := FULL_WITH_INLINE; symbolCache_ := symbolCache st1 |}
        [0x401000] (fresh 5) = Some st2 /\
      addrCount st2 = addrCount st1 /\
      firstn (Z.to_nat (addrCount st1)) (frames st2)
        = firstn (Z.to_nat (addrCount st1)) (frames st1) /\
      Forall (fun f => found f = true)
        (firstn (Z.to_nat (addrCount st1)) (frames st2)) /\
      skipn (Z.to_nat (addrCount st1)) (frames st2)
        = fresh (5 - Z.to_nat (addrCount st1)) /\
      queries st2 = []) /\
  (((length [0x401000; 0x401000]%Z <= length (fresh 4))%nat /\
    size (fresh 4) < 2 ^ 64 /\
    symbolCache_ demo_warm = Some demo_warm_cache /\
    Forall (fun af => found (snd af) = true \/
                      lru_lookup (fst af) (lru demo_warm_cache) <> None)
           (combine [0x401000; 0x401000] (fresh 4))) /\
   exists fs' s',
     symbolize demo_env demo_warm [0x401000; 0x401000] (fresh 4)
     = Some (fs', s', [])) /\
  (((length [0x401000; 0x7f0000001100]%Z <= length (fresh 2))%nat /\
    size (fresh 2) < 2 ^ 64 /\
    symbolCache_ (Symbolizer_new FULL 1) = Some {| maxSize := 1; lru := [] |} /\
    cache_ok demo_env (mode_ (Symbolizer_new FULL 1)) "/usr/bin/demo"
      {| maxSize := 1; lru := [] |} /\
    mode_ (Symbolizer_new FULL 1) <> FULL_WITH_INLINE /\
    r_version demo_env = 1 /\
    readlink_self_exe demo_env = Some "/usr/bin/demo" /\
    Exists (fun f => found f = false)
      (firstn (length [0x401000; 0x7f0000001100]%Z) (fresh 2))) /\
   exists fs1 s1 q1 s2 q2,
     symbolize demo_env (Symbolizer_new FULL 1) [0x401000; 0x7f0000001100] (fresh 2)
       = Some (fs1, s1, q1) /\
     symbolize demo_env s1 [0x401000; 0x7f0000001100] (fresh 2)
       = Some (fs1, s2, q2)).
Proof.
  assert (Hwarm : Forall (fun af => found (snd af) = true \/
                            lru_lookup (fst af) (lru demo_warm_cache) <> None)
                    (combine [0x401000; 0x401000] (fresh 4))).
  { cbv [combine fresh repeat].
    constructor; [right; vm_compute; discriminate|].
    constructor; [right; vm_compute; discriminate|].
    constructor. }
  assert (Hex : Exists (fun f => found f = false)
                  (firstn (length [0x401000; 0x7f0000001100]%Z) (fresh 2)))
    by (constructor; reflexivity).
  split; [|split].
  - eexists. split.
    + split; [reflexivity|]. split; [lia|]. split; [zdec|]. split; [zdec|].
      split; [vm_compute; reflexivity|]. split; zdec.
    + apply (proj1 (proj2 (proj2 C3_cache_replay)) demo_env
               (Symbolizer_new FULL_WITH_INLINE 4)
               {| maxSize := 4; lru := [] |} 0x401000 3%nat 5%nat); zdec.
  - split.
    + split; [cbn; lia|]. split; [zdec|]. split; [reflexivity | exact Hwarm].
    + apply (proj1 (proj2 (proj2 (proj2 C3_cache_replay))) demo_env demo_warm
               demo_warm_cache [0x401000; 0x401000] (fresh 4)).
      * cbn; lia.
      * zdec.
      * reflexivity.
      * exact Hwarm.
  - split.
    + split; [cbn; lia|]. split; [zdec|]. split; [reflexivity|].
      split; [constructor|]. split; [discriminate|].
      split; [reflexivity|]. split; [reflexivity | exact Hex].
    + apply (proj2 (proj2 (proj2 (proj2 C3_cache_replay))) demo_env "/usr/bin/demo"
               (Symbolizer_new FULL 1) [0x401000; 0x7f0000001100] (fresh 2)
               {| maxSize := 1; lru := [] |}).
      * cbn; lia.
      * zdec.
      * reflexivity.
      * constructor.
      * left. discriminate.
      * reflexivity.
      * reflexivity.
      * exact Hex.
Defined.
